(** * The metadata viewer's analysis pipeline

    A shallow embedding of [src/lib/enhanced-metadata-extractor.ts]: content
    sniffing, category classification, the per-category extractors and the
    result assembler [analyzeFileEnhanced], followed by the properties the
    specification states about them.

    JavaScript strings are sequences of UTF-16 code units ([list N]), buffers
    are lists of bytes, numbers that the code computes from bytes and sizes
    are integers ([Z]).  Plain objects that the code builds with spread
    syntax are finite maps from field names to values.  The browser and the
    third-party parsers are a [Platform] record: every call the code makes
    into them either returns or throws. *)

From Stdlib Require Import ZArith List String Ascii Strings.Byte Lia Floats.
From stdpp Require Import gmap strings list.

Local Open Scope Z_scope.

(** ** JavaScript strings *)

Abbreviation jsstring := (list N).

Definition char (a : ascii) : N := N_of_ascii a.

(** The code units of an ASCII literal. *)
Definition js (s : string) : jsstring := char <$> list_ascii_of_string s.

Definition jsstring_eqb (a b : jsstring) : bool := bool_decide (a = b).

(** [String.prototype.startsWith]. *)
Fixpoint startsWith (searchString s : jsstring) : bool :=
  match searchString, s with
  | [], _ => true
  | _ :: _, [] => false
  | c :: p', d :: s' => N.eqb c d && startsWith p' s'
  end.

(** [String.prototype.includes]: some suffix starts with the needle. *)
Fixpoint str_includes (searchString s : jsstring) : bool :=
  startsWith searchString s ||
  match s with
  | [] => false
  | _ :: s' => str_includes searchString s'
  end.

(** [String.prototype.split] with a one-code-unit separator.  The result is
    never empty: the empty string splits into one empty piece. *)
Fixpoint split (separator : N) (s : jsstring) : list jsstring :=
  match s with
  | [] => [[]]
  | c :: s' =>
      if N.eqb c separator then [] :: split separator s'
      else match split separator s' with
           | [] => [[c]]
           | piece :: pieces => (c :: piece) :: pieces
           end
  end.

(** [Array.prototype.pop] as the code uses it: the last element, [undefined]
    on an empty array. *)
Definition pop {A} (l : list A) : option A := last l.

(** [Array.prototype.includes] on an array of strings. *)
Definition includes (l : list jsstring) (x : jsstring) : bool :=
  existsb (jsstring_eqb x) l.

(** [a || ''] for an optional string [a]: the empty string and [undefined]
    are both falsy. *)
Definition or_empty (a : option jsstring) : jsstring :=
  match a with
  | Some (c :: s) => c :: s
  | _ => []
  end.

(** Decimal digits of a natural number, most significant first
    ([Number.prototype.toString] on a non-negative integer). *)
Fixpoint digits_fuel (fuel : nat) (radix : N) (n : N) (acc : list N) : list N :=
  match fuel with
  | O => acc
  | S fuel' =>
      let acc' := (n mod radix)%N :: acc in
      if (n <? radix)%N then acc' else digits_fuel fuel' radix (n / radix)%N acc'
  end.

Definition digit_char (upper : bool) (d : N) : N :=
  if (d <? 10)%N then (48 + d)%N
  else if upper then (55 + d)%N else (87 + d)%N.

Definition nat_toString (radix : N) (upper : bool) (n : N) : jsstring :=
  digit_char upper <$> digits_fuel (S (N.to_nat (N.log2 n))) radix n [].

(** [Number.prototype.toString(radix)] on an integer. *)
Definition int_toString (radix : N) (z : Z) : jsstring :=
  if z <? 0 then char "-" :: nat_toString radix false (Z.to_N (- z))
  else nat_toString radix false (Z.to_N z).

(** [String.prototype.padStart] with a one-code-unit filler. *)
Definition padStart (targetLength : nat) (fill : N) (s : jsstring) : jsstring :=
  replicate (targetLength - length s)%nat fill ++ s.

Definition join (separator : jsstring) (l : list jsstring) : jsstring :=
  match l with
  | [] => []
  | x :: xs => x ++ concat ((fun y => separator ++ y) <$> xs)
  end.

(** ** Categories *)

Inductive Category := image | video | audio | document | archive | text | other.

(** ** Classification: [determineFileCategory] *)

Section Classifier.
(** [String.prototype.toLowerCase] follows the Unicode case tables of the
    host; the classifier is correct for any such function. *)
Variable toLowerCase : jsstring -> jsstring.

(** [name.split('.').pop()?.toLowerCase() || ''] *)
Definition extensionOf (name : jsstring) : jsstring :=
  or_empty (toLowerCase <$> pop (split (char ".") name)).

Definition determineFileCategory (mimeType filename : jsstring) : Category :=
  if startsWith (js "image/") mimeType then image
  else if startsWith (js "video/") mimeType then video
  else if startsWith (js "audio/") mimeType then audio
  else if startsWith (js "text/") mimeType then text
  else
    let extension := extensionOf filename in
    let documentExts := js <$> ["pdf"; "doc"; "docx"; "txt"; "rtf"; "odt"; "pages"]%string in
    let archiveExts := js <$> ["zip"; "rar"; "7z"; "tar"; "gz"; "bz2"; "xz"]%string in
    let imageExts := js <$> ["jpg"; "jpeg"; "png"; "gif"; "bmp"; "webp"; "svg"; "tiff"; "ico"]%string in
    let videoExts := js <$> ["mp4"; "avi"; "mov"; "wmv"; "flv"; "webm"; "mkv"; "m4v"]%string in
    let audioExts := js <$> ["mp3"; "wav"; "flac"; "aac"; "ogg"; "m4a"; "wma"]%string in
    let textExts := js <$> ["txt"; "md"; "json"; "xml"; "html"; "css"; "js"; "ts"; "py";
                            "java"; "cpp"; "c"; "h"]%string in
    if includes documentExts extension then document
    else if includes archiveExts extension then archive
    else if includes imageExts extension then image
    else if includes videoExts extension then video
    else if includes audioExts extension then audio
    else if includes textExts extension then text
    else other.
End Classifier.

(** ** JavaScript values *)

(** The values that end up in metadata records.  [VNum] is a number with an
    integral value, [VFloat] any other double; nested object literals keep
    their fields in source order. *)
Inductive Value :=
| VUndefined
| VNull
| VBool (b : bool)
| VNum (n : Z)
| VFloat (x : float)
| VStr (s : jsstring)
| VDate (ms : Z)
| VBytes (data : list byte)
| VArr (items : list Value)
| VObj (fields : list (string * Value)).

(** ToBoolean. *)
Definition truthy (v : Value) : bool :=
  match v with
  | VUndefined | VNull => false
  | VBool b => b
  | VNum n => negb (n =? 0)
  | VFloat x => negb (PrimFloat.eqb x 0 || PrimFloat.is_nan x)
  | VStr s => negb (bool_decide (s = []))
  | _ => true
  end.

(** [a || b] and [c ? a : undefined] on values. *)
Definition or_else (a b : Value) : Value := if truthy a then a else b.

Definition opt_str (o : option jsstring) : Value :=
  match o with Some s => VStr s | None => VUndefined end.

Definition opt_num (o : option Z) : Value :=
  match o with Some n => VNum n | None => VUndefined end.

(** Property read [o.key] on an object literal (the first binding wins, as
    the literals of this program never repeat a key). *)
Fixpoint field (key : string) (fields : list (string * Value)) : Value :=
  match fields with
  | [] => VUndefined
  | (k, v) :: rest => if String.eqb k key then v else field key rest
  end.

(** [v?.[0]] *)
Definition opt_index0 (v : Value) : Value :=
  match v with
  | VArr (x :: _) => x
  | VStr (c :: _) => VStr [c]
  | VBytes (b :: _) => VNum (Z.of_N (Byte.to_N b))
  | VObj fields => field "0" fields
  | _ => VUndefined
  end.

(** [v === n] for a number literal [n]. *)
Definition is_number (n : Z) (v : Value) : bool :=
  match v with
  | VNum m => m =? n
  | VFloat x => PrimFloat.eqb x (PrimFloat.of_uint63 (Uint63.of_Z n))
  | _ => false
  end.

(** ** Effects: local arrays, the console, exceptions *)

(** What a [throw] carries: an [Error] with its message, or anything else. *)
Inductive Thrown :=
| ErrorObject (message : jsstring)
| NotAnError.

Inductive Outcome (A : Type) :=
| Ok (a : A)
| Throw (e : Thrown).
Arguments Ok {A} a.
Arguments Throw {A} e.

(** The mutable state one analysis touches: the [errors] and [warnings]
    arrays of [analyzeFileEnhanced], the diagnostics written with
    [console.warn], and how many object URLs were minted so far. *)
Record Store := {
  errors_arr : list jsstring;
  warnings_arr : list jsstring;
  console : list jsstring;
  minted : nat
}.

Definition M (A : Type) : Type := Store -> Outcome A * Store.

Definition ret {A} (a : A) : M A := fun s => (Ok a, s).

Definition bind {A B} (c : M A) (k : A -> M B) : M B :=
  fun s => match c s with
           | (Ok a, s') => k a s'
           | (Throw e, s') => (Throw e, s')
           end.

Definition throw {A} (e : Thrown) : M A := fun s => (Throw e, s).

(** [try { body } catch (error) { handler }]: what [body] did to the store
    before it threw stays done. *)
Definition try_catch {A} (body : M A) (handler : Thrown -> M A) : M A :=
  fun s => match body s with
           | (Ok a, s') => (Ok a, s')
           | (Throw e, s') => handler e s'
           end.

(** A call into the platform whose outcome is already known. *)
Definition call {A} (o : Outcome A) : M A := fun s => (o, s).

Notation "'let*' x ':=' c 'in' k" := (bind c (fun x => k))
  (at level 10, x name, c at level 100, k at level 200).
Notation "c ';;' k" := (bind c (fun _ => k))
  (at level 100, k at level 200, right associativity).

Definition console_warn (label : string) : M unit :=
  fun s => (Ok tt, {| errors_arr := errors_arr s; warnings_arr := warnings_arr s;
                      console := console s ++ [js label]; minted := minted s |}).

Definition errors_push (msg : jsstring) : M unit :=
  fun s => (Ok tt, {| errors_arr := errors_arr s ++ [msg]; warnings_arr := warnings_arr s;
                      console := console s; minted := minted s |}).

Definition warnings_push (msg : jsstring) : M unit :=
  fun s => (Ok tt, {| errors_arr := errors_arr s; warnings_arr := warnings_arr s ++ [msg];
                      console := console s; minted := minted s |}).

(** [const errors = []; const warnings = []] *)
Definition declare_arrays : M unit :=
  fun s => (Ok tt, {| errors_arr := []; warnings_arr := [];
                      console := console s; minted := minted s |}).

Definition get_errors : M (list jsstring) := fun s => (Ok (errors_arr s), s).
Definition get_warnings : M (list jsstring) := fun s => (Ok (warnings_arr s), s).

(** [new TypeError(...)] thrown by the engine on a bad property read or call. *)
Definition TypeError : Thrown := ErrorObject (js "TypeError").
Definition RangeError : Thrown := ErrorObject (js "Offset is outside the bounds of the DataView").

(** ** Buffers, [DataView] and [TextDecoder] *)

Definition byteLength (buffer : list byte) : Z := Z.of_nat (length buffer).

Definition byte_value (b : byte) : Z := Z.of_N (Byte.to_N b).

(** [buffer.slice(begin, end)] for non-negative bounds: both are clamped to
    the buffer. *)
Definition slice (buffer : list byte) (begin_ end_ : Z) : list byte :=
  take (Z.to_nat end_ - Z.to_nat begin_)%nat (drop (Z.to_nat begin_) buffer).

(** [view.getUint8(offset)]: a [RangeError] outside the buffer. *)
Definition getUint8 (buffer : list byte) (offset : Z) : Outcome Z :=
  if (0 <=? offset) && (offset + 1 <=? byteLength buffer) then
    match buffer !! Z.to_nat offset with
    | Some b => Ok (byte_value b)
    | None => Throw RangeError
    end
  else Throw RangeError.

(** [view.getUint16(offset)], big-endian. *)
Definition getUint16 (buffer : list byte) (offset : Z) : Outcome Z :=
  if (0 <=? offset) && (offset + 2 <=? byteLength buffer) then
    match buffer !! Z.to_nat offset, buffer !! Z.to_nat (offset + 1) with
    | Some hi, Some lo => Ok (Z.lor (Z.shiftl (byte_value hi) 8) (byte_value lo))
    | _, _ => Throw RangeError
    end
  else Throw RangeError.

(** The UTF-8 decoder of the Encoding standard, as [new TextDecoder()] runs
    it: malformed input yields U+FFFD instead of an exception, and a leading
    byte-order mark is dropped. *)
Record Utf8State := {
  code_point : Z;
  bytes_seen : Z;
  bytes_needed : Z;
  lower_boundary : Z;
  upper_boundary : Z
}.

Definition utf8_initial : Utf8State :=
  {| code_point := 0; bytes_seen := 0; bytes_needed := 0;
     lower_boundary := 128; upper_boundary := 191 |}.

(** A byte read while no sequence is pending: the code points it completes
    and the next state. *)
Definition utf8_lead (b : Z) : list Z * Utf8State :=
  if b <=? 127 then ([b], utf8_initial)
  else if (194 <=? b) && (b <=? 223) then
    ([], {| code_point := Z.land b 31; bytes_seen := 0; bytes_needed := 1;
            lower_boundary := 128; upper_boundary := 191 |})
  else if (224 <=? b) && (b <=? 239) then
    ([], {| code_point := Z.land b 15; bytes_seen := 0; bytes_needed := 2;
            lower_boundary := if b =? 224 then 160 else 128;
            upper_boundary := if b =? 237 then 159 else 191 |})
  else if (240 <=? b) && (b <=? 244) then
    ([], {| code_point := Z.land b 7; bytes_seen := 0; bytes_needed := 3;
            lower_boundary := if b =? 240 then 144 else 128;
            upper_boundary := if b =? 244 then 143 else 191 |})
  else ([65533], utf8_initial).

Definition utf8_step (st : Utf8State) (b : Z) : list Z * Utf8State :=
  if bytes_needed st =? 0 then utf8_lead b
  else if (b <? lower_boundary st) || (upper_boundary st <? b) then
    (* the pending sequence is an error and the byte is read again *)
    let '(out, st') := utf8_lead b in (65533 :: out, st')
  else
    let cp := Z.lor (Z.shiftl (code_point st) 6) (Z.land b 63) in
    if bytes_seen st + 1 =? bytes_needed st then ([cp], utf8_initial)
    else ([], {| code_point := cp; bytes_seen := bytes_seen st + 1;
                 bytes_needed := bytes_needed st;
                 lower_boundary := 128; upper_boundary := 191 |}).

Fixpoint utf8_decode (st : Utf8State) (input : list byte) : list Z :=
  match input with
  | [] => if bytes_needed st =? 0 then [] else [65533]
  | b :: rest =>
      let '(out, st') := utf8_step st (byte_value b) in
      out ++ utf8_decode st' rest
  end.

(** A code point as UTF-16 code units. *)
Definition code_units (cp : Z) : jsstring :=
  if cp <? 65536 then [Z.to_N cp]
  else
    let v := cp - 65536 in
    [Z.to_N (55296 + Z.shiftr v 10); Z.to_N (56320 + Z.land v 1023)].

(** [new TextDecoder().decode(buffer)] *)
Definition TextDecoder_decode (buffer : list byte) : jsstring :=
  let code_points :=
    match utf8_decode utf8_initial buffer with
    | 65279 :: rest => rest
    | cps => cps
    end in
  concat (code_units <$> code_points).

(** ** JPEG structure: [analyzeJPEGStructure] *)

Record EncodingBlock := {
  process : option jsstring;
  bitsPerSample : option Z;
  colorComponents : option Z;
  subSampling : option jsstring
}.

Record JfifBlock := {
  version : option jsstring;
  resolutionUnit : option jsstring;
  xResolution : option Z;
  yResolution : option Z
}.

(** Both blocks are optional; [Some] of a block without fields is the empty
    object [{}]. *)
Record JpegAnalysisResult := {
  encoding : option EncodingBlock;
  jfif : option JfifBlock
}.

Definition empty_encoding : EncodingBlock :=
  {| process := None; bitsPerSample := None; colorComponents := None; subSampling := None |}.

Definition empty_jfif : JfifBlock :=
  {| version := None; resolutionUnit := None; xResolution := None; yResolution := None |}.

(** Sequencing of [DataView] reads: the first [RangeError] ends the block. *)
Definition read {A B} (o : Outcome A) (k : A -> Outcome B) : Outcome B :=
  match o with
  | Ok a => k a
  | Throw e => Throw e
  end.

Notation "'read*' x ':=' o 'in' k" := (read o (fun x => k))
  (at level 10, x name, o at level 100, k at level 200).

(** One turn of the [while] loop: [break], or the next offset and result. *)
Inductive LoopStep :=
| Break
| Continue (offset : Z) (result : JpegAnalysisResult).

Definition JFIF_identifier : jsstring := js "JFIF" ++ [0%N].

Definition jpeg_segment (buffer : list byte) (offset : Z) (result : JpegAnalysisResult)
  : Outcome LoopStep :=
  read* marker := getUint16 buffer offset in
  if negb (Z.land marker 0xFF00 =? 0xFF00) then Ok Break
  else
    let markerType := Z.land marker 0xFF in
    let offset := offset + 2 in
    if markerType =? 0xE0 then
      read* length := getUint16 buffer offset in
      let identifier := TextDecoder_decode (slice buffer (offset + 2) (offset + 7)) in
      read* result :=
        (if jsstring_eqb identifier JFIF_identifier then
           read* majorVersion := getUint8 buffer (offset + 7) in
           read* minorVersion := getUint8 buffer (offset + 8) in
           read* units := getUint8 buffer (offset + 9) in
           read* xDensity := getUint16 buffer (offset + 10) in
           read* yDensity := getUint16 buffer (offset + 12) in
           Ok {| encoding := encoding result;
                 jfif := Some
                   {| version := Some (int_toString 10 majorVersion ++ js "." ++
                                       padStart 2 (char "0") (int_toString 10 minorVersion));
                      resolutionUnit := Some (if units =? 0 then js "None"
                                              else if units =? 1 then js "inches"
                                              else js "cm");
                      xResolution := Some xDensity;
                      yResolution := Some yDensity |} |}
         else Ok result) in
      Ok (Continue (offset + length) result)
    else if markerType =? 0xC0 then
      read* length := getUint16 buffer offset in
      read* precision := getUint8 buffer (offset + 2) in
      read* components := getUint8 buffer (offset + 7) in
      Ok (Continue (offset + length)
            {| encoding := Some
                 {| process := Some (js "Baseline DCT, Huffman coding");
                    bitsPerSample := Some precision;
                    colorComponents := Some components;
                    subSampling := if components =? 3 then Some (js "YCbCr4:2:0 (2 2)")
                                   else None |};
               jfif := jfif result |})
    else
      read* length := getUint16 buffer offset in
      Ok (Continue (offset + length) result).

(** The loop [while (offset < buffer.byteLength - 1)].  [result] is mutated
    in place, so when a read throws the [catch] still sees every block
    assigned before: the scan returns the result reached together with the
    error that ended it, if any.  Every turn moves the offset forward by at
    least two, so [fuel] is never exhausted when it is the buffer length. *)
Fixpoint jpeg_scan (fuel : nat) (buffer : list byte) (offset : Z)
    (result : JpegAnalysisResult) : JpegAnalysisResult * option Thrown :=
  match fuel with
  | O => (result, None)
  | S fuel' =>
      if offset <? byteLength buffer - 1 then
        match jpeg_segment buffer offset result with
        | Throw e => (result, Some e)
        | Ok Break => (result, None)
        | Ok (Continue offset' result') => jpeg_scan fuel' buffer offset' result'
        end
      else (result, None)
  end.

Definition analyzeJPEGStructure (buffer : list byte) : M JpegAnalysisResult :=
  let result := {| encoding := Some empty_encoding; jfif := Some empty_jfif |} in
  match getUint16 buffer 0 with
  | Throw error => console_warn "Error analyzing JPEG structure:" ;; ret result
  | Ok soi =>
      if negb (soi =? 0xFFD8) then ret result
      else
        match jpeg_scan (length buffer) buffer 2 result with
        | (result, Some error) =>
            console_warn "Error analyzing JPEG structure:" ;; ret result
        | (result, None) => ret result
        end
  end.

(** ** The platform and the parsing libraries *)

(** A [File] of the upload widget; reading its bytes can fail. *)
Record File := {
  file_name : jsstring;
  file_size : Z;
  file_type : jsstring;
  file_lastModified : Z;
  file_arrayBuffer : Outcome (list byte)
}.

(** What [fileTypeFromBuffer] of [file-type] resolves to when a signature
    matches. *)
Record FileTypeResult := { mime : jsstring; ext : jsstring }.

(** The tags picked from [exifr]'s [parse]: each field holds whatever the
    parser left there, [undefined] for a tag that is absent.  With the
    options of the call the parser translates enumerated tags such as [Flash]
    to their textual meaning, so the formatting helpers, typed
    [number | undefined], receive text as well as numbers. *)
Module exifr.
Record Tags := {
  Make : Value; Model : Value; Software : Value;
  ISO : Value; FNumber : Value; ExposureTime : Value;
  FocalLength : Value; FocalLengthIn35mmFormat : Value;
  Flash : Value; WhiteBalance : Value; MeteringMode : Value;
  ExposureMode : Value; SceneCaptureType : Value;
  DateTime : Value; DateTimeOriginal : Value; DateTimeDigitized : Value;
  GPSLatitude : Value; GPSLongitude : Value; GPSAltitude : Value;
  Orientation : Value; ColorSpace : Value;
  ImageWidth : Value; ImageHeight : Value;
  XResolution : Value; YResolution : Value; ResolutionUnit : Value;
  LensModel : Value; LensMake : Value; LensSerialNumber : Value;
  BitsPerSample : Value; Compression : Value
}.
End exifr.

(** The result of [parseBuffer] of [music-metadata]. *)
Module music_metadata.
Record IFormat := {
  container : option jsstring;
  codec : option jsstring;
  lossless : Value;
  numberOfChannels : Value;
  bitsPerSample : Value;
  sampleRate : Value;
  duration : Value;
  bitrate : Value;
  codecProfile : Value
}.

Record INumberOf := { no : Value; of_ : Value }.

(** [data] is a byte view; [data_buffer] is the [ArrayBuffer] behind it
    ([data.buffer]), which can be larger than the view. *)
Record IPicture := {
  format : jsstring;
  data : list byte;
  data_buffer : list byte;
  description : Value;
  type : Value
}.

Record ICommonTags := {
  track : option INumberOf;
  disk : option INumberOf;
  title : Value; artist : Value; album : Value; albumartist : Value;
  year : Value; date : Value; genre : Value;
  picture : option (list IPicture);
  composer : Value; conductor : Value; lyricist : Value; writer : Value;
  publisher : Value; label : Value; copyright : Value; encodedby : Value;
  comment : option (list Value);
  lyrics : option (list Value);
  isrc : Value; barcode : Value; catalognumber : Value;
  musicbrainz_artistid : Value; musicbrainz_albumid : Value;
  musicbrainz_trackid : Value; musicbrainz_releasegroupid : Value
}.

Record INativeTags := { ID3v2 : Value; ID3v1 : Value }.

Record IAudioMetadata := {
  common : ICommonTags;
  format_ : IFormat;
  native : INativeTags
}.
End music_metadata.

(** A document loaded by [pdf-lib]; each getter may throw on a damaged
    info dictionary. *)
Module pdf_lib.
Record PDFDocument := {
  getPageCount : Outcome Z;
  getTitle : Outcome (option jsstring);
  getAuthor : Outcome (option jsstring);
  getSubject : Outcome (option jsstring);
  getCreator : Outcome (option jsstring);
  getProducer : Outcome (option jsstring);
  getCreationDate : Outcome (option Z);
  getModificationDate : Outcome (option Z);
  getKeywords : Outcome (option jsstring)
}.
End pdf_lib.

(** The event an [Image] fires once its [src] is set. *)
Inductive ImageEvent :=
| onload (width height : Z)
| onerror.

(** The event a [video] element fires once its [src] is set. *)
Inductive VideoEvent :=
| onloadedmetadata (duration : Value) (videoWidth videoHeight : Z)
| onerror_video.

(** Everything outside the module: the host's string tables, its crypto,
    DOM and URL services, double arithmetic, and the four parsing libraries.
    A call either returns or throws.  [createObjectURL] mints a fresh handle
    per call, so it is indexed by the number of calls made before it; the
    media elements fire one of their two events. *)
Record Platform := {
  toLowerCase : jsstring -> jsstring;
  crypto_subtle_digest_MD5 : list byte -> Outcome (list byte);
  fileTypeFromBuffer : list byte -> Outcome (option FileTypeResult);
  URL_createObjectURL : nat -> Outcome jsstring;
  new_Image : Outcome unit;
  image_event : File -> ImageEvent;
  document_createElement_video : Outcome unit;
  video_event : File -> VideoEvent;
  parseExif : list byte -> Outcome (option exifr.Tags);
  parseBuffer : list byte -> jsstring -> Z -> Outcome music_metadata.IAudioMetadata;
  PDFDocument_load : list byte -> Outcome pdf_lib.PDFDocument;
  (** [Number(((width * height) / 1_000_000).toFixed(1))] in doubles *)
  fp_megapixels : Z -> Z -> Value;
  (** [formatExposureTime] on a number that is not an integer: the division,
      [Math.round] and number-to-string conversion of doubles *)
  fp_formatExposureTime : Value -> jsstring;
  (** ToInt32 of a value that is not an integral number: the engine's
      conversion to a number, then the wrap to 32 bits *)
  js_ToInt32 : Value -> Z;
  (** ToString of a value that is neither a string nor an integral number
      below [10^21] *)
  js_ToString : Value -> jsstring;
  (** [Object.prototype[key]]: what a property read on an object literal
      gives for a key that is not its own *)
  Object_prototype : jsstring -> Value
}.

(** [URL.createObjectURL(...)] *)
Definition createObjectURL (P : Platform) : M jsstring :=
  fun s =>
    (URL_createObjectURL P (minted s),
     {| errors_arr := errors_arr s; warnings_arr := warnings_arr s;
        console := console s; minted := S (minted s) |}).

(** ** Metadata records *)

(** A metadata record is a plain object: a finite map from field names to
    values.  [extend o fields] is the literal [{ ...o, k1: v1, ..., kn: vn }]:
    later fields override earlier ones. *)
Definition extend (o : gmap string Value) (fields : list (string * Value))
  : gmap string Value :=
  foldl (fun m kv => <[kv.1 := kv.2]> m) o fields.

(** Property read [o.key]. *)
Definition prop (o : gmap string Value) (key : string) : Value :=
  default VUndefined (o !! key).

(** [v === 'literal'] *)
Definition is_string (literal : string) (v : Value) : bool :=
  match v with
  | VStr s => jsstring_eqb s (js literal)
  | _ => false
  end.

(** An object literal. *)
Definition object (fields : list (string * Value)) : gmap string Value :=
  extend ∅ fields.

(** A nested object literal in which a field holding [undefined] reads the
    same as a missing one. *)
Definition is_undefined (v : Value) : bool :=
  match v with VUndefined => true | _ => false end.

Definition defined_fields (fields : list (string * Value)) : list (string * Value) :=
  filter (fun kv => negb (is_undefined kv.2) = true) fields.

Definition encoding_value (block : option EncodingBlock) : Value :=
  match block with
  | None => VUndefined
  | Some b => VObj (defined_fields
                      [("process"%string, opt_str (process b));
                       ("bitsPerSample"%string, opt_num (bitsPerSample b));
                       ("colorComponents"%string, opt_num (colorComponents b));
                       ("subSampling"%string, opt_str (subSampling b))])
  end.

Definition jfif_value (block : option JfifBlock) : Value :=
  match block with
  | None => VUndefined
  | Some b => VObj (defined_fields
                      [("version"%string, opt_str (version b));
                       ("resolutionUnit"%string, opt_str (resolutionUnit b));
                       ("xResolution"%string, opt_num (xResolution b));
                       ("yResolution"%string, opt_num (yResolution b))])
  end.

(** ** Checksum and raw header *)

(** ToInt32, and the operators [<<] and [&] on numbers. *)
Definition toInt32 (z : Z) : Z := (z + 2 ^ 31) mod 2 ^ 32 - 2 ^ 31.
Definition js_shl (a n : Z) : Z := toInt32 (Z.shiftl (toInt32 a) (n mod 32)).
Definition js_and (a b : Z) : Z := Z.land (toInt32 a) (toInt32 b).

Definition hex2 (upper : bool) (b : Z) : jsstring :=
  padStart 2 (char "0") (nat_toString 16 upper (Z.to_N b)).

Definition calculateChecksum (P : Platform) (buffer : list byte) : M jsstring :=
  try_catch
    (let* hashBuffer := call (crypto_subtle_digest_MD5 P buffer) in
     let hashArray := byte_value <$> hashBuffer in
     ret (join [] (hex2 false <$> hashArray)))
    (fun _ =>
       console_warn "MD5 not supported, using simple hash" ;;
       let uint8Array := byte_value <$> buffer in
       let hash := foldl (fun hash b => js_and (js_shl hash 5 - hash + b) 0xffffffff)
                         0 uint8Array in
       ret (padStart 8 (char "0") (int_toString 16 (Z.abs hash)))).

(** Two hexadecimal digits per byte, upper-cased, separated by spaces. *)
Definition extractRawHeader (buffer : list byte) (length : Z) : jsstring :=
  let uint8Array := byte_value <$> slice buffer 0 length in
  join (js " ") (hex2 true <$> uint8Array).

(** ** EXIF formatting helpers *)

Definition formatExposureTime (P : Platform) (exposureTime : Value) : jsstring :=
  match exposureTime with
  | VNum n => if 1 <=? n then int_toString 10 n ++ js "s"
              else fp_formatExposureTime P exposureTime
  | _ => fp_formatExposureTime P exposureTime
  end.

(** [v | 0]: ToInt32 of a value. *)
Definition ToInt32 (P : Platform) (v : Value) : Z :=
  match v with
  | VNum n => toInt32 n
  | _ => js_ToInt32 P v
  end.

(** ToString of a value, as a property key and in a template literal. *)
Definition ToString (P : Platform) (v : Value) : jsstring :=
  match v with
  | VStr s => s
  | VNum n => if Z.abs n <? 10 ^ 21 then int_toString 10 n else js_ToString P v
  | _ => js_ToString P v
  end.

Definition formatFlash (P : Platform) (flash : Value) : Value :=
  match flash with
  | VUndefined => VUndefined
  | _ =>
      let flashFired := Z.land (ToInt32 P flash) 0x01 in
      if negb (flashFired =? 0) then VStr (js "Flash fired")
      else VStr (js "Flash did not fire")
  end.

Definition formatWhiteBalance (wb : Value) : Value :=
  match wb with
  | VUndefined => VUndefined
  | _ => if is_number 0 wb then VStr (js "Auto") else VStr (js "Manual")
  end.

(** [table[key]] on a [Record<number, string>]: the keys of the literal
    are the decimal strings of its numbers, and a key that is not one of them
    is looked up on [Object.prototype]. *)
Definition lookup_table (P : Platform) (table : list (Z * string)) (key : Value)
  : Value :=
  let key := ToString P key in
  match find (fun kv => jsstring_eqb key (int_toString 10 kv.1)) table with
  | Some kv => VStr (js kv.2)
  | None => Object_prototype P key
  end.

Definition formatMeteringMode (P : Platform) (mode : Value) : Value :=
  let modes := [(1, "Average"); (2, "Center-weighted average"); (3, "Spot");
                (4, "Multi-spot"); (5, "Pattern"); (6, "Partial")]%string in
  if truthy mode then lookup_table P modes mode else VUndefined.

Definition formatExposureMode (P : Platform) (mode : Value) : Value :=
  let modes := [(0, "Auto exposure"); (1, "Manual exposure"); (2, "Auto bracket")]%string in
  match mode with
  | VUndefined => VUndefined
  | _ => lookup_table P modes mode
  end.

Definition formatSceneType (P : Platform) (scene : Value) : Value :=
  let scenes := [(0, "Standard"); (1, "Landscape"); (2, "Portrait");
                 (3, "Night scene")]%string in
  match scene with
  | VUndefined => VUndefined
  | _ => lookup_table P scenes scene
  end.

Definition formatColorSpace (P : Platform) (colorSpace : Value) : Value :=
  if is_number 1 colorSpace then VStr (js "sRGB")
  else if is_number 65535 colorSpace then VStr (js "Uncalibrated")
  else if truthy colorSpace then VStr (js "ColorSpace " ++ ToString P colorSpace)
  else VUndefined.

Definition formatResolutionUnit (P : Platform) (unit : Value) : Value :=
  let units := [(1, "None"); (2, "inches"); (3, "cm")]%string in
  if truthy unit then lookup_table P units unit else VUndefined.

Definition formatCompression (P : Platform) (compression : Value) : Value :=
  let compressions := [(1, "Uncompressed"); (6, "JPEG")]%string in
  if truthy compression then lookup_table P compressions compression else VUndefined.

(** ** Category extractors *)

Definition dimensions_value (width height : Z) : Value :=
  VObj [("width"%string, VNum width); ("height"%string, VNum height)].

Definition processExif (P : Platform) (exifData : exifr.Tags) (width height : Z) : Value :=
  VObj
    [("make", exifr.Make exifData);
     ("model", exifr.Model exifData);
     ("software", exifr.Software exifData);
     ("iso", exifr.ISO exifData);
     ("fNumber", exifr.FNumber exifData);
     ("exposureTime",
       if truthy (exifr.ExposureTime exifData)
       then VStr (formatExposureTime P (exifr.ExposureTime exifData))
       else VUndefined);
     ("focalLength", exifr.FocalLength exifData);
     ("focalLengthIn35mm", exifr.FocalLengthIn35mmFormat exifData);
     ("flash", formatFlash P (exifr.Flash exifData));
     ("whiteBalance", formatWhiteBalance (exifr.WhiteBalance exifData));
     ("meteringMode", formatMeteringMode P (exifr.MeteringMode exifData));
     ("exposureMode", formatExposureMode P (exifr.ExposureMode exifData));
     ("sceneType", formatSceneType P (exifr.SceneCaptureType exifData));
     ("dateTime", exifr.DateTime exifData);
     ("dateTimeOriginal", exifr.DateTimeOriginal exifData);
     ("dateTimeDigitized", exifr.DateTimeDigitized exifData);
     ("gps",
       if truthy (exifr.GPSLatitude exifData) && truthy (exifr.GPSLongitude exifData)
       then VObj [("latitude", exifr.GPSLatitude exifData);
                  ("longitude", exifr.GPSLongitude exifData);
                  ("altitude", exifr.GPSAltitude exifData)]
       else VUndefined);
     ("orientation", exifr.Orientation exifData);
     ("colorSpace", formatColorSpace P (exifr.ColorSpace exifData));
     ("pixelXDimension", or_else (exifr.ImageWidth exifData) (VNum width));
     ("pixelYDimension", or_else (exifr.ImageHeight exifData) (VNum height));
     ("xResolution", exifr.XResolution exifData);
     ("yResolution", exifr.YResolution exifData);
     ("resolutionUnit", formatResolutionUnit P (exifr.ResolutionUnit exifData));
     ("lensModel", exifr.LensModel exifData);
     ("lensMake", exifr.LensMake exifData);
     ("lensSerialNumber", exifr.LensSerialNumber exifData)]%string.

(** The condition under which the marker segments are walked. *)
Definition jpeg_declared (file : File) (base : gmap string Value) : bool :=
  jsstring_eqb (file_type file) (js "image/jpeg")
  || is_string "jpg" (prop base "extension")
  || is_string "jpeg" (prop base "extension").

Definition extractEnhancedImageMetadata_try (P : Platform) (file : File)
    (buffer : list byte) (base : gmap string Value) : M (gmap string Value) :=
  let* img := call (new_Image P) in
  let* dimensions :=
    (let* src := createObjectURL P in
     ret (match image_event P file with
          | onload width height => (width, height)
          | onerror => (0, 0)
          end)) in
  let '(width, height) := dimensions in
  let megapixels :=
    if negb (width =? 0) && negb (height =? 0) then fp_megapixels P width height
    else VUndefined in
  let* exifData := call (parseExif P buffer) in
  let* jpegInfo :=
    (if jpeg_declared file base then analyzeJPEGStructure buffer
     else ret {| encoding := None; jfif := None |}) in
  let processedExif :=
    match exifData with
    | Some exifData => processExif P exifData width height
    | None => VUndefined
    end in
  ret (extend base
         [("dimensions", dimensions_value width height);
          ("megapixels", megapixels);
          ("exif", processedExif);
          ("colorSpace", formatColorSpace P (from_option exifr.ColorSpace VUndefined exifData));
          ("bitsPerSample", from_option exifr.BitsPerSample VUndefined exifData);
          ("compression",
            formatCompression P (from_option exifr.Compression VUndefined exifData));
          ("encoding", encoding_value (encoding jpegInfo));
          ("jfif", jfif_value (jfif jpegInfo))]%string).

Definition extractEnhancedImageMetadata (P : Platform) (file : File)
    (buffer : list byte) (base : gmap string Value) : M (gmap string Value) :=
  try_catch (extractEnhancedImageMetadata_try P file buffer base)
    (fun error =>
       console_warn "Failed to extract enhanced image metadata:" ;;
       ret base).

(** [xs?.map(f)] where [f] may throw. *)
Fixpoint mapM {A B} (f : A -> M B) (l : list A) : M (list B) :=
  match l with
  | [] => ret []
  | x :: xs => let* y := f x in let* ys := mapM f xs in ret (y :: ys)
  end.

Definition opt_map (f : Value -> M Value) (xs : option (list Value)) : M Value :=
  match xs with
  | None => ret VUndefined
  | Some xs => let* ys := mapM f xs in ret (VArr ys)
  end.

(** [typeof c === 'string' ? c : c.text || ''] *)
Definition text_of (c : Value) : M Value :=
  match c with
  | VStr s => ret (VStr s)
  | VUndefined | VNull => throw TypeError
  | VObj fields => ret (or_else (field "text" fields) (VStr []))
  | _ => ret (VStr [])
  end.

(** [n?.no ? { no: n.no, of: n.of || undefined } : undefined] *)
Definition number_of (n : option music_metadata.INumberOf) : Value :=
  match n with
  | Some n =>
      if truthy (music_metadata.no n)
      then VObj [("no"%string, music_metadata.no n);
                 ("of"%string, or_else (music_metadata.of_ n) VUndefined)]
      else VUndefined
  | None => VUndefined
  end.

Definition picture_info (pic : music_metadata.IPicture) : Value :=
  VObj [("mimeType", VStr (music_metadata.format pic));
        ("type", or_else (music_metadata.type pic) (VStr (js "Cover")));
        ("description", or_else (music_metadata.description pic) (VStr (js "Cover")));
        ("size", VNum (byteLength (music_metadata.data pic)))]%string.

Definition picture_value (pic : music_metadata.IPicture) : Value :=
  VObj [("format", VStr (music_metadata.format pic));
        ("data", VBytes (music_metadata.data_buffer pic));
        ("description", music_metadata.description pic);
        ("type", music_metadata.type pic)]%string.

(** [codec?.includes('Layer III')] *)
Definition is_layer3 (codec : option jsstring) : bool :=
  match codec with
  | Some codec => str_includes (js "Layer III") codec
  | None => false
  end.

Record AudioResult := {
  audio_metadata : gmap string Value;
  albumArt : option jsstring
}.

Definition extractEnhancedAudioMetadata_try (P : Platform) (file : File)
    (buffer : list byte) (base : gmap string Value) : M AudioResult :=
  let* metadata := call (parseBuffer P buffer (file_type file) (file_size file)) in
  let common := music_metadata.common metadata in
  let format := music_metadata.format_ metadata in
  let native := music_metadata.native metadata in
  let* art :=
    match music_metadata.picture common with
    | Some (picture :: pictures) =>
        let* albumArt := createObjectURL P in
        ret (Some albumArt, picture_info <$> (picture :: pictures))
    | _ => ret (None, [])
    end in
  let '(albumArt, pictureInfo) := art in
  let mpegInfo :=
    if bool_decide (music_metadata.container format = Some (js "MPEG"))
       || jsstring_eqb (file_type file) (js "audio/mpeg")
    then [("version", VStr (if is_layer3 (music_metadata.codec format)
                            then js "MPEG-1" else js "MPEG"));
          ("layer", VStr (if is_layer3 (music_metadata.codec format)
                          then js "3" else js "Unknown"));
          ("channelMode", VStr (if is_number 2 (music_metadata.numberOfChannels format)
                                then js "Stereo" else js "Mono"));
          ("emphasis", VStr (js "None"));
          ("copyrightFlag", VBool false);
          ("originalMedia", VBool true)]%string
    else [] in
  let id3Info :=
    if truthy (music_metadata.ID3v2 native) || truthy (music_metadata.ID3v1 native)
    then
      let id3v2 := opt_index0 (music_metadata.ID3v2 native) in
      if truthy id3v2
      then [("version", VStr (js "2.3")); ("size", VNum 0); ("flags", VArr [])]%string
      else []
    else [] in
  let* comment := opt_map text_of (music_metadata.comment common) in
  let* lyrics := opt_map text_of (music_metadata.lyrics common) in
  let audioMetadata :=
    extend base
      [("duration", music_metadata.duration format);
       ("bitrate", music_metadata.bitrate format);
       ("sampleRate", music_metadata.sampleRate format);
       ("channels", music_metadata.numberOfChannels format);
       ("codecProfile", music_metadata.codecProfile format);
       ("title", music_metadata.title common);
       ("artist", music_metadata.artist common);
       ("album", music_metadata.album common);
       ("albumArtist", music_metadata.albumartist common);
       ("year", music_metadata.year common);
       ("date", music_metadata.date common);
       ("genre", music_metadata.genre common);
       ("track", number_of (music_metadata.track common));
       ("disk", number_of (music_metadata.disk common));
       ("composer", opt_index0 (music_metadata.composer common));
       ("conductor", opt_index0 (music_metadata.conductor common));
       ("lyricist", opt_index0 (music_metadata.lyricist common));
       ("writer", opt_index0 (music_metadata.writer common));
       ("publisher", opt_index0 (music_metadata.publisher common));
       ("label", opt_index0 (music_metadata.label common));
       ("copyright", opt_index0 (music_metadata.copyright common));
       ("encodedBy", music_metadata.encodedby common);
       ("comment", comment);
       ("lyrics", lyrics);
       ("format",
         VObj [("container", opt_str (music_metadata.container format));
               ("codec", opt_str (music_metadata.codec format));
               ("lossless", music_metadata.lossless format);
               ("numberOfChannels", music_metadata.numberOfChannels format);
               ("bitsPerSample", music_metadata.bitsPerSample format);
               ("sampleRate", music_metadata.sampleRate format);
               ("duration", music_metadata.duration format);
               ("bitrate", music_metadata.bitrate format)]);
       ("picture",
         match music_metadata.picture common with
         | Some pictures => VArr (picture_value <$> pictures)
         | None => VUndefined
         end);
       ("mpegInfo", VObj mpegInfo);
       ("id3Info", VObj id3Info);
       ("pictureInfo", VArr pictureInfo);
       ("isrc", opt_index0 (music_metadata.isrc common));
       ("barcode", opt_index0 (music_metadata.barcode common));
       ("catalognumber", opt_index0 (music_metadata.catalognumber common));
       ("musicbrainz",
         VObj [("artistId", opt_index0 (music_metadata.musicbrainz_artistid common));
               ("albumId", opt_index0 (music_metadata.musicbrainz_albumid common));
               ("trackId", opt_index0 (music_metadata.musicbrainz_trackid common));
               ("releaseGroupId",
                 opt_index0 (music_metadata.musicbrainz_releasegroupid common))])]%string in
  ret {| audio_metadata := audioMetadata; albumArt := albumArt |}.

Definition extractEnhancedAudioMetadata (P : Platform) (file : File)
    (buffer : list byte) (base : gmap string Value) : M AudioResult :=
  try_catch (extractEnhancedAudioMetadata_try P file buffer base)
    (fun error =>
       console_warn "Failed to extract enhanced audio metadata:" ;;
       ret {| audio_metadata := base; albumArt := None |}).

Definition extractEnhancedVideoMetadata_try (P : Platform) (file : File)
    (base : gmap string Value) : M (gmap string Value) :=
  let* video := call (document_createElement_video P) in
  let* videoData :=
    (let* src := createObjectURL P in
     ret (match video_event P file with
          | onloadedmetadata duration videoWidth videoHeight =>
              extend base
                [("duration", duration);
                 ("dimensions", dimensions_value videoWidth videoHeight)]%string
          | onerror_video => base
          end)) in
  (* URL.revokeObjectURL(video.src) *)
  ret videoData.

Definition extractEnhancedVideoMetadata (P : Platform) (file : File)
    (base : gmap string Value) : M (gmap string Value) :=
  try_catch (extractEnhancedVideoMetadata_try P file base)
    (fun error =>
       console_warn "Failed to extract enhanced video metadata:" ;;
       ret base).

(** The white space and line terminators of the language: what [\s] matches
    and what [trim] removes. *)
Definition is_whitespace (c : N) : bool :=
  ((9 <=? c) && (c <=? 13) || (c =? 32) || (c =? 160) || (c =? 5760)
   || (8192 <=? c) && (c <=? 8202) || (c =? 8232) || (c =? 8233) || (c =? 8239)
   || (c =? 8287) || (c =? 12288) || (c =? 65279))%N.

Fixpoint trimStart (s : jsstring) : jsstring :=
  match s with
  | c :: s' => if is_whitespace c then trimStart s' else s
  | [] => []
  end.

(** [String.prototype.trim] *)
Definition trim (s : jsstring) : jsstring :=
  rev (trimStart (rev (trimStart s))).

(** [value || undefined] on what a [pdf-lib] getter returned. *)
Definition str_or_undefined (o : option jsstring) : Value :=
  match o with
  | Some (c :: s) => VStr (c :: s)
  | _ => VUndefined
  end.

Definition date_or_undefined (o : option Z) : Value :=
  match o with
  | Some ms => VDate ms
  | None => VUndefined
  end.

Definition extractAdvancedDocumentMetadata_try (P : Platform) (file : File)
    (buffer : list byte) (base : gmap string Value) : M (gmap string Value) :=
  if jsstring_eqb (file_type file) (js "application/pdf")
     || is_string "pdf" (prop base "extension")
  then
    let* pdfDoc := call (PDFDocument_load P buffer) in
    let* pageCount := call (pdf_lib.getPageCount pdfDoc) in
    let* title := call (pdf_lib.getTitle pdfDoc) in
    let* author := call (pdf_lib.getAuthor pdfDoc) in
    let* subject := call (pdf_lib.getSubject pdfDoc) in
    let* creator := call (pdf_lib.getCreator pdfDoc) in
    let* producer := call (pdf_lib.getProducer pdfDoc) in
    let* creationDate := call (pdf_lib.getCreationDate pdfDoc) in
    let* modificationDate := call (pdf_lib.getModificationDate pdfDoc) in
    let* keywords := call (pdf_lib.getKeywords pdfDoc) in
    ret (extend base
           [("pageCount", VNum pageCount);
            ("title", str_or_undefined title);
            ("author", str_or_undefined author);
            ("subject", str_or_undefined subject);
            ("creator", str_or_undefined creator);
            ("producer", str_or_undefined producer);
            ("creationDate", date_or_undefined creationDate);
            ("modificationDate", date_or_undefined modificationDate);
            ("keywords",
              match keywords with
              | Some (c :: s) =>
                  VArr ((fun k => VStr (trim k)) <$> split (char ",") (c :: s))
              | _ => VUndefined
              end);
            ("pdfVersion", VStr (js "1.4"));
            ("isEncrypted", VBool false)]%string)
  else ret base.

Definition extractAdvancedDocumentMetadata (P : Platform) (file : File)
    (buffer : list byte) (base : gmap string Value) : M (gmap string Value) :=
  try_catch (extractAdvancedDocumentMetadata_try P file buffer base)
    (fun error =>
       console_warn "Failed to extract advanced document metadata:" ;;
       ret base).

(** [text.split(/\s+/)]: the pieces between maximal runs of white space,
    with an empty piece before a leading run and after a trailing one. *)
Fixpoint split_whitespace (in_run : bool) (s : jsstring) : list jsstring :=
  match s with
  | [] => [[]]
  | c :: s' =>
      if is_whitespace c then
        if in_run then split_whitespace true s'
        else [] :: split_whitespace true s'
      else match split_whitespace false s' with
           | [] => [[c]]
           | piece :: pieces => (c :: piece) :: pieces
           end
  end.

(** [array.every((x, i) => f(x, i))] *)
Definition every {A} (f : A -> nat -> bool) (l : list A) : bool :=
  forallb (fun ix => f ix.2 ix.1) (imap pair l).

(** The statistics the text extractor computes. *)
Record TextStats := {
  lineEndings : jsstring;
  bom : bool;
  wordCount : Z;
  lineCount : Z;
  characterCount : Z
}.

Definition CR : N := 13.
Definition LF : N := 10.

Definition textStats (buffer : list byte) : TextStats :=
  let text := TextDecoder_decode buffer in
  let lines := split LF text in
  let words := filter (fun word => (0 < length word)%nat) (split_whitespace false text) in
  let hasBom :=
    (3 <=? byteLength buffer)
    && every (fun byte i => bool_decide ([0xEF; 0xBB; 0xBF] !! i = Some byte))
             (byte_value <$> take 3 buffer) in
  let lineEndings :=
    if str_includes [CR; LF] text then js "CRLF (Windows)"
    else if str_includes [LF] text then js "LF (Unix)"
    else if str_includes [CR] text then js "CR (Mac)"
    else js "unknown" in
  {| lineEndings := lineEndings;
     bom := hasBom;
     wordCount := Z.of_nat (length words);
     lineCount := Z.of_nat (length lines);
     characterCount := Z.of_nat (length text) |}.

Definition extractTextMetadata_try (file : File) (buffer : list byte)
    (base : gmap string Value) : M (gmap string Value) :=
  let stats := textStats buffer in
  ret (extend base
         [("charset", VStr (js "UTF-8"));
          ("lineEndings", VStr (lineEndings stats));
          ("bom", VBool (bom stats));
          ("wordCount", VNum (wordCount stats));
          ("lineCount", VNum (lineCount stats));
          ("characterCount", VNum (characterCount stats))]%string).

Definition extractTextMetadata (file : File) (buffer : list byte)
    (base : gmap string Value) : M (gmap string Value) :=
  try_catch (extractTextMetadata_try file buffer base)
    (fun error =>
       console_warn "Failed to extract text metadata:" ;;
       ret base).

(** ** The result assembler: [analyzeFileEnhanced] *)

Record FileAnalysisResult := {
  metadata : gmap string Value;
  preview : option jsstring;
  thumbnail : option jsstring;
  category : Category;
  errors : option (list jsstring);
  warnings : option (list jsstring)
}.

(** [a || b] where [a] is an optional string. *)
Definition or_string (a : option jsstring) (b : jsstring) : jsstring :=
  match a with
  | Some (c :: s) => c :: s
  | _ => b
  end.

(** The object literal [baseMetadata]. *)
Definition baseMetadata (P : Platform) (file : File)
    (detectedType : option FileTypeResult) (checksum rawHeader : jsstring)
  : gmap string Value :=
  object
    [("name", VStr (file_name file));
     ("size", VNum (file_size file));
     ("type", VStr (file_type file));
     ("lastModified", VDate (file_lastModified file));
     ("extension", VStr (extensionOf (toLowerCase P) (file_name file)));
     ("mimeType", VStr (file_type file));
     ("detectedMimeType", opt_str (mime <$> detectedType));
     ("realFileType", opt_str (ext <$> detectedType));
     ("checksum", VStr checksum);
     ("rawHeader", VStr rawHeader)]%string.

(** [detectedType.mime !== file.type && file.type !== ''] *)
Definition type_mismatch (detected : FileTypeResult) (file : File) : bool :=
  negb (jsstring_eqb (mime detected) (file_type file))
  && negb (jsstring_eqb (file_type file) []).

Definition mismatch_warning (detected : jsstring) (file : File) : jsstring :=
  js "File type mismatch: detected " ++ detected ++
  js ", but file extension suggests " ++ file_type file.

(** [array.length > 0 ? array : undefined] *)
Definition non_empty (array : list jsstring) : option (list jsstring) :=
  if (0 <? length array)%nat then Some array else None.

(** The [switch (category)]: the metadata, preview handle and thumbnail
    handle it leaves in the three local variables. *)
Definition extractByCategory (P : Platform) (file : File) (buffer : list byte)
    (baseMetadata : gmap string Value) (category : Category)
  : M (gmap string Value * option jsstring * option jsstring) :=
  match category with
  | image =>
      let* metadata := extractEnhancedImageMetadata P file buffer baseMetadata in
      let* preview := createObjectURL P in
      ret (metadata, Some preview, None)
  | audio =>
      let* audioResult := extractEnhancedAudioMetadata P file buffer baseMetadata in
      let thumbnail :=
        match albumArt audioResult with
        | Some (c :: url) => Some (c :: url)
        | _ => None
        end in
      let* preview := createObjectURL P in
      ret (audio_metadata audioResult, Some preview, thumbnail)
  | video =>
      let* metadata := extractEnhancedVideoMetadata P file baseMetadata in
      let* preview := createObjectURL P in
      ret (metadata, Some preview, None)
  | document =>
      let* metadata := extractAdvancedDocumentMetadata P file buffer baseMetadata in
      ret (metadata, None, None)
  | text =>
      let* metadata := extractTextMetadata file buffer baseMetadata in
      ret (metadata, None, None)
  | _ => ret (baseMetadata, None, None)
  end.

(** The warning pushed after extraction. *)
Definition validateDetectedType (detectedType : option FileTypeResult) (file : File)
  : M unit :=
  match detectedType with
  | Some detected =>
      if type_mismatch detected file
      then warnings_push (mismatch_warning (mime detected) file)
      else ret tt
  | None => ret tt
  end.

(** The body of the outer [try]. *)
Definition analyzeFileEnhanced_try (P : Platform) (file : File) : M FileAnalysisResult :=
  let* buffer := call (file_arrayBuffer file) in
  let* checksum := calculateChecksum P buffer in
  let rawHeader := extractRawHeader buffer 64 in
  let* detectedType := call (fileTypeFromBuffer P buffer) in
  let category :=
    determineFileCategory (toLowerCase P)
      (or_string (mime <$> detectedType) (file_type file)) (file_name file) in
  let baseMetadata := baseMetadata P file detectedType checksum rawHeader in
  let* extracted := extractByCategory P file buffer baseMetadata category in
  let '(metadata, preview, thumbnail) := extracted in
  validateDetectedType detectedType file ;;
  let* errors := get_errors in
  let* warnings := get_warnings in
  ret {| metadata := metadata;
         preview := preview;
         thumbnail := thumbnail;
         category := category;
         errors := non_empty errors;
         warnings := non_empty warnings |}.

(** [error instanceof Error ? error.message : 'Unknown error'] *)
Definition failure_message (error : Thrown) : jsstring :=
  js "Failed to analyze file: " ++
  match error with
  | ErrorObject message => message
  | NotAnError => js "Unknown error"
  end.

(** The metadata literal of the outer [catch]. *)
Definition fallbackMetadata (P : Platform) (file : File) : gmap string Value :=
  object
    [("name", VStr (file_name file));
     ("size", VNum (file_size file));
     ("type", VStr (file_type file));
     ("lastModified", VDate (file_lastModified file));
     ("extension", VStr (extensionOf (toLowerCase P) (file_name file)));
     ("mimeType", VStr (file_type file))]%string.

Definition analyzeFileEnhanced (P : Platform) (file : File) : M FileAnalysisResult :=
  declare_arrays ;;
  try_catch (analyzeFileEnhanced_try P file)
    (fun error =>
       errors_push (failure_message error) ;;
       let* errors := get_errors in
       ret {| metadata := fallbackMetadata P file;
              preview := None;
              thumbnail := None;
              category := other;
              errors := Some errors;
              warnings := None |}).

(** ** A concrete platform

    A small host on which the pipeline can be run: ASCII case mapping, a
    sniffer that knows the JPEG and ID3 signatures, no MD5 and no working
    parsers.  [sample_platform urls] mints object URLs when [urls] is set and
    throws from [URL.createObjectURL] otherwise. *)

Definition ascii_toLowerCase (s : jsstring) : jsstring :=
  (fun c => if (65 <=? c) && (c <=? 90) then c + 32 else c)%N <$> s.

Definition sample_sniffer (buffer : list byte) : option FileTypeResult :=
  match buffer with
  | xff :: xd8 :: xff :: _ => Some {| mime := js "image/jpeg"; ext := js "jpg" |}
  | x49 :: x44 :: x33 :: _ => Some {| mime := js "audio/mpeg"; ext := js "mp3" |}
  | _ => None
  end.

Definition sample_platform (urls : bool) : Platform :=
  {| toLowerCase := ascii_toLowerCase;
     crypto_subtle_digest_MD5 := fun _ => Throw (ErrorObject (js "NotSupportedError"));
     fileTypeFromBuffer := fun buffer => Ok (sample_sniffer buffer);
     URL_createObjectURL := fun n =>
       if urls then Ok (js "blob:" ++ nat_toString 10 false (N.of_nat n))
       else Throw (ErrorObject (js "URL.createObjectURL is not a function"));
     new_Image := Ok tt;
     image_event := fun _ => onerror;
     document_createElement_video := Ok tt;
     video_event := fun _ => onerror_video;
     parseExif := fun _ => Ok None;
     parseBuffer := fun _ _ _ => Throw (ErrorObject (js "Failed to determine audio format"));
     PDFDocument_load := fun _ => Throw (ErrorObject (js "No PDF header found"));
     fp_megapixels := fun _ _ => VUndefined;
     fp_formatExposureTime := fun _ => [];
     js_ToInt32 := fun _ => 0;
     js_ToString := fun _ => [];
     Object_prototype := fun _ => VUndefined |}.

Definition sample_file (name type : string) (content : list byte) : File :=
  {| file_name := js name;
     file_size := byteLength content;
     file_type := js type;
     file_lastModified := 0;
     file_arrayBuffer := Ok content |}.

Definition fresh_store : Store :=
  {| errors_arr := []; warnings_arr := []; console := []; minted := 0 |}.

(** A JPEG start-of-image marker followed by the APP0/JFIF segment of the
    specification's example: version 1.01, units 1, 72 by 72. *)
Definition jfif_header (length_hi length_lo : byte) : list byte :=
  [xff; xd8; xff; xe0; length_hi; length_lo;
   x4a; x46; x49; x46; x00; x01; x01; x01; x00; x48; x00; x48].

Definition bytes_of (s : string) : list byte :=
  byte_of_ascii <$> list_ascii_of_string s.

(** ** Specification-side notions *)

(** The classifier as the specification words it: a table of MIME prefixes,
    then a table of extensions, then [other].  The extension table lists the
    document, archive, image, video, audio and text extensions in that order
    and the first entry for an extension decides. *)
Definition mime_prefix_table : list (jsstring * Category) :=
  [(js "image/", image); (js "video/", video); (js "audio/", audio); (js "text/", text)].

Definition extension_table : list (jsstring * Category) :=
  ((fun e => (js e, document)) <$> ["pdf"; "doc"; "docx"; "txt"; "rtf"; "odt"; "pages"]%string)
  ++ ((fun e => (js e, archive)) <$> ["zip"; "rar"; "7z"; "tar"; "gz"; "bz2"; "xz"]%string)
  ++ ((fun e => (js e, image)) <$>
        ["jpg"; "jpeg"; "png"; "gif"; "bmp"; "webp"; "svg"; "tiff"; "ico"]%string)
  ++ ((fun e => (js e, video)) <$>
        ["mp4"; "avi"; "mov"; "wmv"; "flv"; "webm"; "mkv"; "m4v"]%string)
  ++ ((fun e => (js e, audio)) <$> ["mp3"; "wav"; "flac"; "aac"; "ogg"; "m4a"; "wma"]%string)
  ++ ((fun e => (js e, text)) <$>
        ["txt"; "md"; "json"; "xml"; "html"; "css"; "js"; "ts"; "py"; "java"; "cpp"; "c";
         "h"]%string).

(** The MIME type that is classified: the sniffed one, the declared one when
    sniffing found nothing (no result, or a result with an empty type). *)
Definition effective_mime (sniffed : option jsstring) (declared : jsstring) : jsstring :=
  match sniffed with
  | Some [] | None => declared
  | Some m => m
  end.

Definition mime_category (mimeType : jsstring) : option Category :=
  snd <$> find (fun entry => startsWith entry.1 mimeType) mime_prefix_table.

Definition extension_category (extension : jsstring) : option Category :=
  snd <$> find (fun entry => jsstring_eqb extension entry.1) extension_table.

Definition classify (toLowerCase : jsstring -> jsstring)
    (sniffed : option jsstring) (declared filename : jsstring) : Category :=
  match mime_category (effective_mime sniffed declared) with
  | Some c => c
  | None =>
      match extension_category (extensionOf toLowerCase filename) with
      | Some c => c
      | None => other
      end
  end.

(** [needle] occurs in [s] as a substring. *)
Definition occurs_in (needle s : jsstring) : Prop :=
  exists before after, s = before ++ needle ++ after.

(** The bytes of an APP0 marker at [p] whose identifier, five bytes after
    the two-byte length, reads as [JFIF] and a zero. *)
Definition jfif_header_at (buffer : list byte) (p : Z) : bool :=
  bool_decide (byte_value <$> buffer !! Z.to_nat p = Some 0xFF)
  && bool_decide (byte_value <$> buffer !! Z.to_nat (p + 1) = Some 0xE0)
  && jsstring_eqb (TextDecoder_decode (slice buffer (p + 4) (p + 9))) JFIF_identifier.

(** The JFIF block of the specification's example. *)
Definition example_jfif : JfifBlock :=
  {| version := Some (js "1.01");
     resolutionUnit := Some (js "inches");
     xResolution := Some 72;
     yResolution := Some 72 |}.

(** The fields of [baseMetadata]. *)
Definition BaseMetadata_fields : list string :=
  ["name"; "size"; "type"; "lastModified"; "extension"; "mimeType";
   "detectedMimeType"; "realFileType"; "checksum"; "rawHeader"]%string.

(** A record that has no field beyond those of [baseMetadata]. *)
Definition is_BaseMetadata (o : gmap string Value) : Prop :=
  forall key, is_Some (o !! key) -> key ∈ BaseMetadata_fields.

(** The result the outer [catch] returns for a thrown [error]. *)
Definition fallback_result (P : Platform) (file : File) (error : Thrown)
  : FileAnalysisResult :=
  {| metadata := fallbackMetadata P file;
     preview := None;
     thumbnail := None;
     category := other;
     errors := Some [failure_message error];
     warnings := None |}.

(** The store right after [const errors = []; const warnings = []]. *)
Definition declared (s : Store) : Store :=
  {| errors_arr := []; warnings_arr := []; console := console s; minted := minted s |}.

(** What every extractor guarantees about the store: the [errors] and
    [warnings] arrays of the caller are not touched. *)
Definition arrays_kept (s s' : Store) : Prop :=
  errors_arr s' = errors_arr s /\ warnings_arr s' = warnings_arr s.

(** [c] leaves the arrays alone, and its value satisfies [Q] when it
    returns. *)
Definition framed {A} (c : M A) (Q : A -> Prop) : Prop :=
  forall s o s', c s = (o, s') -> arrays_kept s s' /\ forall a, o = Ok a -> Q a.

(** [c] always returns, leaves the arrays alone, and its value satisfies
    [Q]. *)
Definition safe {A} (c : M A) (Q : A -> Prop) : Prop :=
  forall s, exists a s', c s = (Ok a, s') /\ arrays_kept s s' /\ Q a.

(** The fields an object literal [{ ...o, k1: v1, ... }] adds are none of
    [baseMetadata]'s. *)
Definition extends_only (fields : list (string * Value)) : bool :=
  forallb (fun kv => negb (bool_decide (kv.1 ∈ BaseMetadata_fields))) fields.

(** The warnings an analysis that completes has recorded. *)
Definition mismatch_warnings (detectedType : option FileTypeResult) (file : File)
  : list jsstring :=
  match detectedType with
  | Some detected =>
      if type_mismatch detected file then [mismatch_warning (mime detected) file] else []
  | None => []
  end.

(** The analysis went through the [try] block to its [return]: the buffer
    was read and sniffed, the result [r] carries a record that extends the
    base record built from them, and [s'] is the store at that point. *)
Definition completes (P : Platform) (file : File) (s : Store)
    (r : FileAnalysisResult) (s' : Store) : Prop :=
  exists buffer checksum s1 detectedType,
    file_arrayBuffer file = Ok buffer
    /\ calculateChecksum P buffer (declared s) = (Ok checksum, s1)
    /\ fileTypeFromBuffer P buffer = Ok detectedType
    /\ baseMetadata P file detectedType checksum (extractRawHeader buffer 64) ⊆ metadata r
    /\ category r = determineFileCategory (toLowerCase P)
                      (or_string (mime <$> detectedType) (file_type file)) (file_name file)
    /\ errors r = None
    /\ warnings r = non_empty (mismatch_warnings detectedType file)
    /\ errors_arr s' = []
    /\ warnings_arr s' = mismatch_warnings detectedType file.

(** The analysis left the [try] block through an exception: the result is
    the one the outer [catch] builds. *)
Definition falls_back (P : Platform) (file : File) (s : Store)
    (r : FileAnalysisResult) (s' : Store) : Prop :=
  exists error s1,
    analyzeFileEnhanced_try P file (declared s) = (Throw error, s1)
    /\ r = fallback_result P file error
    /\ errors_arr s' = [failure_message error]
    /\ warnings_arr s' = [].

(** Sample files: a tagged MP3 whose container the sample platform cannot
    parse, and the JFIF example under a [.txt] name and under a name and
    declared type that say nothing. *)
Definition sample_mp3 : File :=
  sample_file "song.mp3" "audio/mpeg" [x49; x44; x33; x03; x00].

Definition sample_jpeg_as_text : File :=
  sample_file "holiday.txt" "text/plain" (jfif_header x00 x10 ++ [x00; x00]).

Definition sample_jpeg_undeclared : File :=
  sample_file "holiday" "" (jfif_header x00 x10 ++ [x00; x00]).

(** The six fields of the record the outer [catch] builds. *)
Definition fallback_fields : list string :=
  ["name"; "size"; "type"; "lastModified"; "extension"; "mimeType"]%string.

(** The JFIF example followed by a second APP0/JFIF segment that declares
    version 1.02, no unit and a density of 1 by 1. *)
Definition two_jfif_headers : list byte :=
  jfif_header x00 x10 ++ [x00; x00]
  ++ [xff; xe0; x00; x10; x4a; x46; x49; x46; x00; x01; x02; x00; x00; x01; x00; x01;
      x00; x00].

(** The two text examples of the specification. *)
Definition text_example_lf : list byte := bytes_of "a b" ++ [x0a] ++ bytes_of "c".

Definition text_example_bom : list byte :=
  [xef; xbb; xbf] ++ bytes_of "hi" ++ [x0d; x0a] ++ bytes_of "there".

(** A populated JFIF block, as read at an APP0/JFIF header that starts at
    [offset]: the version, unit and density bytes that follow the
    identifier. *)
Definition jfif_read_at (buffer : list byte) (offset : Z) (block : JfifBlock) : Prop :=
  exists majorVersion minorVersion units xDensity yDensity,
    2 <= offset
    /\ jfif_header_at buffer offset = true
    /\ getUint8 buffer (offset + 9) = Ok majorVersion
    /\ getUint8 buffer (offset + 10) = Ok minorVersion
    /\ getUint8 buffer (offset + 11) = Ok units
    /\ getUint16 buffer (offset + 12) = Ok xDensity
    /\ getUint16 buffer (offset + 14) = Ok yDensity
    /\ block = {| version := Some (int_toString 10 majorVersion ++ js "." ++
                                   padStart 2 (char "0") (int_toString 10 minorVersion));
                  resolutionUnit := Some (if units =? 0 then js "None"
                                          else if units =? 1 then js "inches"
                                          else js "cm");
                  xResolution := Some xDensity;
                  yResolution := Some yDensity |}.

(** A populated encoding block, as read at a start-of-frame marker [FF C0]
    that starts at [offset]. *)
Definition sof0_read_at (buffer : list byte) (offset : Z) (block : EncodingBlock) : Prop :=
  exists precision components,
    2 <= offset
    /\ byte_value <$> buffer !! Z.to_nat offset = Some 0xFF
    /\ byte_value <$> buffer !! Z.to_nat (offset + 1) = Some 0xC0
    /\ getUint8 buffer (offset + 4) = Ok precision
    /\ getUint8 buffer (offset + 9) = Ok components
    /\ block = {| process := Some (js "Baseline DCT, Huffman coding");
                  bitsPerSample := Some precision;
                  colorComponents := Some components;
                  subSampling := if components =? 3 then Some (js "YCbCr4:2:0 (2 2)")
                                 else None |}.

(** Each block of a result is the empty object or was read from the
    buffer. *)
Definition read_from (buffer : list byte) (result : JpegAnalysisResult) : Prop :=
  (jfif result = Some empty_jfif
   \/ exists offset block, jfif result = Some block /\ jfif_read_at buffer offset block)
  /\ (encoding result = Some empty_encoding
      \/ exists offset block,
           encoding result = Some block /\ sof0_read_at buffer offset block).

(** The number of words of a text, counted directly: the places where a
    character that is not white space stands at the start of the text or
    after white space. *)
Fixpoint word_starts (after_space : bool) (s : jsstring) : nat :=
  match s with
  | [] => 0
  | c :: s' =>
      if is_whitespace c then word_starts true s'
      else ((if after_space then 1 else 0) + word_starts false s')%nat
  end.

(** A buffer of ASCII bytes. *)
Definition ascii_only (buffer : list byte) : Prop :=
  forall b, b ∈ buffer -> byte_value b < 128.

(** The polynomial hash with multiplier 31, without wrap-around. *)
Definition hash31 (bytes : list Z) : Z :=
  foldl (fun hash b => 31 * hash + b) 0 bytes.

(** [c] calls [URL.createObjectURL] at most [n] times. *)
Definition mints {A} (c : M A) (n : nat) : Prop :=
  forall s o s', c s = (o, s') -> (minted s <= minted s' <= minted s + n)%nat.

(** The categories whose files can be played or shown. *)
Definition is_media (c : Category) : bool :=
  match c with
  | image | audio | video => true
  | _ => false
  end.

(** The extensions that make a file a document. *)
Definition documentExts : list jsstring :=
  js <$> ["pdf"; "doc"; "docx"; "txt"; "rtf"; "odt"; "pages"]%string.

(** A call returned rather than threw. *)
Definition returned {A} (o : Outcome A) : bool :=
  match o with
  | Ok _ => true
  | Throw _ => false
  end.

(** None of the nine getters the document extractor calls throws. *)
Definition pdf_getters_return (pdfDoc : pdf_lib.PDFDocument) : bool :=
  returned (pdf_lib.getPageCount pdfDoc)
  && returned (pdf_lib.getTitle pdfDoc)
  && returned (pdf_lib.getAuthor pdfDoc)
  && returned (pdf_lib.getSubject pdfDoc)
  && returned (pdf_lib.getCreator pdfDoc)
  && returned (pdf_lib.getProducer pdfDoc)
  && returned (pdf_lib.getCreationDate pdfDoc)
  && returned (pdf_lib.getModificationDate pdfDoc)
  && returned (pdf_lib.getKeywords pdfDoc).

(** The file is declared a PDF, by type or by extension. *)
Definition pdf_declared (P : Platform) (file : File) : Prop :=
  file_type file = js "application/pdf"
  \/ extensionOf (toLowerCase P) (file_name file) = js "pdf".

(** A string that neither begins nor ends with white space. *)
Definition trimmed (s : jsstring) : Prop :=
  (forall c, head s = Some c -> is_whitespace c = false)
  /\ (forall c, last s = Some c -> is_whitespace c = false).

(** A comment or lyrics entry whose text can be taken: it is neither
    [undefined] nor [null]. *)
Definition has_text (c : Value) : bool :=
  match c with
  | VUndefined | VNull => false
  | _ => true
  end.

Definition texts_readable (xs : option (list Value)) : bool :=
  match xs with
  | Some xs => forallb has_text xs
  | None => true
  end.

(** [url || undefined] on what [URL.createObjectURL] did. *)
Definition usable_url (o : Outcome jsstring) : option jsstring :=
  match o with
  | Ok (c :: url) => Some (c :: url)
  | _ => None
  end.

(** ** The application: [App.tsx]

    The component keeps the list of analysed files and the index of the
    selected one.  A handler is a closure made at render time: the values of
    [files.length] and [selectedFile] it reads are those it captured, while
    [setFiles(prev => ...)] works on the list as it is when the update runs.
    Handlers therefore take what they captured as arguments of their own. *)

Record FileItem := {
  item_file : File;
  analysisResult : FileAnalysisResult
}.

Record AppState := {
  files : list FileItem;
  selectedFile : option nat
}.

Definition console_error (label : string) : M unit :=
  fun s => (Ok tt, {| errors_arr := errors_arr s; warnings_arr := warnings_arr s;
                      console := console s ++ [js label]; minted := minted s |}).

Definition processFile (P : Platform) (file : File) : M FileItem :=
  (* setProcessingStatus(`Analyzing ...`) *)
  try_catch
    (let* analysisResult := analyzeFileEnhanced P file in
     ret {| item_file := file; analysisResult := analysisResult |})
    (fun error =>
       console_error "Error processing file:" ;;
       let fallbackResult :=
         {| metadata :=
              object
                [("name", VStr (file_name file));
                 ("size", VNum (file_size file));
                 ("type", VStr (file_type file));
                 ("lastModified", VDate (file_lastModified file));
                 ("extension", VStr (extensionOf (toLowerCase P) (file_name file)));
                 ("mimeType", VStr (file_type file))]%string;
            preview := None;
            thumbnail := None;
            category := other;
            errors := Some [failure_message error];
            warnings := None |} in
       ret {| item_file := file; analysisResult := fallbackResult |}).

(** The [for] loop of [handleFilesSelect] from index [i] on: the state
    updates made before an exception stay made. *)
Fixpoint handleFilesSelect_loop (P : Platform) (files_length : nat)
    (selectedFile_seen : option nat) (i : nat) (newFiles : list File)
    (st : AppState) (s : Store) : Outcome unit * AppState * Store :=
  match newFiles with
  | [] => (Ok tt, st, s)
  | file :: rest =>
      match processFile P file s with
      | (Ok processedFile, s1) =>
          (* setFiles(prev => [...prev, processedFile]) *)
          let st1 := {| files := files st ++ [processedFile];
                        selectedFile := selectedFile st |} in
          let st2 :=
            if bool_decide (selectedFile_seen = None) && (i =? 0)%nat
            then {| files := files st1; selectedFile := Some files_length |}
            else st1 in
          handleFilesSelect_loop P files_length selectedFile_seen (S i) rest st2 s1
      | (Throw error, s1) => (Throw error, st, s1)
      end
  end.

Definition handleFilesSelect (P : Platform) (files_length : nat)
    (selectedFile_seen : option nat) (newFiles : list File)
    (st : AppState) (s : Store) : AppState * Store :=
  match handleFilesSelect_loop P files_length selectedFile_seen 0 newFiles st s with
  | (Ok _, st', s') => (st', s')
  | (Throw error, st', s') => (st', (console_error "Error processing files:" s').2)
  end.

(** [if (url) URL.revokeObjectURL(url)]: the URLs handed to
    [URL.revokeObjectURL]. *)
Definition revoke (url : option jsstring) : list jsstring :=
  match url with
  | Some (c :: url) => [c :: url]
  | _ => []
  end.

Definition revoke_item (fileItem : FileItem) : list jsstring :=
  revoke (preview (analysisResult fileItem))
  ++ revoke (thumbnail (analysisResult fileItem)).

(** [handleRemoveFile(index)]: the new state and the URLs the handler
    itself revokes. *)
Definition handleRemoveFile (selectedFile_seen : option nat) (index : nat)
    (st : AppState) : AppState * list jsstring :=
  let prev := files st in
  let newFiles := (filter (fun ix => ix.1 <> index) (imap pair prev)).*2 in
  let revoked :=
    match prev !! index with
    | Some fileItem => revoke_item fileItem
    | None => []
    end in
  let selected :=
    match selectedFile_seen with
    | Some selected =>
        if (selected =? index)%nat then
          if (0 <? length newFiles)%nat
          then Some (Nat.min index (length newFiles - 1))
          else None
        else if (index <? selected)%nat then Some (selected - 1)%nat
        else selectedFile st
    | None => selectedFile st
    end in
  ({| files := newFiles; selectedFile := selected |}, revoked).

(** The effect on [files], [useEffect(() => () => files.forEach(...), [files])]:
    its cleanup revokes the preview and thumbnail URLs of every file of the
    list it was set up for, and runs when the component renders with another
    list. *)
Definition files_effect_cleanup (files_seen : list FileItem) : list jsstring :=
  files_seen ≫= revoke_item.

(** A removal as the component performs it: the handler's update, whose
    [filter] always makes a new list, then the cleanup of the effect set up
    for the previous list.  The URLs revoked are listed in order. *)
Definition removeFile (selectedFile_seen : option nat) (index : nat)
    (st : AppState) : AppState * list jsstring :=
  let '(st', revoked) := handleRemoveFile selectedFile_seen index st in
  (st', revoked ++ files_effect_cleanup (files st)).

(** The selection is nothing or the index of a listed file. *)
Definition selection_valid (st : AppState) : Prop :=
  match selectedFile st with
  | Some selected => (selected < length (files st))%nat
  | None => True
  end.

(** The item the viewer shows: [selectedFile !== null ? files[selectedFile] : null]. *)
Definition selectedFileItem (st : AppState) : option FileItem :=
  selected ← selectedFile st; files st !! selected.

(** An item holds what analysing its file returned. *)
Definition analysed (P : Platform) (fileItem : FileItem) : Prop :=
  exists s s',
    analyzeFileEnhanced P (item_file fileItem) s = (Ok (analysisResult fileItem), s').

(** A list of two files with the second one selected. *)
Definition sample_state : AppState :=
  {| files :=
       [{| item_file := sample_mp3;
           analysisResult := fallback_result (sample_platform true) sample_mp3 NotAnError |};
        {| item_file := sample_jpeg_as_text;
           analysisResult :=
             fallback_result (sample_platform true) sample_jpeg_as_text NotAnError |}];
     selectedFile := Some 1%nat |}.

(** The labels of the module's [console.warn] calls. *)
Definition warn_labels : list jsstring :=
  js <$> ["MD5 not supported, using simple hash";
          "Error analyzing JPEG structure:";
          "Failed to extract enhanced image metadata:";
          "Failed to extract enhanced audio metadata:";
          "Failed to extract enhanced video metadata:";
          "Failed to extract advanced document metadata:";
          "Failed to extract text metadata:"]%string.

(** [c] appends at most [n] lines to the console, all of them warnings of
    the module. *)
Definition logs {A} (c : M A) (n : nat) : Prop :=
  forall s o s', c s = (o, s') ->
    exists logged,
      console s' = console s ++ logged
      /\ (length logged <= n)%nat
      /\ Forall (fun line => line ∈ warn_labels) logged.

(** ** The older module: [metadata-extractor.ts] *)

(** [getFileTypeCategory(mimeType, extension)]; its callers pass the
    extension of [extractBasicFileMetadata]. *)
Definition getFileTypeCategory (mimeType extension : jsstring) : Category :=
  if startsWith (js "image/") mimeType then image
  else if startsWith (js "video/") mimeType then video
  else if startsWith (js "audio/") mimeType then audio
  else
    let documentExtensions := js <$> ["pdf"; "doc"; "docx"; "txt"; "rtf"; "odt"]%string in
    let imageExtensions :=
      js <$> ["jpg"; "jpeg"; "png"; "gif"; "bmp"; "webp"; "svg"]%string in
    let videoExtensions :=
      js <$> ["mp4"; "avi"; "mov"; "wmv"; "flv"; "webm"; "mkv"]%string in
    let audioExtensions := js <$> ["mp3"; "wav"; "flac"; "aac"; "ogg"; "m4a"]%string in
    if includes documentExtensions extension then document
    else if includes imageExtensions extension then image
    else if includes videoExtensions extension then video
    else if includes audioExtensions extension then audio
    else other.

#[global] Instance Category_eq_dec : EqDecision Category.
Proof. solve_decision. Defined.

(** The extensions the older classifier knows. *)
Definition known_extensions : list jsstring :=
  js <$> ["pdf"; "doc"; "docx"; "txt"; "rtf"; "odt";
          "jpg"; "jpeg"; "png"; "gif"; "bmp"; "webp"; "svg";
          "mp4"; "avi"; "mov"; "wmv"; "flv"; "webm"; "mkv";
          "mp3"; "wav"; "flac"; "aac"; "ogg"; "m4a"]%string.

(** The [categories] statistic of the application: an object used as a
    counter per category.  Its entries are shown in insertion order, so it is
    an association list here; [count_category acc c] is
    [acc[c] = (acc[c] || 0) + 1]. *)
Fixpoint count_category (acc : list (Category * nat)) (category : Category)
  : list (Category * nat) :=
  match acc with
  | [] => [(category, 1%nat)]
  | (key, count) :: rest =>
      if decide (key = category) then (key, (count + 1)%nat) :: rest
      else (key, count) :: count_category rest category
  end.

Definition categories (files : list FileItem) : list (Category * nat) :=
  foldl (fun acc item => count_category acc (category (analysisResult item))) [] files.

(** The number of listed files of a category. *)
Definition files_of (c : Category) (files : list FileItem) : nat :=
  length (filter (fun item => category (analysisResult item) = c) files).

(** The count an association list holds for a key, [0] without an entry. *)
Definition tally (acc : list (Category * nat)) (c : Category) : nat :=
  match find (fun kv => bool_decide (kv.1 = c)) acc with
  | Some kv => kv.2
  | None => 0%nat
  end.

(** The [while] loop of the JPEG analyzer as the program runs it, without
    a bound: [jpeg_loop buffer offset result turns out] holds when the loop
    entered with [offset] and [result] leaves after [turns] turns of its body
    with [out], the result reached and the error that ended it, if any.  A
    loop that went on for ever would have no such run. *)
Inductive jpeg_loop (buffer : list byte)
  : Z -> JpegAnalysisResult -> nat -> JpegAnalysisResult * option Thrown -> Prop :=
| jpeg_loop_exit offset result :
    (offset <? byteLength buffer - 1) = false ->
    jpeg_loop buffer offset result 0 (result, None)
| jpeg_loop_break offset result :
    (offset <? byteLength buffer - 1) = true ->
    jpeg_segment buffer offset result = Ok Break ->
    jpeg_loop buffer offset result 1 (result, None)
| jpeg_loop_throw offset result error :
    (offset <? byteLength buffer - 1) = true ->
    jpeg_segment buffer offset result = Throw error ->
    jpeg_loop buffer offset result 1 (result, Some error)
| jpeg_loop_continue offset result offset' result' turns out :
    (offset <? byteLength buffer - 1) = true ->
    jpeg_segment buffer offset result = Ok (Continue offset' result') ->
    jpeg_loop buffer offset' result' turns out ->
    jpeg_loop buffer offset result (S turns) out.

(** * Properties *)

(** ** Strings *)

Lemma startsWith_spec (p s : jsstring) :
  startsWith p s = true <-> exists rest, s = p ++ rest.
Proof.
  revert s; induction p as [|c p IH]; intros s; simpl.
  - split; [intros _; by exists s | done].
  - destruct s as [|d s]; simpl.
    + split; [done | intros [rest H]; discriminate].
    + rewrite andb_true_iff, N.eqb_eq, IH. split.
      * intros [-> [rest ->]]. by exists rest.
      * intros [rest H]. injection H as -> ->. split; [done | by exists rest].
Qed.

Lemma str_includes_spec (needle s : jsstring) :
  str_includes needle s = true <-> occurs_in needle s.
Proof.
  unfold occurs_in. induction s as [|c s IH].
  - simpl. rewrite orb_false_r, startsWith_spec. split.
    + intros [rest H]. by exists [], rest.
    + intros [before [after H]].
      destruct before; [by exists after | discriminate].
  - cbn [str_includes]. rewrite orb_true_iff, startsWith_spec, IH. split.
    + intros [[rest H] | [before [after H]]].
      * by exists [], rest.
      * exists (c :: before), after. by rewrite H.
    + intros [[|d before] [after H]].
      * left. by exists after.
      * right. injection H as _ H. by exists before, after.
Qed.

Lemma jsstring_eqb_eq (a b : jsstring) : jsstring_eqb a b = true <-> a = b.
Proof. unfold jsstring_eqb. apply bool_decide_eq_true. Qed.

Lemma or_string_effective (sniffed : option jsstring) (declared : jsstring) :
  or_string sniffed declared = effective_mime sniffed declared.
Proof. by destruct sniffed as [[|c m]|]. Qed.

(** ** Classification *)

Lemma find_app_first {A} (f : A -> bool) (l1 l2 : list A) :
  find f (l1 ++ l2) = match find f l1 with Some x => Some x | None => find f l2 end.
Proof. induction l1 as [|x l1 IH]; simpl; [done | by destruct (f x)]. Qed.

Lemma extension_group (x : jsstring) (c : Category) (group : list string) :
  snd <$> find (fun entry => jsstring_eqb x entry.1) ((fun e => (js e, c)) <$> group)
  = if includes (js <$> group) x then Some c else None.
Proof.
  unfold includes. induction group as [|e group IH]; simpl; [done |].
  destruct (jsstring_eqb x (js e)); simpl; [done | apply IH].
Qed.

Lemma find_app_category {A B} (f : A * B -> bool) (l1 l2 : list (A * B)) :
  snd <$> find f (l1 ++ l2)
  = match snd <$> find f l1 with Some c => Some c | None => snd <$> find f l2 end.
Proof. rewrite find_app_first. by destruct (find f l1). Qed.

(** The source's chain of [includes] tests is a first-match lookup in the
    extension table. *)
Lemma extension_chain (toLowerCase : jsstring -> jsstring) (mimeType filename : jsstring) :
  mime_category mimeType = None ->
  determineFileCategory toLowerCase mimeType filename
  = default other (extension_category (extensionOf toLowerCase filename)).
Proof.
  unfold mime_category, determineFileCategory. cbn [find mime_prefix_table fst].
  intros Hmime.
  destruct (startsWith (js "image/") mimeType); [discriminate |].
  destruct (startsWith (js "video/") mimeType); [discriminate |].
  destruct (startsWith (js "audio/") mimeType); [discriminate |].
  destruct (startsWith (js "text/") mimeType); [discriminate |].
  cbv zeta. unfold extension_category, extension_table.
  rewrite !find_app_category, !extension_group.
  repeat (destruct (includes _ (extensionOf toLowerCase filename)); [reflexivity |]).
  reflexivity.
Qed.

Lemma mime_chain (toLowerCase : jsstring -> jsstring) (mimeType filename : jsstring)
    (c : Category) :
  mime_category mimeType = Some c ->
  determineFileCategory toLowerCase mimeType filename = c.
Proof.
  unfold mime_category, determineFileCategory. cbn [find mime_prefix_table fst].
  destruct (startsWith (js "image/") mimeType); [by intros [= <-] |].
  destruct (startsWith (js "video/") mimeType); [by intros [= <-] |].
  destruct (startsWith (js "audio/") mimeType); [by intros [= <-] |].
  destruct (startsWith (js "text/") mimeType); [by intros [= <-] | discriminate].
Qed.

Lemma determineFileCategory_classify (toLowerCase : jsstring -> jsstring)
    (sniffed : option jsstring) (declared filename : jsstring) :
  determineFileCategory toLowerCase (or_string sniffed declared) filename
  = classify toLowerCase sniffed declared filename.
Proof.
  rewrite or_string_effective. unfold classify.
  destruct (mime_category (effective_mime sniffed declared)) as [c|] eqn:Hmime.
  - by apply mime_chain.
  - rewrite extension_chain by done.
    by destruct (extension_category (extensionOf toLowerCase filename)).
Qed.

(** C2.  Classification follows the specification's precedence: the MIME
    type (sniffed, else declared) is matched against the four prefixes, then
    the lower-cased extension is looked up in the static table, then the
    category is [other].  In particular a declared
    [application/octet-stream] with extension [flac] is [audio], and
    extension [xyz123] without a recognised MIME type is [other]. *)
Theorem determineFileCategory_precedence :
  (forall toLowerCase sniffed declared filename,
     determineFileCategory toLowerCase (or_string sniffed declared) filename
     = classify toLowerCase sniffed declared filename)
  /\ (forall toLowerCase filename,
        extensionOf toLowerCase filename = js "flac" ->
        determineFileCategory toLowerCase
          (or_string None (js "application/octet-stream")) filename = audio)
  /\ (forall toLowerCase sniffed declared filename,
        mime_category (effective_mime sniffed declared) = None ->
        extensionOf toLowerCase filename = js "xyz123" ->
        determineFileCategory toLowerCase (or_string sniffed declared) filename = other)
  /\ determineFileCategory ascii_toLowerCase
       (or_string None (js "application/octet-stream")) (js "Song.FLAC") = audio
  /\ determineFileCategory ascii_toLowerCase (or_string None []) (js "data.xyz123") = other.
Proof.
  split; [apply determineFileCategory_classify |].
  split.
  { intros toLowerCase filename Hext.
    rewrite extension_chain by reflexivity. by rewrite Hext. }
  split.
  { intros toLowerCase sniffed declared filename Hmime Hext.
    rewrite or_string_effective, extension_chain by done. by rewrite Hext. }
  split; reflexivity.
Qed.

(** C9.  When the MIME type that is classified has none of the four
    prefixes, a file whose lower-cased extension is [txt] is a [document]:
    [txt] is listed among the document and among the text extensions, and
    the document list is consulted first. *)
Theorem txt_extension_is_document
    (toLowerCase : jsstring -> jsstring) (sniffed : option jsstring)
    (declared filename : jsstring) :
  let mimeType := or_string sniffed declared in
  startsWith (js "image/") mimeType = false ->
  startsWith (js "video/") mimeType = false ->
  startsWith (js "audio/") mimeType = false ->
  startsWith (js "text/") mimeType = false ->
  extensionOf toLowerCase filename = js "txt" ->
  determineFileCategory toLowerCase mimeType filename = document
  /\ (js "txt", document) ∈ extension_table
  /\ (js "txt", text) ∈ extension_table.
Proof.
  intros mimeType Himage Hvideo Haudio Htext Hext. split.
  - unfold determineFileCategory.
    rewrite Himage, Hvideo, Haudio, Htext. cbv zeta. by rewrite Hext.
  - split; apply list_elem_of_In; vm_compute; tauto.
Qed.

Lemma txt_extension_is_document_witness :
  determineFileCategory ascii_toLowerCase
    (or_string None (js "application/octet-stream")) (js "notes.TXT") = document.
Proof.
  apply (txt_extension_is_document ascii_toLowerCase None
           (js "application/octet-stream") (js "notes.TXT")); reflexivity.
Defined.

(** ** Effects *)

Lemma arrays_kept_refl (s : Store) : arrays_kept s s.
Proof. by split. Qed.

Lemma arrays_kept_trans (s1 s2 s3 : Store) :
  arrays_kept s1 s2 -> arrays_kept s2 s3 -> arrays_kept s1 s3.
Proof. intros [H1 H2] [H3 H4]. split; congruence. Qed.

Lemma framed_ret {A} (a : A) (Q : A -> Prop) : Q a -> framed (ret a) Q.
Proof.
  intros HQ s o s' [= <- <-]. split; [apply arrays_kept_refl |]. by intros ? [= <-].
Qed.

Lemma framed_throw {A} (e : Thrown) (Q : A -> Prop) : framed (throw e) Q.
Proof. intros s o s' [= <- <-]. split; [apply arrays_kept_refl | done]. Qed.

Lemma framed_call {A} (o : Outcome A) (Q : A -> Prop) :
  (forall a, o = Ok a -> Q a) -> framed (call o) Q.
Proof. intros HQ s o' s' [= <- <-]. split; [apply arrays_kept_refl | done]. Qed.

Lemma framed_bind {A B} (c : M A) (k : A -> M B) (Q1 : A -> Prop) (Q : B -> Prop) :
  framed c Q1 -> (forall a, Q1 a -> framed (k a) Q) -> framed (bind c k) Q.
Proof.
  intros Hc Hk s o s'. unfold bind.
  destruct (c s) as [[a|e] s1] eqn:Hcs; destruct (Hc _ _ _ Hcs) as [Hkept HQ1].
  - intros Hks. destruct (Hk a (HQ1 a eq_refl) _ _ _ Hks) as [Hkept' HQ].
    split; [by eapply arrays_kept_trans | done].
  - intros [= <- <-]. split; [done | discriminate].
Qed.

Lemma framed_weaken {A} (c : M A) (Q Q' : A -> Prop) :
  framed c Q -> (forall a, Q a -> Q' a) -> framed c Q'.
Proof.
  intros Hc HQ s o s' Hcs. destruct (Hc _ _ _ Hcs) as [Hkept H].
  split; [done | intros a ->; by apply HQ, H].
Qed.

Lemma framed_try_catch {A} (body : M A) (handler : Thrown -> M A) (Q : A -> Prop) :
  framed body Q -> (forall e, framed (handler e) Q) -> framed (try_catch body handler) Q.
Proof.
  intros Hbody Hhandler s o s'. unfold try_catch.
  destruct (body s) as [[a|e] s1] eqn:Hbs; destruct (Hbody _ _ _ Hbs) as [Hkept HQ].
  - intros [= <- <-]. split; [done |]. intros ? [= <-]. by apply HQ.
  - intros Hh. destruct (Hhandler e _ _ _ Hh) as [Hkept' HQ'].
    split; [by eapply arrays_kept_trans | done].
Qed.

Lemma framed_console_warn (label : string) (Q : unit -> Prop) :
  Q tt -> framed (console_warn label) Q.
Proof. intros HQ s o s' [= <- <-]. split; [by split | by intros [] _]. Qed.

Lemma framed_createObjectURL (P : Platform) :
  framed (createObjectURL P) (fun _ => True).
Proof. intros s o s' [= <- <-]. split; [by split | done]. Qed.

Lemma framed_mapM {A B} (f : A -> M B) (l : list A) :
  (forall x, framed (f x) (fun _ => True)) -> framed (mapM f l) (fun _ => True).
Proof.
  intros Hf. induction l as [|x l IH]; simpl.
  - by apply framed_ret.
  - eapply framed_bind; [apply Hf |]. intros y _.
    eapply framed_bind; [apply IH |]. intros ys _. by apply framed_ret.
Qed.

Lemma safe_ret {A} (a : A) (Q : A -> Prop) : Q a -> safe (ret a) Q.
Proof. intros HQ s. exists a, s. split; [done | split; [apply arrays_kept_refl | done]]. Qed.

Lemma safe_framed {A} (c : M A) (Q : A -> Prop) : safe c Q -> framed c Q.
Proof.
  intros Hc s o s' Hcs. destruct (Hc s) as (a & s1 & Hrun & Hkept & HQ).
  rewrite Hrun in Hcs. injection Hcs as <- <-. split; [done | by intros ? [= <-]].
Qed.

Lemma safe_bind {A B} (c : M A) (k : A -> M B) (Q1 : A -> Prop) (Q : B -> Prop) :
  safe c Q1 -> (forall a, Q1 a -> safe (k a) Q) -> safe (bind c k) Q.
Proof.
  intros Hc Hk s. destruct (Hc s) as (a & s1 & Hrun & Hkept & HQ1).
  destruct (Hk a HQ1 s1) as (b & s2 & Hrun' & Hkept' & HQ).
  exists b, s2. unfold bind. rewrite Hrun.
  split; [done | split; [by eapply arrays_kept_trans | done]].
Qed.

(** A [try] whose handler cannot fail never lets an exception out. *)
Lemma safe_try_catch {A} (body : M A) (handler : Thrown -> M A) (Q : A -> Prop) :
  framed body Q -> (forall e, safe (handler e) Q) -> safe (try_catch body handler) Q.
Proof.
  intros Hbody Hhandler s. unfold try_catch.
  destruct (body s) as [[a|e] s1] eqn:Hbs; destruct (Hbody _ _ _ Hbs) as [Hkept HQ].
  - exists a, s1. split; [done | split; [done | by apply HQ]].
  - destruct (Hhandler e s1) as (a & s2 & Hrun & Hkept' & HQ').
    exists a, s2. split; [done | split; [by eapply arrays_kept_trans | done]].
Qed.

Lemma safe_warn_ret {A} (label : string) (a : A) (Q : A -> Prop) :
  Q a -> safe (console_warn label ;; ret a) Q.
Proof. intros HQ s. eexists _, _. split; [reflexivity | split; [by split | done]]. Qed.

(** What a [try] returns when its body throws is what the handler returns. *)
Lemma try_catch_throws {A} (body : M A) (handler : Thrown -> M A) s e s1 :
  body s = (Throw e, s1) -> try_catch body handler s = handler e s1.
Proof. unfold try_catch. by intros ->. Qed.

Lemma try_catch_returns {A} (body : M A) (handler : Thrown -> M A) s a s1 :
  body s = (Ok a, s1) -> try_catch body handler s = (Ok a, s1).
Proof. unfold try_catch. by intros ->. Qed.

(** ** Records *)

Lemma extend_keeps (base o : gmap string Value) (fields : list (string * Value)) :
  is_BaseMetadata base -> extends_only fields = true -> base ⊆ o ->
  base ⊆ extend o fields.
Proof.
  intros Hbase. revert o. unfold extend, extends_only.
  induction fields as [|[k v] fields IH]; intros o Hfields Ho; simpl in *; [done |].
  apply andb_true_iff in Hfields as [Hk Hfields].
  apply IH; [done |]. apply insert_subseteq_r; [| done].
  destruct (base !! k) as [x|] eqn:Hlookup; [| done].
  apply negb_true_iff, bool_decide_eq_false in Hk.
  destruct Hk. apply Hbase. by rewrite Hlookup.
Qed.

Lemma extend_lookup_other (o : gmap string Value) (fields : list (string * Value))
    (key : string) :
  key ∉ fields.*1 -> extend o fields !! key = o !! key.
Proof.
  revert o. unfold extend.
  induction fields as [|[k v] fields IH]; intros o Hkey; simpl in *; [done |].
  apply not_elem_of_cons in Hkey as [Hne Hkey].
  rewrite IH by done. by rewrite lookup_insert_ne.
Qed.

(** ** Extractors *)

Lemma analyzeJPEGStructure_safe (buffer : list byte) :
  safe (analyzeJPEGStructure buffer) (fun _ => True).
Proof.
  unfold analyzeJPEGStructure.
  destruct (getUint16 buffer 0) as [soi|e]; [| by apply safe_warn_ret].
  destruct (negb (soi =? 0xFFD8)); [by apply safe_ret |].
  destruct (jpeg_scan _ _ _ _) as [result [e|]];
    [by apply safe_warn_ret | by apply safe_ret].
Qed.

Lemma framed_text_of (c : Value) : framed (text_of c) (fun _ => True).
Proof. destruct c; simpl; first [by apply framed_ret | apply framed_throw]. Qed.

Lemma framed_opt_map (xs : option (list Value)) :
  framed (opt_map text_of xs) (fun _ => True).
Proof.
  destruct xs as [xs|]; simpl; [| by apply framed_ret].
  eapply framed_bind; [apply framed_mapM, framed_text_of |].
  intros ys _. by apply framed_ret.
Qed.

(** Steps that cannot touch the arrays, whatever they return. *)
Ltac frame_any :=
  repeat match goal with
    | |- framed (ret _) _ => by apply framed_ret
    | |- framed (call _) _ => by apply framed_call
    | |- framed (throw _) _ => apply framed_throw
    | |- framed (createObjectURL _) _ => apply framed_createObjectURL
    | |- framed (opt_map text_of _) _ => apply framed_opt_map
    | |- framed (analyzeJPEGStructure _) _ =>
        apply safe_framed, analyzeJPEGStructure_safe
    | |- framed (bind _ _) (fun _ => True) =>
        eapply (framed_bind _ _ (fun _ => True)); [| intros ? _]
    | |- framed (match ?x with _ => _ end) _ => destruct x
    end.

(** One [let*] of an extractor body whose bound computation is framed. *)
Ltac frame_bind :=
  eapply (framed_bind _ _ (fun _ => True)); [frame_any | intros ? _].

Lemma extractEnhancedImageMetadata_try_framed (P : Platform) (file : File)
    (buffer : list byte) (base : gmap string Value) :
  is_BaseMetadata base ->
  framed (extractEnhancedImageMetadata_try P file buffer base) (fun m => base ⊆ m).
Proof.
  intros Hbase. unfold extractEnhancedImageMetadata_try.
  frame_bind. frame_bind. destruct a0 as [width height]. cbv zeta.
  frame_bind. frame_bind.
  apply framed_ret, extend_keeps; [done | reflexivity | done].
Qed.

Lemma extractEnhancedAudioMetadata_try_framed (P : Platform) (file : File)
    (buffer : list byte) (base : gmap string Value) :
  is_BaseMetadata base ->
  framed (extractEnhancedAudioMetadata_try P file buffer base)
         (fun r => base ⊆ audio_metadata r).
Proof.
  intros Hbase. unfold extractEnhancedAudioMetadata_try.
  frame_bind. cbv zeta. frame_bind. destruct a0 as [art pictureInfo].
  frame_bind. frame_bind.
  apply framed_ret. cbn [audio_metadata]. apply extend_keeps; [done | reflexivity | done].
Qed.

Lemma extractEnhancedVideoMetadata_try_framed (P : Platform) (file : File)
    (base : gmap string Value) :
  is_BaseMetadata base ->
  framed (extractEnhancedVideoMetadata_try P file base) (fun m => base ⊆ m).
Proof.
  intros Hbase. unfold extractEnhancedVideoMetadata_try.
  frame_bind.
  eapply (framed_bind _ _ (fun m => base ⊆ m)); [| intros m Hm; by apply framed_ret].
  frame_bind. apply framed_ret.
  destruct (video_event P file); [| done].
  apply extend_keeps; [done | reflexivity | done].
Qed.

Lemma extractAdvancedDocumentMetadata_try_framed (P : Platform) (file : File)
    (buffer : list byte) (base : gmap string Value) :
  is_BaseMetadata base ->
  framed (extractAdvancedDocumentMetadata_try P file buffer base) (fun m => base ⊆ m).
Proof.
  intros Hbase. unfold extractAdvancedDocumentMetadata_try.
  destruct (_ || _); [| by apply framed_ret].
  do 10 frame_bind.
  apply framed_ret, extend_keeps; [done | reflexivity | done].
Qed.

Lemma extractTextMetadata_try_framed (file : File) (buffer : list byte)
    (base : gmap string Value) :
  is_BaseMetadata base ->
  framed (extractTextMetadata_try file buffer base) (fun m => base ⊆ m).
Proof.
  intros Hbase. unfold extractTextMetadata_try. cbv zeta.
  apply framed_ret, extend_keeps; [done | reflexivity | done].
Qed.

Lemma object_fields (fields : list (string * Value)) (key : string) :
  is_Some (object fields !! key) -> key ∈ fields.*1.
Proof.
  intros Hsome. destruct (decide (key ∈ fields.*1)) as [Hin|Hnotin]; [done |].
  unfold object in Hsome. rewrite extend_lookup_other in Hsome by done.
  rewrite lookup_empty in Hsome. by destruct Hsome.
Qed.

Lemma baseMetadata_is_BaseMetadata (P : Platform) (file : File)
    (detectedType : option FileTypeResult) (checksum rawHeader : jsstring) :
  is_BaseMetadata (baseMetadata P file detectedType checksum rawHeader).
Proof. intros key Hsome. by apply object_fields in Hsome. Qed.

Lemma fallbackMetadata_within (P : Platform) (file : File)
    (detectedType : option FileTypeResult) (checksum rawHeader : jsstring) :
  fallbackMetadata P file ⊆ baseMetadata P file detectedType checksum rawHeader.
Proof.
  unfold baseMetadata, object.
  change (extend ∅ ?l) with
    (extend (fallbackMetadata P file)
       [("detectedMimeType", opt_str (mime <$> detectedType));
        ("realFileType", opt_str (ext <$> detectedType));
        ("checksum", VStr checksum);
        ("rawHeader", VStr rawHeader)]%string).
  apply map_subseteq_spec. intros key v Hkey.
  rewrite extend_lookup_other; [done |].
  intros Hin.
  pose proof (object_fields _ key (ex_intro _ v Hkey)) as Hsix.
  apply list_elem_of_In in Hin, Hsix. cbn in Hin, Hsix.
  destruct Hsix as [<- | [<- | [<- | [<- | [<- | [<- | []]]]]]];
    destruct Hin as [? | [? | [? | [? | []]]]]; discriminate.
Qed.

Lemma calculateChecksum_safe (P : Platform) (buffer : list byte) :
  safe (calculateChecksum P buffer) (fun _ => True).
Proof.
  unfold calculateChecksum. apply safe_try_catch.
  - frame_bind. by apply framed_ret.
  - intros e. by apply safe_warn_ret.
Qed.

Lemma extractEnhancedImageMetadata_safe (P : Platform) (file : File)
    (buffer : list byte) (base : gmap string Value) :
  is_BaseMetadata base ->
  safe (extractEnhancedImageMetadata P file buffer base) (fun m => base ⊆ m).
Proof.
  intros Hbase. apply safe_try_catch.
  - by apply extractEnhancedImageMetadata_try_framed.
  - intros e. by apply safe_warn_ret.
Qed.

Lemma extractEnhancedAudioMetadata_safe (P : Platform) (file : File)
    (buffer : list byte) (base : gmap string Value) :
  is_BaseMetadata base ->
  safe (extractEnhancedAudioMetadata P file buffer base)
       (fun r => base ⊆ audio_metadata r).
Proof.
  intros Hbase. apply safe_try_catch.
  - by apply extractEnhancedAudioMetadata_try_framed.
  - intros e. by apply safe_warn_ret.
Qed.

Lemma extractEnhancedVideoMetadata_safe (P : Platform) (file : File)
    (base : gmap string Value) :
  is_BaseMetadata base ->
  safe (extractEnhancedVideoMetadata P file base) (fun m => base ⊆ m).
Proof.
  intros Hbase. apply safe_try_catch.
  - by apply extractEnhancedVideoMetadata_try_framed.
  - intros e. by apply safe_warn_ret.
Qed.

Lemma extractAdvancedDocumentMetadata_safe (P : Platform) (file : File)
    (buffer : list byte) (base : gmap string Value) :
  is_BaseMetadata base ->
  safe (extractAdvancedDocumentMetadata P file buffer base) (fun m => base ⊆ m).
Proof.
  intros Hbase. apply safe_try_catch.
  - by apply extractAdvancedDocumentMetadata_try_framed.
  - intros e. by apply safe_warn_ret.
Qed.

Lemma extractTextMetadata_safe (file : File) (buffer : list byte)
    (base : gmap string Value) :
  is_BaseMetadata base ->
  safe (extractTextMetadata file buffer base) (fun m => base ⊆ m).
Proof.
  intros Hbase. apply safe_try_catch.
  - by apply extractTextMetadata_try_framed.
  - intros e. by apply safe_warn_ret.
Qed.

(** The [switch] leaves the arrays alone and, when it completes, hands back
    a record that extends the base record. *)
Lemma extractByCategory_framed (P : Platform) (file : File) (buffer : list byte)
    (base : gmap string Value) (category : Category) :
  is_BaseMetadata base ->
  framed (extractByCategory P file buffer base category) (fun x => base ⊆ x.1.1).
Proof.
  intros Hbase. destruct category; simpl.
  - eapply framed_bind;
      [by apply safe_framed, extractEnhancedImageMetadata_safe |].
    intros m Hm. frame_bind. by apply framed_ret.
  - eapply framed_bind;
      [by apply safe_framed, extractEnhancedVideoMetadata_safe |].
    intros m Hm. frame_bind. by apply framed_ret.
  - eapply framed_bind;
      [by apply safe_framed, extractEnhancedAudioMetadata_safe |].
    intros r Hr. cbv zeta. frame_bind. by apply framed_ret.
  - eapply framed_bind;
      [by apply safe_framed, extractAdvancedDocumentMetadata_safe |].
    intros m Hm. by apply framed_ret.
  - by apply framed_ret.
  - eapply framed_bind; [by apply safe_framed, extractTextMetadata_safe |].
    intros m Hm. by apply framed_ret.
  - by apply framed_ret.
Qed.

(** ** The assembler *)

Lemma analyzeFileEnhanced_try_inv (P : Platform) (file : File) (s0 : Store) o s1 :
  analyzeFileEnhanced_try P file s0 = (o, s1) ->
  match o with
  | Throw e => arrays_kept s0 s1
  | Ok r =>
      exists buffer checksum sc detectedType,
        file_arrayBuffer file = Ok buffer
        /\ calculateChecksum P buffer s0 = (Ok checksum, sc)
        /\ fileTypeFromBuffer P buffer = Ok detectedType
        /\ baseMetadata P file detectedType checksum (extractRawHeader buffer 64)
             ⊆ metadata r
        /\ category r = determineFileCategory (toLowerCase P)
                          (or_string (mime <$> detectedType) (file_type file))
                          (file_name file)
        /\ errors r = non_empty (errors_arr s0)
        /\ warnings r = non_empty (warnings_arr s0 ++ mismatch_warnings detectedType file)
        /\ errors_arr s1 = errors_arr s0
        /\ warnings_arr s1 = warnings_arr s0 ++ mismatch_warnings detectedType file
  end.
Proof.
  unfold analyzeFileEnhanced_try. unfold bind at 1, call.
  destruct (file_arrayBuffer file) as [buffer|e];
    [| intros [= <- <-]; apply arrays_kept_refl].
  unfold bind at 1.
  destruct (calculateChecksum_safe P buffer s0) as (checksum & sc & Hsum & Hkept & _).
  rewrite Hsum. unfold bind at 1.
  destruct (fileTypeFromBuffer P buffer) as [detectedType|e] eqn:Hsniff;
    [| intros [= <- <-]; done].
  cbv zeta. unfold bind at 1.
  set (base := baseMetadata P file detectedType checksum (extractRawHeader buffer 64)).
  set (cat := determineFileCategory _ _ _).
  destruct (extractByCategory P file buffer base cat sc) as [[[[m p] t]|e] s3] eqn:Hex;
    destruct (extractByCategory_framed P file buffer base cat
                (baseMetadata_is_BaseMetadata _ _ _ _ _) _ _ _ Hex) as [Hkept' Hm].
  2: { intros [= <- <-]. by eapply arrays_kept_trans. }
  specialize (Hm _ eq_refl). simpl in Hm.
  destruct Hkept as [He Hw], Hkept' as [He' Hw'].
  unfold validateDetectedType, bind, get_errors, get_warnings, ret, warnings_push.
  destruct detectedType as [detected|];
    [destruct (type_mismatch detected file) eqn:Hmis |];
    cbn [errors_arr warnings_arr]; intros [= <- <-];
    cbn [metadata category errors warnings errors_arr warnings_arr].
  1: exists buffer, checksum, sc, (Some detected).
  2: exists buffer, checksum, sc, (Some detected).
  3: exists buffer, checksum, sc, None.
  all: cbn [mismatch_warnings]; rewrite ?Hmis, ?app_nil_r, He', He, Hw', Hw;
    by repeat split.
Qed.

(** Every analysis returns, either at the end of the [try] block or through
    the outer [catch]. *)
Lemma analyzeFileEnhanced_run (P : Platform) (file : File) (s : Store) :
  exists r s',
    analyzeFileEnhanced P file s = (Ok r, s')
    /\ (completes P file s r s' /\ analyzeFileEnhanced_try P file (declared s) = (Ok r, s')
        \/ falls_back P file s r s').
Proof.
  unfold analyzeFileEnhanced, bind at 1, declare_arrays. fold (declared s).
  destruct (analyzeFileEnhanced_try P file (declared s)) as [[r|e] s1] eqn:Htry;
    pose proof (analyzeFileEnhanced_try_inv _ _ _ _ _ Htry) as Hinv; simpl in Hinv.
  - exists r, s1. rewrite (try_catch_returns _ _ _ _ _ Htry). split; [done |].
    left. split; [| done].
    destruct Hinv as (buffer & checksum & sc & detectedType & H).
    exists buffer, checksum, sc, detectedType. tauto.
  - rewrite (try_catch_throws _ _ _ _ _ Htry).
    destruct Hinv as [He Hw]. simpl in He, Hw.
    unfold bind, errors_push, get_errors, ret. simpl. rewrite He. simpl.
    eexists _, _. split; [reflexivity |]. right.
    exists e, s1. by repeat split.
Qed.

(** C5.  [errors] is [undefined] whenever no error was recorded and
    [warnings] is [undefined] whenever no warning was recorded; neither is
    ever an empty list.  The arrays of the final store are what was
    recorded. *)
Theorem errors_and_warnings_never_empty (P : Platform) (file : File) (s : Store) :
  exists r s',
    analyzeFileEnhanced P file s = (Ok r, s')
    /\ errors r = non_empty (errors_arr s')
    /\ warnings r = non_empty (warnings_arr s')
    /\ (errors_arr s' = [] -> errors r = None)
    /\ (warnings_arr s' = [] -> warnings r = None)
    /\ errors r <> Some []
    /\ warnings r <> Some [].
Proof.
  destruct (analyzeFileEnhanced_run P file s) as (r & s' & Hrun & Hcases).
  exists r, s'. split; [done |].
  assert (errors r = non_empty (errors_arr s')
          /\ warnings r = non_empty (warnings_arr s')) as [He Hw].
  { destruct Hcases as [[Hc _] | Hf].
    - destruct Hc as (? & ? & ? & ? & _ & _ & _ & _ & _ & He & Hw & He' & Hw').
      by rewrite He, Hw, He', Hw'.
    - destruct Hf as (e & s1 & _ & -> & He & Hw). by rewrite He, Hw. }
  rewrite He, Hw. repeat split.
  - by intros ->.
  - by intros ->.
  - unfold non_empty. by destruct (errors_arr s').
  - unfold non_empty. by destruct (warnings_arr s').
Qed.

Lemma extractByCategory_throws (P : Platform) (file : File) (buffer : list byte)
    (base : gmap string Value) (category : Category) s e s' :
  is_BaseMetadata base ->
  extractByCategory P file buffer base category s = (Throw e, s') ->
  exists n, URL_createObjectURL P n = Throw e.
Proof.
  intros Hbase. destruct category; simpl; unfold bind.
  - destruct (extractEnhancedImageMetadata_safe P file buffer base Hbase s)
      as (m & s2 & -> & _).
    unfold createObjectURL.
    destruct (URL_createObjectURL P (minted s2)) eqn:Hurl; [discriminate |].
    intros [= <- <-]. by exists (minted s2).
  - destruct (extractEnhancedVideoMetadata_safe P file base Hbase s)
      as (m & s2 & -> & _).
    unfold createObjectURL.
    destruct (URL_createObjectURL P (minted s2)) eqn:Hurl; [discriminate |].
    intros [= <- <-]. by exists (minted s2).
  - destruct (extractEnhancedAudioMetadata_safe P file buffer base Hbase s)
      as (m & s2 & -> & _).
    unfold createObjectURL.
    destruct (URL_createObjectURL P (minted s2)) eqn:Hurl; [discriminate |].
    intros [= <- <-]. by exists (minted s2).
  - by destruct (extractAdvancedDocumentMetadata_safe P file buffer base Hbase s)
      as (m & s2 & -> & _).
  - discriminate.
  - by destruct (extractTextMetadata_safe file buffer base Hbase s)
      as (m & s2 & -> & _).
  - discriminate.
Qed.

(** The only steps of the [try] block that are not inside a narrower
    [try]: reading the buffer, sniffing it, and minting the preview URL. *)
Lemma analyzeFileEnhanced_try_throws (P : Platform) (file : File) s0 e s1 :
  analyzeFileEnhanced_try P file s0 = (Throw e, s1) ->
  file_arrayBuffer file = Throw e
  \/ (exists buffer, file_arrayBuffer file = Ok buffer
                     /\ fileTypeFromBuffer P buffer = Throw e)
  \/ (exists n, URL_createObjectURL P n = Throw e).
Proof.
  unfold analyzeFileEnhanced_try. unfold bind at 1, call.
  destruct (file_arrayBuffer file) as [buffer|e0]; [| intros [= <- <-]; by left].
  unfold bind at 1.
  destruct (calculateChecksum_safe P buffer s0) as (checksum & sc & Hsum & Hkept & _).
  rewrite Hsum. unfold bind at 1.
  destruct (fileTypeFromBuffer P buffer) as [detectedType|e0] eqn:Hsniff.
  2: { intros [= <- <-]. right; left. by exists buffer. }
  cbv zeta. unfold bind at 1.
  destruct (extractByCategory _ _ _ _ _ sc) as [[[[m p] t]|e0] s3] eqn:Hex.
  - unfold validateDetectedType, bind, get_errors, get_warnings, ret, warnings_push.
    destruct detectedType as [detected|]; [destruct (type_mismatch detected file) |];
      discriminate.
  - intros [= <- <-]. right; right.
    eapply extractByCategory_throws; [| done]. apply baseMetadata_is_BaseMetadata.
Qed.

Lemma fallbackMetadata_fields (P : Platform) (file : File) (key : string) :
  is_Some (fallbackMetadata P file !! key) <-> key ∈ fallback_fields.
Proof.
  split; [apply object_fields |].
  unfold fallback_fields. rewrite !elem_of_cons, elem_of_nil.
  intros [-> | [-> | [-> | [-> | [-> | [-> | []]]]]]]; by eexists.
Qed.

(** C1, as the code has it.  [analyzeFileEnhanced] returns a result for
    every file and never lets an exception out.  Whenever an error leaves
    the outer [try] block -- and only the buffer read, the content sniffer
    and the minting of the preview URL can throw there, every other step
    having a [catch] of its own -- the result is the fallback: the six base
    fields only, category [other], and an [errors] list of one element.
    Otherwise the result is the one the [try] block returned, with no
    error recorded. *)
Theorem analyzeFileEnhanced_outer_boundary (P : Platform) (file : File) (s : Store) :
  exists r s',
    analyzeFileEnhanced P file s = (Ok r, s')
    /\ (forall error s1,
          analyzeFileEnhanced_try P file (declared s) = (Throw error, s1) ->
          r = fallback_result P file error
          /\ (file_arrayBuffer file = Throw error
              \/ (exists buffer, file_arrayBuffer file = Ok buffer
                                 /\ fileTypeFromBuffer P buffer = Throw error)
              \/ (exists n, URL_createObjectURL P n = Throw error)))
    /\ (forall error, file_arrayBuffer file = Throw error ->
                      r = fallback_result P file error)
    /\ (forall buffer error,
          file_arrayBuffer file = Ok buffer ->
          fileTypeFromBuffer P buffer = Throw error ->
          r = fallback_result P file error)
    /\ (forall r0 s1,
          analyzeFileEnhanced_try P file (declared s) = (Ok r0, s1) ->
          r = r0 /\ errors r = None)
    /\ (forall error,
          category (fallback_result P file error) = other
          /\ (exists message, errors (fallback_result P file error) = Some [message])
          /\ forall key, is_Some (metadata (fallback_result P file error) !! key)
                         <-> key ∈ fallback_fields).
Proof.
  destruct (analyzeFileEnhanced_run P file s) as (r & s' & Hrun & Hcases).
  exists r, s'. split; [done |].
  assert (forall error s1,
            analyzeFileEnhanced_try P file (declared s) = (Throw error, s1) ->
            r = fallback_result P file error) as Hthrown.
  { intros error s1 Htry. destruct Hcases as [[_ Hok] | (e & s2 & Hthrow & -> & _)].
    - rewrite Hok in Htry. discriminate.
    - rewrite Hthrow in Htry. by injection Htry as <- <-. }
  split; [| split; [| split; [| split]]].
  - intros error s1 Htry. split; [by eapply Hthrown |].
    by eapply analyzeFileEnhanced_try_throws.
  - intros error Hread. apply (Hthrown error (declared s)).
    unfold analyzeFileEnhanced_try, bind at 1, call. by rewrite Hread.
  - intros buffer error Hread Hsniff.
    destruct (calculateChecksum_safe P buffer (declared s)) as (checksum & sc & Hsum & _).
    apply (Hthrown error sc).
    unfold analyzeFileEnhanced_try, bind at 1, call. rewrite Hread.
    unfold bind at 1. rewrite Hsum. unfold bind at 1. by rewrite Hsniff.
  - intros r0 s1 Htry. destruct Hcases as [[Hc Hok] | (e & s2 & Hthrow & _)].
    + rewrite Hok in Htry. injection Htry as <- <-. split; [done |].
      by destruct Hc as (? & ? & ? & ? & _ & _ & _ & _ & _ & He & _).
    + rewrite Hthrow in Htry. discriminate.
  - intros error. split; [done |]. split; [by eexists |].
    apply fallbackMetadata_fields.
Qed.

(** C1 as stated fails: on the sample platform the audio parser throws
    while [song.mp3] is analysed (and so does the MD5 digest), yet the
    result is not the fallback: its category is [audio] and it records no
    error. *)
Lemma analyzeFileEnhanced_contains_inner_errors :
  let P := sample_platform true in
  (exists buffer error,
     file_arrayBuffer sample_mp3 = Ok buffer
     /\ parseBuffer P buffer (file_type sample_mp3) (file_size sample_mp3) = Throw error)
  /\ exists r s',
       analyzeFileEnhanced P sample_mp3 fresh_store = (Ok r, s')
       /\ category r = audio
       /\ errors r = None
       /\ ~ (category r = other /\ exists message, errors r = Some [message]).
Proof.
  split; [by eexists _, _ |].
  eexists _, _. split; [vm_compute; reflexivity |].
  split; [reflexivity |]. split; [reflexivity |]. by intros [? _].
Qed.

Lemma type_mismatch_spec (detected : FileTypeResult) (file : File) :
  type_mismatch detected file = true
  <-> mime detected <> file_type file /\ file_type file <> [].
Proof.
  unfold type_mismatch.
  rewrite andb_true_iff, !negb_true_iff, <- !not_true_iff_false, !jsstring_eqb_eq.
  done.
Qed.

(** C3, as the code has it.  When the analysis completes, one type-mismatch
    warning is recorded exactly when sniffing found a type, that type differs
    from the declared MIME type, and the declared MIME type is not empty;
    when the analysis ends in the outer [catch] the result has no warnings.
    A file declared [text/plain] whose bytes sniff as [image/jpeg] is, when
    its analysis completes, an [image] with that warning. *)
Theorem mismatch_warning_exactly_when (P : Platform) (file : File) (s : Store) :
  exists r s',
    analyzeFileEnhanced P file s = (Ok r, s')
    /\ (falls_back P file s r s' /\ warnings r = None
        \/ exists buffer detectedType,
             file_arrayBuffer file = Ok buffer
             /\ fileTypeFromBuffer P buffer = Ok detectedType
             /\ errors r = None
             /\ (forall detected,
                   detectedType = Some detected ->
                   mime detected <> file_type file ->
                   file_type file <> [] ->
                   warnings r = Some [mismatch_warning (mime detected) file])
             /\ (warnings r <> None ->
                 exists detected,
                   detectedType = Some detected
                   /\ mime detected <> file_type file
                   /\ file_type file <> [])
             /\ (forall detected,
                   detectedType = Some detected ->
                   mime detected = js "image/jpeg" ->
                   file_type file = js "text/plain" ->
                   category r = image
                   /\ warnings r = Some [mismatch_warning (js "image/jpeg") file])).
Proof.
  destruct (analyzeFileEnhanced_run P file s) as (r & s' & Hrun & Hcases).
  exists r, s'. split; [done |].
  destruct Hcases as [[Hc _] | Hf].
  2: { left. split; [done |]. by destruct Hf as (e & s1 & _ & -> & _). }
  right. destruct Hc as (buffer & checksum & s1 & detectedType & Hread & _ & Hsniff
                          & _ & Hcat & He & Hw & _).
  exists buffer, detectedType. split; [done |]. split; [done |]. split; [done |].
  assert (forall detected,
            detectedType = Some detected ->
            mime detected <> file_type file -> file_type file <> [] ->
            warnings r = Some [mismatch_warning (mime detected) file]) as Hwarn.
  { intros detected -> Hne Hdeclared. rewrite Hw. simpl.
    by rewrite (proj2 (type_mismatch_spec detected file)). }
  split; [done |]. split.
  - rewrite Hw. destruct detectedType as [detected|]; simpl; [| done].
    destruct (type_mismatch detected file) eqn:Hmis; [| done].
    intros _. exists detected. split; [done |]. by apply type_mismatch_spec.
  - intros detected Hd Hmime Hdeclared. split.
    + rewrite Hcat, Hd. simpl. by rewrite Hmime, Hdeclared.
    + rewrite <- Hmime. apply Hwarn; [done | |]; by rewrite ?Hmime, Hdeclared.
Qed.

(** C3 as stated fails.  The bytes of [holiday] sniff as [image/jpeg], a
    present, non-empty type that differs from the declared one, which is
    empty: the analysis completes as an [image] and records no warning.
    And when the preview URL cannot be minted, [holiday.txt], declared
    [text/plain] and sniffed as [image/jpeg], ends in the fallback without a
    warning and with category [other]. *)
Lemma mismatch_warning_not_for_undeclared_type :
  (exists buffer detected,
     file_arrayBuffer sample_jpeg_undeclared = Ok buffer
     /\ fileTypeFromBuffer (sample_platform true) buffer = Ok (Some detected)
     /\ mime detected <> []
     /\ mime detected <> file_type sample_jpeg_undeclared
     /\ exists r s',
          analyzeFileEnhanced (sample_platform true) sample_jpeg_undeclared fresh_store
          = (Ok r, s')
          /\ errors r = None /\ category r = image /\ warnings r = None)
  /\ (exists buffer detected,
        file_arrayBuffer sample_jpeg_as_text = Ok buffer
        /\ fileTypeFromBuffer (sample_platform false) buffer = Ok (Some detected)
        /\ mime detected = js "image/jpeg"
        /\ file_type sample_jpeg_as_text = js "text/plain"
        /\ exists r s',
             analyzeFileEnhanced (sample_platform false) sample_jpeg_as_text fresh_store
             = (Ok r, s')
             /\ category r = other /\ warnings r = None).
Proof.
  split.
  - eexists _, _. split; [reflexivity |]. split; [reflexivity |].
    split; [done |]. split; [done |].
    eexists _, _. split; [vm_compute; reflexivity |]. by repeat split.
  - eexists _, _. split; [reflexivity |]. split; [reflexivity |].
    split; [done |]. split; [done |].
    eexists _, _. split; [vm_compute; reflexivity |]. by repeat split.
Qed.

(** C8.  On a host whose [URL.createObjectURL] returns, as it does for a
    [File], the metadata of the result contains every field of the base
    record built before extraction, unchanged, whatever the category: once
    the buffer is read and sniffed the base record is built, the analysis
    completes without error and its metadata extends that record.  Each
    extractor returns the base record or an extension of it by fields of its
    own, and the six fields taken from the file itself are in the metadata of
    every result. *)
Theorem metadata_extends_base (P : Platform) (file : File) (s : Store) :
  (forall n, returned (URL_createObjectURL P n) = true) ->
  (exists r s',
     analyzeFileEnhanced P file s = (Ok r, s')
     /\ fallbackMetadata P file ⊆ metadata r
     /\ forall buffer detectedType,
          file_arrayBuffer file = Ok buffer ->
          fileTypeFromBuffer P buffer = Ok detectedType ->
          exists checksum s1,
            calculateChecksum P buffer (declared s) = (Ok checksum, s1)
            /\ errors r = None
            /\ baseMetadata P file detectedType checksum (extractRawHeader buffer 64)
                 ⊆ metadata r)
  /\ (forall buffer base s0,
        is_BaseMetadata base ->
        (exists m s', extractEnhancedImageMetadata P file buffer base s0 = (Ok m, s')
                      /\ base ⊆ m)
        /\ (exists a s', extractEnhancedAudioMetadata P file buffer base s0 = (Ok a, s')
                         /\ base ⊆ audio_metadata a)
        /\ (exists m s', extractEnhancedVideoMetadata P file base s0 = (Ok m, s')
                         /\ base ⊆ m)
        /\ (exists m s', extractAdvancedDocumentMetadata P file buffer base s0 = (Ok m, s')
                         /\ base ⊆ m)
        /\ (exists m s', extractTextMetadata file buffer base s0 = (Ok m, s')
                         /\ base ⊆ m)).
Proof.
  intros Hurl. split.
  - destruct (analyzeFileEnhanced_run P file s) as (r & s' & Hrun & Hcases).
    exists r, s'. split; [done |].
    destruct Hcases as [[Hc _] | Hf].
    + destruct Hc as (buffer & checksum & s1 & detectedType & Hread & Hsum & Hsniff
                      & Hbase & _ & Herrors & _).
      split.
      * etrans; [apply fallbackMetadata_within | exact Hbase].
      * intros buffer' detectedType' Hread' Hsniff'.
        rewrite Hread in Hread'. injection Hread' as <-.
        rewrite Hsniff in Hsniff'. injection Hsniff' as <-.
        by exists checksum, s1.
    + destruct Hf as (e & s1 & Htry & -> & _). split; [done |].
      intros buffer detectedType Hread Hsniff. exfalso.
      apply analyzeFileEnhanced_try_throws in Htry
        as [Hthrow | [(buffer' & Hread' & Hthrow) | [n Hthrow]]].
      * congruence.
      * rewrite Hread in Hread'. injection Hread' as <-. congruence.
      * specialize (Hurl n). by rewrite Hthrow in Hurl.
  - intros buffer base s0 Hbase. repeat split.
    + destruct (extractEnhancedImageMetadata_safe P file buffer base Hbase s0)
        as (m & s' & ? & _ & ?). by exists m, s'.
    + destruct (extractEnhancedAudioMetadata_safe P file buffer base Hbase s0)
        as (m & s' & ? & _ & ?). by exists m, s'.
    + destruct (extractEnhancedVideoMetadata_safe P file base Hbase s0)
        as (m & s' & ? & _ & ?). by exists m, s'.
    + destruct (extractAdvancedDocumentMetadata_safe P file buffer base Hbase s0)
        as (m & s' & ? & _ & ?). by exists m, s'.
    + destruct (extractTextMetadata_safe file buffer base Hbase s0)
        as (m & s' & ? & _ & ?). by exists m, s'.
Qed.

Lemma metadata_extends_base_witness :
  (forall n, returned (URL_createObjectURL (sample_platform true) n) = true)
  /\ exists r s',
       analyzeFileEnhanced (sample_platform true) sample_jpeg_as_text fresh_store
       = (Ok r, s')
       /\ forall buffer detectedType,
            file_arrayBuffer sample_jpeg_as_text = Ok buffer ->
            fileTypeFromBuffer (sample_platform true) buffer = Ok detectedType ->
            exists checksum s1,
              calculateChecksum (sample_platform true) buffer (declared fresh_store)
              = (Ok checksum, s1)
              /\ errors r = None
              /\ baseMetadata (sample_platform true) sample_jpeg_as_text detectedType
                   checksum (extractRawHeader buffer 64)
                   ⊆ metadata r.
Proof.
  assert (forall n, returned (URL_createObjectURL (sample_platform true) n) = true)
    as Hurl by (intros n; reflexivity).
  split; [exact Hurl |].
  destruct (metadata_extends_base (sample_platform true) sample_jpeg_as_text
              fresh_store Hurl) as [(r & s' & Hrun & _ & Hbase) _].
  exists r, s'. split; [exact Hrun | exact Hbase].
Defined.

(** The assumption on the host is used: were [URL.createObjectURL] to throw
    on the file, the analysis of [holiday.txt] would leave the [try] block
    after its base record was built, and the six-field record of the outer
    [catch] holds no checksum, raw header or detected type. *)
Lemma fallback_drops_base_fields :
  let P := sample_platform false in
  exists buffer checksum s1 detectedType r s',
    file_arrayBuffer sample_jpeg_as_text = Ok buffer
    /\ calculateChecksum P buffer (declared fresh_store) = (Ok checksum, s1)
    /\ fileTypeFromBuffer P buffer = Ok detectedType
    /\ analyzeFileEnhanced P sample_jpeg_as_text fresh_store = (Ok r, s')
    /\ is_Some (baseMetadata P sample_jpeg_as_text detectedType checksum
                  (extractRawHeader buffer 64) !! "checksum")
    /\ metadata r !! "checksum" = None
    /\ metadata r !! "rawHeader" = None
    /\ metadata r !! "detectedMimeType" = None
    /\ ~ (baseMetadata P sample_jpeg_as_text detectedType checksum
            (extractRawHeader buffer 64) ⊆ metadata r).
Proof.
  eexists _, _, _, _, _, _.
  split; [reflexivity |]. split; [vm_compute; reflexivity |].
  split; [reflexivity |]. split; [vm_compute; reflexivity |].
  split; [by eexists |]. split; [reflexivity |]. split; [reflexivity |].
  split; [reflexivity |].
  intros Hsub. rewrite map_subseteq_spec in Hsub.
  by specialize (Hsub "checksum" _ eq_refl).
Qed.

(** A [try] whose [catch] logs a diagnostic and returns [a]: it returns
    what the body returned, or [a] when the body threw. *)
Lemma try_catch_warn_total {A} (body : M A) (label : string) (a : A) (s : Store) :
  exists v s',
    try_catch body (fun _ => console_warn label ;; ret a) s = (Ok v, s')
    /\ (forall e s1, body s = (Throw e, s1) -> v = a)
    /\ (forall v0 s1, body s = (Ok v0, s1) -> v = v0 /\ s' = s1).
Proof.
  unfold try_catch. destruct (body s) as [[v0|e] s1].
  - exists v0, s1. split; [done |]. split; [done |]. by intros ? ? [= <- <-].
  - eexists _, _. split; [reflexivity |]. split; [done | done].
Qed.

Lemma extractEnhancedAudioMetadata_parser_throws (P : Platform) (file : File)
    (buffer : list byte) (base : gmap string Value) (s : Store) (e : Thrown) :
  parseBuffer P buffer (file_type file) (file_size file) = Throw e ->
  exists s',
    extractEnhancedAudioMetadata P file buffer base s
    = (Ok {| audio_metadata := base; albumArt := None |}, s')
    /\ arrays_kept s s' /\ minted s' = minted s.
Proof.
  intros Hparse.
  unfold extractEnhancedAudioMetadata, try_catch, extractEnhancedAudioMetadata_try.
  unfold bind at 1, call. rewrite Hparse.
  eexists. split; [reflexivity |]. by repeat split.
Qed.

(** C4.  No category extractor raises past its own boundary: for any file,
    buffer, base record and store each of the five returns a record, which
    is the base record itself when anything inside threw and the enriched
    record otherwise.  In particular, when the audio container parser
    throws, the audio extractor returns the base record with no
    audio-specific field and no album art, and an analysis that dispatches
    to it still completes as [audio] with exactly the base record (unless
    the preview URL cannot be minted). *)
Theorem extractors_never_raise (P : Platform) (file : File) (buffer : list byte)
    (base : gmap string Value) (s : Store) :
  (exists m s',
     extractEnhancedImageMetadata P file buffer base s = (Ok m, s')
     /\ (forall e s1, extractEnhancedImageMetadata_try P file buffer base s = (Throw e, s1)
                      -> m = base)
     /\ (forall m0 s1, extractEnhancedImageMetadata_try P file buffer base s = (Ok m0, s1)
                       -> m = m0 /\ s' = s1))
  /\ (exists a s',
        extractEnhancedAudioMetadata P file buffer base s = (Ok a, s')
        /\ (forall e s1,
              extractEnhancedAudioMetadata_try P file buffer base s = (Throw e, s1)
              -> a = {| audio_metadata := base; albumArt := None |})
        /\ (forall a0 s1,
              extractEnhancedAudioMetadata_try P file buffer base s = (Ok a0, s1)
              -> a = a0 /\ s' = s1))
  /\ (exists m s',
        extractEnhancedVideoMetadata P file base s = (Ok m, s')
        /\ (forall e s1, extractEnhancedVideoMetadata_try P file base s = (Throw e, s1)
                         -> m = base)
        /\ (forall m0 s1, extractEnhancedVideoMetadata_try P file base s = (Ok m0, s1)
                          -> m = m0 /\ s' = s1))
  /\ (exists m s',
        extractAdvancedDocumentMetadata P file buffer base s = (Ok m, s')
        /\ (forall e s1,
              extractAdvancedDocumentMetadata_try P file buffer base s = (Throw e, s1)
              -> m = base)
        /\ (forall m0 s1,
              extractAdvancedDocumentMetadata_try P file buffer base s = (Ok m0, s1)
              -> m = m0 /\ s' = s1))
  /\ (exists m s',
        extractTextMetadata file buffer base s = (Ok m, s')
        /\ (forall e s1, extractTextMetadata_try file buffer base s = (Throw e, s1)
                         -> m = base)
        /\ (forall m0 s1, extractTextMetadata_try file buffer base s = (Ok m0, s1)
                          -> m = m0 /\ s' = s1))
  /\ (forall e,
        parseBuffer P buffer (file_type file) (file_size file) = Throw e ->
        exists s',
          extractEnhancedAudioMetadata P file buffer base s
          = (Ok {| audio_metadata := base; albumArt := None |}, s')
          /\ arrays_kept s s')
  /\ (forall e detectedType,
        file_arrayBuffer file = Ok buffer ->
        fileTypeFromBuffer P buffer = Ok detectedType ->
        determineFileCategory (toLowerCase P)
          (or_string (mime <$> detectedType) (file_type file)) (file_name file) = audio ->
        parseBuffer P buffer (file_type file) (file_size file) = Throw e ->
        exists r s',
          analyzeFileEnhanced P file s = (Ok r, s')
          /\ (errors r = None ->
              category r = audio
              /\ thumbnail r = None
              /\ exists checksum,
                   metadata r
                   = baseMetadata P file detectedType checksum (extractRawHeader buffer 64))).
Proof.
  split; [apply try_catch_warn_total |].
  split; [apply try_catch_warn_total |].
  split; [apply try_catch_warn_total |].
  split; [apply try_catch_warn_total |].
  split; [apply try_catch_warn_total |].
  split.
  { intros e Hparse.
    destruct (extractEnhancedAudioMetadata_parser_throws P file buffer base s e Hparse)
      as (s' & ? & ? & _).
    by exists s'. }
  intros e detectedType Hread Hsniff Hcat Hparse.
  destruct (analyzeFileEnhanced_run P file s) as (r & s' & Hrun & Hcases).
  exists r, s'. split; [done |]. intros Herrors.
  destruct Hcases as [[Hc Htry] | (e0 & s1 & _ & -> & _)]; [| discriminate].
  destruct Hc as (buffer' & checksum' & s1' & detectedType' & Hread' & _ & Hsniff'
                  & _ & Hcat' & _).
  rewrite Hread in Hread'. injection Hread' as <-.
  rewrite Hsniff in Hsniff'. injection Hsniff' as <-.
  split; [by rewrite Hcat' |].
  revert Htry. unfold analyzeFileEnhanced_try. unfold bind at 1, call. rewrite Hread.
  unfold bind at 1.
  destruct (calculateChecksum_safe P buffer (declared s)) as (checksum & sc & Hsum & _).
  rewrite Hsum. unfold bind at 1. rewrite Hsniff. cbv zeta. rewrite Hcat.
  unfold bind at 1. cbn [extractByCategory]. unfold bind at 1.
  destruct (extractEnhancedAudioMetadata_parser_throws P file buffer
              (baseMetadata P file detectedType checksum (extractRawHeader buffer 64))
              sc e Hparse) as (s2 & -> & _).
  cbv zeta. unfold bind at 1, createObjectURL.
  destruct (URL_createObjectURL P (minted s2)); [| discriminate].
  unfold validateDetectedType, bind, get_errors, get_warnings, ret, warnings_push.
  destruct detectedType as [detected|]; [destruct (type_mismatch detected file) |];
    simpl; intros [= <- <-]; (split; [done | by exists checksum]).
Qed.

(** ** Bytes and markers *)

Lemma byte_value_range (b : byte) : 0 <= byte_value b < 256.
Proof. unfold byte_value. pose proof (Byte.to_N_bounded b). lia. Qed.

Lemma byte_value_inj (a b : byte) : byte_value a = byte_value b -> a = b.
Proof.
  unfold byte_value. intros H. apply N2Z.inj in H.
  pose proof (Byte.of_to_N a) as Ha. rewrite H, Byte.of_to_N in Ha. congruence.
Qed.

Lemma lor_is_add (h l : Z) :
  0 <= h -> 0 <= l < 256 -> Z.lor (Z.shiftl h 8) l = h * 256 + l.
Proof.
  intros Hh Hl. rewrite <- Z.add_nocarry_lor.
  - rewrite Z.shiftl_mul_pow2 by lia. lia.
  - apply Z.bits_inj'. intros n Hn. rewrite Z.land_spec, Z.bits_0.
    destruct (Z.lt_ge_cases n 8).
    + by rewrite Z.shiftl_spec_low by lia.
    + rewrite (Z.bits_above_log2 l n); [apply andb_false_r | lia |].
      destruct (Z.eq_dec l 0) as [->|]; [simpl; lia |].
      assert (Z.log2 l < 8); [| lia]. apply Z.log2_lt_pow2; lia.
Qed.

Lemma land_high_byte (m : Z) :
  0 <= m < 65536 -> Z.land m 0xFF00 = 256 * (m / 256).
Proof.
  intros Hm.
  assert (Z.land m 0xFF00 = Z.shiftl (Z.shiftr m 8) 8) as ->.
  { apply Z.bits_inj'. intros n Hn. rewrite Z.land_spec.
    destruct (Z.lt_ge_cases n 8).
    - rewrite Z.shiftl_spec_low by lia.
      change 0xFF00 with (Z.shiftl 255 8).
      rewrite Z.shiftl_spec_low by lia. apply andb_false_r.
    - rewrite Z.shiftl_spec, Z.shiftr_spec by lia.
      replace (n - 8 + 8) with n by lia.
      destruct (Z.lt_ge_cases n 16).
      + change 0xFF00 with (Z.shiftl (Z.ones 8) 8).
        rewrite Z.shiftl_spec, Z.ones_spec_low by lia. apply andb_true_r.
      + rewrite (Z.bits_above_log2 m n); [done | lia |].
        destruct (Z.eq_dec m 0) as [->|]; [simpl; lia |].
        assert (Z.log2 m < 16); [| lia]. apply Z.log2_lt_pow2; lia. }
  rewrite Z.shiftl_mul_pow2, Z.shiftr_div_pow2 by lia. change (2 ^ 8) with 256. lia.
Qed.

Lemma land_low_byte (m : Z) : 0 <= m -> Z.land m 0xFF = m mod 256.
Proof. intros Hm. change 0xFF with (Z.ones 8). by rewrite Z.land_ones by lia. Qed.

(** What a successful [getUint16] read. *)
Lemma getUint16_inv (buffer : list byte) (offset m : Z) :
  getUint16 buffer offset = Ok m ->
  exists hi lo,
    0 <= offset
    /\ buffer !! Z.to_nat offset = Some hi
    /\ buffer !! Z.to_nat (offset + 1) = Some lo
    /\ m = byte_value hi * 256 + byte_value lo.
Proof.
  unfold getUint16. destruct (_ && _) eqn:Hbounds; [| discriminate].
  apply andb_true_iff in Hbounds as [Hlow _]. apply Z.leb_le in Hlow.
  destruct (buffer !! Z.to_nat offset) as [hi|]; [| discriminate].
  destruct (buffer !! Z.to_nat (offset + 1)) as [lo|]; [| discriminate].
  intros [= <-]. exists hi, lo.
  pose proof (byte_value_range hi). pose proof (byte_value_range lo).
  by rewrite lor_is_add by lia.
Qed.

Lemma getUint16_range (buffer : list byte) (offset m : Z) :
  getUint16 buffer offset = Ok m -> 0 <= m < 65536.
Proof.
  intros (hi & lo & _ & _ & _ & ->)%getUint16_inv.
  pose proof (byte_value_range hi). pose proof (byte_value_range lo). lia.
Qed.

(** The two mask tests of the loop single out the APP0 marker bytes. *)
Lemma app0_marker_bytes (buffer : list byte) (offset marker : Z) :
  getUint16 buffer offset = Ok marker ->
  Z.land marker 0xFF00 = 0xFF00 ->
  Z.land marker 0xFF = 0xE0 ->
  byte_value <$> buffer !! Z.to_nat offset = Some 0xFF
  /\ byte_value <$> buffer !! Z.to_nat (offset + 1) = Some 0xE0.
Proof.
  intros (hi & lo & _ & -> & -> & ->)%getUint16_inv.
  pose proof (byte_value_range hi). pose proof (byte_value_range lo).
  rewrite land_high_byte, land_low_byte by lia.
  intros Hhigh Hlow. simpl. split; f_equal.
  - assert ((byte_value hi * 256 + byte_value lo) / 256 = byte_value hi) as Hq.
    { rewrite Z.add_comm, Z.div_add by lia. rewrite Z.div_small by lia. lia. }
    lia.
  - by rewrite Z.add_comm, Z_mod_plus_full, Z.mod_small in Hlow by lia.
Qed.

(** ** The marker scan *)

(** A turn of the loop that goes on moves the offset forward by at least
    two, keeps both blocks present, and replaces the JFIF block only at an
    APP0 header that carries the JFIF identifier. *)
Lemma jpeg_segment_inv (buffer : list byte) (offset : Z) (result : JpegAnalysisResult)
    (offset' : Z) (result' : JpegAnalysisResult) :
  jpeg_segment buffer offset result = Ok (Continue offset' result') ->
  offset + 2 <= offset'
  /\ (is_Some (encoding result) -> is_Some (encoding result'))
  /\ (is_Some (jfif result) -> is_Some (jfif result'))
  /\ (jfif result' = jfif result \/ jfif_header_at buffer offset = true).
Proof.
  unfold jpeg_segment, read.
  destruct (getUint16 buffer offset) as [marker|] eqn:Hmarker; [| discriminate].
  destruct (negb (Z.land marker 0xFF00 =? 0xFF00)) eqn:Hff; [discriminate |].
  apply negb_false_iff, Z.eqb_eq in Hff.
  destruct (Z.land marker 0xFF =? 0xE0) eqn:Happ0;
    [| destruct (Z.land marker 0xFF =? 0xC0)].
  - apply Z.eqb_eq in Happ0.
    destruct (getUint16 buffer (offset + 2)) as [len|] eqn:Hlen; [| discriminate].
    apply getUint16_range in Hlen.
    destruct (jsstring_eqb _ JFIF_identifier) eqn:Hid.
    + destruct (getUint8 buffer (offset + 2 + 7)); [| discriminate].
      destruct (getUint8 buffer (offset + 2 + 8)); [| discriminate].
      destruct (getUint8 buffer (offset + 2 + 9)); [| discriminate].
      destruct (getUint16 buffer (offset + 2 + 10)); [| discriminate].
      destruct (getUint16 buffer (offset + 2 + 12)); [| discriminate].
      intros [= <- <-]. simpl. split; [lia |]. split; [done |]. split; [done |].
      right. unfold jfif_header_at.
      destruct (app0_marker_bytes _ _ _ Hmarker Hff Happ0) as [-> ->].
      rewrite !bool_decide_eq_true_2 by done. simpl.
      by replace (offset + 4) with (offset + 2 + 2) by lia;
         replace (offset + 9) with (offset + 2 + 7) by lia.
    + intros [= <- <-]. split; [lia |]. by repeat split; try left.
  - destruct (getUint16 buffer (offset + 2)) as [len|] eqn:Hlen; [| discriminate].
    apply getUint16_range in Hlen.
    destruct (getUint8 buffer (offset + 2 + 2)); [| discriminate].
    destruct (getUint8 buffer (offset + 2 + 7)); [| discriminate].
    intros [= <- <-]. simpl. split; [lia |]. by repeat split; try left.
  - destruct (getUint16 buffer (offset + 2)) as [len|] eqn:Hlen; [| discriminate].
    apply getUint16_range in Hlen.
    intros [= <- <-]. split; [lia |]. by repeat split; try left.
Qed.

(** The loop ends: once the fuel covers the bytes that are left, more fuel
    changes nothing.  [analyzeJPEGStructure] starts it with the buffer
    length. *)
Lemma jpeg_scan_fuel (fuel1 fuel2 : nat) (buffer : list byte) (offset : Z)
    (result : JpegAnalysisResult) :
  byteLength buffer - 1 - offset <= Z.of_nat fuel1 ->
  byteLength buffer - 1 - offset <= Z.of_nat fuel2 ->
  jpeg_scan fuel1 buffer offset result = jpeg_scan fuel2 buffer offset result.
Proof.
  revert fuel2 offset result.
  induction fuel1 as [|fuel1 IH]; intros fuel2 offset result H1 H2.
  - destruct fuel2; simpl; [done |].
    by rewrite (proj2 (Z.ltb_ge _ _)) by lia.
  - destruct fuel2; simpl.
    + by rewrite (proj2 (Z.ltb_ge _ _)) by lia.
    + destruct (offset <? byteLength buffer - 1); [| done].
      destruct (jpeg_segment buffer offset result) as [[|offset' result']|] eqn:Hseg;
        [done | | done].
      apply jpeg_segment_inv in Hseg as [Hforward _]. apply IH; lia.
Qed.

Lemma jpeg_scan_blocks (fuel : nat) (buffer : list byte) (offset : Z)
    (result : JpegAnalysisResult) :
  is_Some (encoding result) -> is_Some (jfif result) ->
  is_Some (encoding (jpeg_scan fuel buffer offset result).1)
  /\ is_Some (jfif (jpeg_scan fuel buffer offset result).1).
Proof.
  revert offset result. induction fuel as [|fuel IH]; intros offset result He Hj;
    simpl; [done |].
  destruct (offset <? byteLength buffer - 1); [| done].
  destruct (jpeg_segment buffer offset result) as [[|offset' result']|] eqn:Hseg;
    [done | | done].
  apply jpeg_segment_inv in Hseg as (_ & He' & Hj' & _). apply IH; auto.
Qed.

(** The JFIF block survives the scan of a region without JFIF headers. *)
Lemma jpeg_scan_keeps_jfif (fuel : nat) (buffer : list byte) (offset : Z)
    (result : JpegAnalysisResult) :
  (forall p, offset <= p -> jfif_header_at buffer p = false) ->
  jfif (jpeg_scan fuel buffer offset result).1 = jfif result.
Proof.
  revert offset result. induction fuel as [|fuel IH]; intros offset result Hnone;
    simpl; [done |].
  destruct (offset <? byteLength buffer - 1); [| done].
  destruct (jpeg_segment buffer offset result) as [[|offset' result']|] eqn:Hseg;
    [done | | done].
  apply jpeg_segment_inv in Hseg as (Hforward & _ & _ & [Hsame | Hheader]).
  - rewrite IH; [done |]. intros p Hp. apply Hnone. lia.
  - rewrite Hnone in Hheader by lia. discriminate.
Qed.

(** Both blocks of the analysis are always present, as objects. *)
Lemma analyzeJPEGStructure_blocks (buffer : list byte) (s : Store) r s' :
  analyzeJPEGStructure buffer s = (Ok r, s') ->
  is_Some (encoding r) /\ is_Some (jfif r).
Proof.
  unfold analyzeJPEGStructure.
  destruct (getUint16 buffer 0) as [soi|e]; [| by intros [= <- <-]].
  destruct (negb (soi =? 0xFFD8)); [by intros [= <- <-] |].
  pose proof (jpeg_scan_blocks (length buffer) buffer 2
                {| encoding := Some empty_encoding; jfif := Some empty_jfif |}) as Hb.
  destruct (jpeg_scan _ _ _ _) as [result [e|]]; intros [= <- <-]; by apply Hb.
Qed.

(** Reads that stay inside a prefix of the buffer do not see the rest. *)
Lemma getUint16_app (pre rest : list byte) (offset : Z) :
  offset + 2 <= byteLength pre ->
  getUint16 (pre ++ rest) offset = getUint16 pre offset.
Proof.
  intros Hin. unfold getUint16, byteLength in *. rewrite length_app.
  destruct (0 <=? offset) eqn:Hlow; [| done]. apply Z.leb_le in Hlow.
  rewrite !(proj2 (Z.leb_le _ _)) by lia. simpl.
  by rewrite !lookup_app_l by lia.
Qed.

Lemma getUint8_app (pre rest : list byte) (offset : Z) :
  offset + 1 <= byteLength pre ->
  getUint8 (pre ++ rest) offset = getUint8 pre offset.
Proof.
  intros Hin. unfold getUint8, byteLength in *. rewrite length_app.
  destruct (0 <=? offset) eqn:Hlow; [| done]. apply Z.leb_le in Hlow.
  rewrite !(proj2 (Z.leb_le _ _)) by lia. simpl.
  by rewrite !lookup_app_l by lia.
Qed.

Lemma slice_app (pre rest : list byte) (begin_ end_ : Z) :
  0 <= begin_ <= end_ -> end_ <= byteLength pre ->
  slice (pre ++ rest) begin_ end_ = slice pre begin_ end_.
Proof.
  intros Horder Hin. unfold slice, byteLength in *.
  rewrite drop_app_le by lia. apply take_app_le. rewrite length_drop. lia.
Qed.

Lemma jfif_header_length (length_hi length_lo : byte) :
  byteLength (jfif_header length_hi length_lo) = 18.
Proof. reflexivity. Qed.

Lemma jpeg_segment_example (length_hi length_lo : byte) (rest : list byte)
    (result : JpegAnalysisResult) :
  jpeg_segment (jfif_header length_hi length_lo ++ rest) 2 result
  = Ok (Continue (4 + (byte_value length_hi * 256 + byte_value length_lo))
          {| encoding := encoding result; jfif := Some example_jfif |}).
Proof.
  unfold jpeg_segment, read.
  rewrite !getUint16_app, !getUint8_app, slice_app
    by (rewrite ?jfif_header_length; lia).
  change (getUint16 (jfif_header length_hi length_lo) 2) with (Ok 0xFFE0 : Outcome Z).
  cbv iota beta zeta.
  change (negb (Z.land 0xFFE0 0xFF00 =? 0xFF00)) with false.
  change (Z.land 65504 255 =? 224) with true.
  cbv iota.
  assert (getUint16 (jfif_header length_hi length_lo) (2 + 2)
          = Ok (byte_value length_hi * 256 + byte_value length_lo)) as ->.
  { pose proof (byte_value_range length_hi). pose proof (byte_value_range length_lo).
    rewrite <- lor_is_add by lia. reflexivity. }
  match goal with
  | |- context [jsstring_eqb ?a ?b] =>
      replace (jsstring_eqb a b) with true by (vm_compute; reflexivity)
  end.
  change (getUint8 (jfif_header length_hi length_lo) (2 + 2 + 7)) with (Ok 1 : Outcome Z).
  change (getUint8 (jfif_header length_hi length_lo) (2 + 2 + 8)) with (Ok 1 : Outcome Z).
  change (getUint8 (jfif_header length_hi length_lo) (2 + 2 + 9)) with (Ok 1 : Outcome Z).
  change (getUint16 (jfif_header length_hi length_lo) (2 + 2 + 10))
    with (Ok 72 : Outcome Z).
  change (getUint16 (jfif_header length_hi length_lo) (2 + 2 + 12))
    with (Ok 72 : Outcome Z).
  cbv iota beta. reflexivity.
Qed.

Lemma analyzeJPEGStructure_not_jpeg (buffer : list byte) (s : Store) :
  (forall rest, buffer <> xff :: xd8 :: rest) ->
  exists s',
    analyzeJPEGStructure buffer s
    = (Ok {| encoding := Some empty_encoding; jfif := Some empty_jfif |}, s')
    /\ arrays_kept s s'.
Proof.
  intros Hstart. unfold analyzeJPEGStructure.
  destruct (getUint16 buffer 0) as [soi|e] eqn:Hsoi.
  - destruct (soi =? 0xFFD8) eqn:Hmarker; simpl.
    + apply Z.eqb_eq in Hmarker. subst soi.
      apply getUint16_inv in Hsoi as (hi & lo & _ & Hhi & Hlo & Hvalue).
      pose proof (byte_value_range hi). pose proof (byte_value_range lo).
      assert (hi = xff) as -> by (apply byte_value_inj; change (byte_value xff) with 255; lia).
      assert (lo = xd8) as -> by (apply byte_value_inj; change (byte_value xd8) with 216; lia).
      destruct buffer as [|a [|b rest]]; try discriminate.
      simpl in Hhi, Hlo. injection Hhi as ->. injection Hlo as ->.
      by destruct (Hstart rest).
    + eexists. split; [reflexivity | apply arrays_kept_refl].
  - eexists. split; [reflexivity | by split].
Qed.

Lemma analyzeJPEGStructure_example (length_hi length_lo : byte) (rest : list byte)
    (s : Store) :
  (forall p, 2 < p -> jfif_header_at (jfif_header length_hi length_lo ++ rest) p = false) ->
  exists r s',
    analyzeJPEGStructure (jfif_header length_hi length_lo ++ rest) s = (Ok r, s')
    /\ jfif r = Some example_jfif.
Proof.
  intros Hnone. unfold analyzeJPEGStructure.
  rewrite getUint16_app by (rewrite jfif_header_length; lia).
  change (getUint16 (jfif_header length_hi length_lo) 0) with (Ok 0xFFD8 : Outcome Z).
  change (negb (0xFFD8 =? 0xFFD8)) with false. cbv iota.
  set (buffer := jfif_header length_hi length_lo ++ rest) in *.
  assert (exists fuel, length buffer = S fuel) as [fuel ->].
  { unfold buffer. rewrite length_app. simpl. by eexists. }
  cbn [jpeg_scan].
  assert ((2 <? byteLength buffer - 1) = true) as ->.
  { apply Z.ltb_lt. unfold buffer, byteLength. rewrite length_app. simpl. lia. }
  unfold buffer at 1. rewrite jpeg_segment_example. fold buffer.
  pose proof (byte_value_range length_hi). pose proof (byte_value_range length_lo).
  pose proof (jpeg_scan_keeps_jfif fuel buffer
                (4 + (byte_value length_hi * 256 + byte_value length_lo))
                {| encoding := Some empty_encoding; jfif := Some example_jfif |}) as Hkeep.
  assert (jfif (jpeg_scan fuel buffer
                  (4 + (byte_value length_hi * 256 + byte_value length_lo))
                  {| encoding := Some empty_encoding; jfif := Some example_jfif |}).1
          = Some example_jfif) as Hjfif.
  { apply Hkeep. intros p Hp. apply Hnone. lia. }
  destruct (jpeg_scan _ _ _ _) as [r [e|]]; by eexists _, _.
Qed.

Lemma sample_jfif_has_one_header (p : Z) :
  2 < p -> jfif_header_at (jfif_header x00 x10 ++ [x00; x00]) p = false.
Proof.
  intros Hp. unfold jfif_header_at.
  assert (exists n, Z.to_nat p = (3 + n)%nat) as [n ->] by (exists (Z.to_nat p - 3)%nat; lia).
  do 17 (destruct n as [|n]; [reflexivity |]). reflexivity.
Qed.

(** C7, as the code has it.  On a buffer that starts with [FF D8] followed
    by the APP0/JFIF segment of the example and that holds no further APP0
    header with the JFIF identifier, the analysis yields version ["1.01"],
    unit ["inches"] and a resolution of 72 by 72.  On a buffer that does
    not start with [FF D8], too short ones included, it does not throw and
    yields the two blocks it starts from, both empty objects.  It never
    throws and always returns both blocks. *)
Theorem analyzeJPEGStructure_jfif_example_and_non_jpeg :
  (forall length_hi length_lo rest s,
     (forall p, 2 < p ->
                jfif_header_at (jfif_header length_hi length_lo ++ rest) p = false) ->
     exists r s',
       analyzeJPEGStructure (jfif_header length_hi length_lo ++ rest) s = (Ok r, s')
       /\ jfif r = Some example_jfif)
  /\ (forall buffer s,
        (forall rest, buffer <> xff :: xd8 :: rest) ->
        exists s',
          analyzeJPEGStructure buffer s
          = (Ok {| encoding := Some empty_encoding; jfif := Some empty_jfif |}, s')
          /\ arrays_kept s s')
  /\ (forall buffer s,
        exists r s',
          analyzeJPEGStructure buffer s = (Ok r, s')
          /\ is_Some (encoding r) /\ is_Some (jfif r))
  /\ ((forall p, 2 < p -> jfif_header_at (jfif_header x00 x10 ++ [x00; x00]) p = false)
      /\ analyzeJPEGStructure (jfif_header x00 x10 ++ [x00; x00]) fresh_store
         = (Ok {| encoding := Some empty_encoding; jfif := Some example_jfif |},
            fresh_store)).
Proof.
  split; [intros; by apply analyzeJPEGStructure_example |].
  split; [intros; by apply analyzeJPEGStructure_not_jpeg |].
  split.
  { intros buffer s.
    destruct (analyzeJPEGStructure_safe buffer s) as (r & s' & Hrun & _).
    exists r, s'. split; [done |]. by eapply analyzeJPEGStructure_blocks. }
  split; [apply sample_jfif_has_one_header | reflexivity].
Qed.

(** C7 as stated fails twice.  A buffer without the start-of-image marker,
    the empty one for instance, yields a JFIF block and an encoding block:
    the empty objects.  And a buffer that starts with [FF D8] and the
    example's segment yields the values of a later JFIF segment when it has
    one: here version ["1.02"], no unit, 1 by 1. *)
Lemma analyzeJPEGStructure_empty_blocks_and_last_header :
  (exists r s',
     analyzeJPEGStructure [] fresh_store = (Ok r, s')
     /\ jfif r = Some empty_jfif /\ encoding r = Some empty_encoding
     /\ jfif r <> None /\ encoding r <> None)
  /\ (exists rest r s',
        two_jfif_headers = jfif_header x00 x10 ++ rest
        /\ analyzeJPEGStructure two_jfif_headers fresh_store = (Ok r, s')
        /\ jfif r = Some {| version := Some (js "1.02");
                            resolutionUnit := Some (js "None");
                            xResolution := Some 1;
                            yResolution := Some 1 |}
        /\ jfif r <> Some example_jfif).
Proof.
  split.
  - eexists _, _. split; [reflexivity |]. by repeat split.
  - eexists _, _, _. split; [reflexivity |]. split; [reflexivity |].
    split; [reflexivity | discriminate].
Qed.

(** ** Record lookups *)

Lemma extend_snoc (o : gmap string Value) (fields : list (string * Value))
    (k : string) (v : Value) :
  extend o (fields ++ [(k, v)]) = <[k := v]> (extend o fields).
Proof. unfold extend. by rewrite foldl_app. Qed.

(** Reading a field of [{ ...o, k1: v1, ..., kn: vn }]: the last of the
    listed fields with that name, else the field of [o]. *)
Lemma extend_lookup (o : gmap string Value) (fields : list (string * Value))
    (key : string) :
  extend o fields !! key
  = match find (fun kv => String.eqb kv.1 key) (rev fields) with
    | Some kv => Some kv.2
    | None => o !! key
    end.
Proof.
  induction fields as [|[k v] fields IH] using rev_ind; [done |].
  rewrite extend_snoc, rev_unit. cbn [find fst snd].
  destruct (String.eqb k key) eqn:Hk.
  - apply String.eqb_eq in Hk as ->. apply lookup_insert_eq.
  - apply String.eqb_neq in Hk. by rewrite lookup_insert_ne.
Qed.

(** ** The text extractor *)

Lemma lineEndings_priority (buffer : list byte) :
  let decoded := TextDecoder_decode buffer in
  (occurs_in [CR; LF] decoded -> lineEndings (textStats buffer) = js "CRLF (Windows)")
  /\ (~ occurs_in [CR; LF] decoded -> occurs_in [LF] decoded ->
      lineEndings (textStats buffer) = js "LF (Unix)")
  /\ (~ occurs_in [LF] decoded -> occurs_in [CR] decoded ->
      lineEndings (textStats buffer) = js "CR (Mac)")
  /\ (~ occurs_in [LF] decoded -> ~ occurs_in [CR] decoded ->
      lineEndings (textStats buffer) = js "unknown").
Proof.
  intros decoded. unfold textStats. cbn [lineEndings]. fold decoded.
  assert (occurs_in [CR; LF] decoded -> occurs_in [LF] decoded) as Hcrlf.
  { intros (before & after & ->). exists (before ++ [CR]), after.
    by rewrite <- !app_assoc. }
  pose proof (str_includes_spec [CR; LF] decoded) as H1.
  pose proof (str_includes_spec [LF] decoded) as H2.
  pose proof (str_includes_spec [CR] decoded) as H3.
  destruct (str_includes [CR; LF] decoded); destruct (str_includes [LF] decoded);
    destruct (str_includes [CR] decoded);
    repeat split; intros; try reflexivity; exfalso; intuition discriminate.
Qed.

Lemma extractTextMetadata_fields (file : File) (buffer : list byte)
    (base : gmap string Value) (s : Store) :
  exists m,
    extractTextMetadata file buffer base s = (Ok m, s)
    /\ m !! "charset" = Some (VStr (js "UTF-8"))
    /\ m !! "lineEndings" = Some (VStr (lineEndings (textStats buffer)))
    /\ m !! "bom" = Some (VBool (bom (textStats buffer)))
    /\ m !! "wordCount" = Some (VNum (wordCount (textStats buffer)))
    /\ m !! "lineCount" = Some (VNum (lineCount (textStats buffer)))
    /\ m !! "characterCount" = Some (VNum (characterCount (textStats buffer))).
Proof.
  eexists. split; [reflexivity |].
  repeat split; by rewrite extend_lookup.
Qed.

(** C6.  On the five characters of "a b", a line feed and "c" the text
    extractor counts 2 lines, 3 words and 5 characters, reports LF line
    endings and no byte-order mark; on [EF BB BF] followed by "hi", CR LF and
    "there" it reports a byte-order mark and CRLF line endings.  For every
    input the line-ending style is CRLF when the decoded text contains CR LF,
    else LF when it contains a line feed, else CR when it contains a carriage
    return, else unknown; a text with both CR LF and a bare LF is CRLF. *)
Theorem textStats_examples_and_line_endings :
  textStats text_example_lf
  = {| lineEndings := js "LF (Unix)"; bom := false;
       wordCount := 3; lineCount := 2; characterCount := 5 |}
  /\ bom (textStats text_example_bom) = true
  /\ lineEndings (textStats text_example_bom) = js "CRLF (Windows)"
  /\ (forall buffer,
        let decoded := TextDecoder_decode buffer in
        (occurs_in [CR; LF] decoded ->
         lineEndings (textStats buffer) = js "CRLF (Windows)")
        /\ (~ occurs_in [CR; LF] decoded -> occurs_in [LF] decoded ->
            lineEndings (textStats buffer) = js "LF (Unix)")
        /\ (~ occurs_in [LF] decoded -> occurs_in [CR] decoded ->
            lineEndings (textStats buffer) = js "CR (Mac)")
        /\ (~ occurs_in [LF] decoded -> ~ occurs_in [CR] decoded ->
            lineEndings (textStats buffer) = js "unknown"))
  /\ (forall file buffer base s,
        exists m,
          extractTextMetadata file buffer base s = (Ok m, s)
          /\ m !! "charset" = Some (VStr (js "UTF-8"))
          /\ m !! "lineEndings" = Some (VStr (lineEndings (textStats buffer)))
          /\ m !! "bom" = Some (VBool (bom (textStats buffer)))
          /\ m !! "wordCount" = Some (VNum (wordCount (textStats buffer)))
          /\ m !! "lineCount" = Some (VNum (lineCount (textStats buffer)))
          /\ m !! "characterCount" = Some (VNum (characterCount (textStats buffer)))).
Proof.
  split; [reflexivity |]. split; [reflexivity |]. split; [reflexivity |].
  split; [apply lineEndings_priority | apply extractTextMetadata_fields].
Qed.

(** ** JPEG analysis inside the image extractor *)

Lemma is_string_spec (literal : string) (v : Value) :
  is_string literal v = true <-> v = VStr (js literal).
Proof.
  destruct v; simpl; try (split; [discriminate | discriminate]).
  rewrite jsstring_eqb_eq. split; [by intros -> | by intros [= ->]].
Qed.

Lemma jpeg_declared_spec (file : File) (base : gmap string Value) :
  jpeg_declared file base = true
  <-> file_type file = js "image/jpeg"
      \/ prop base "extension" = VStr (js "jpg")
      \/ prop base "extension" = VStr (js "jpeg").
Proof.
  unfold jpeg_declared.
  rewrite !orb_true_iff, jsstring_eqb_eq, !is_string_spec. tauto.
Qed.

(** What the image extractor's body returns holds the blocks of a JPEG
    analysis when the file is declared a JPEG, and [undefined] in both
    places otherwise. *)
Lemma extractEnhancedImageMetadata_try_jpeg (P : Platform) (file : File)
    (buffer : list byte) (base : gmap string Value) :
  framed (extractEnhancedImageMetadata_try P file buffer base)
    (fun m =>
       if jpeg_declared file base
       then exists info s1 s2,
              analyzeJPEGStructure buffer s1 = (Ok info, s2)
              /\ m !! "jfif" = Some (jfif_value (jfif info))
              /\ m !! "encoding" = Some (encoding_value (encoding info))
       else m !! "jfif" = Some VUndefined /\ m !! "encoding" = Some VUndefined).
Proof.
  unfold extractEnhancedImageMetadata_try.
  frame_bind. frame_bind. destruct a0 as [width height]. cbv zeta.
  frame_bind.
  eapply (framed_bind _ _
            (fun info =>
               if jpeg_declared file base
               then exists s1 s2, analyzeJPEGStructure buffer s1 = (Ok info, s2)
               else info = {| encoding := None; jfif := None |})).
  - destruct (jpeg_declared file base); [| by apply framed_ret].
    intros s o s' Hrun. split.
    + by apply (safe_framed _ _ (analyzeJPEGStructure_safe buffer) _ _ _ Hrun).
    + intros info ->. by exists s, s'.
  - intros info Hinfo. apply framed_ret.
    destruct (jpeg_declared file base).
    + destruct Hinfo as (s1 & s2 & Hrun). exists info, s1, s2.
      split; [done |]. by rewrite !extend_lookup.
    + subst info. by rewrite !extend_lookup.
Qed.

Lemma jfif_value_defined (info : JpegAnalysisResult) :
  is_Some (jfif info) -> jfif_value (jfif info) <> VUndefined.
Proof. by intros [block ->]. Qed.

Lemma encoding_value_defined (info : JpegAnalysisResult) :
  is_Some (encoding info) -> encoding_value (encoding info) <> VUndefined.
Proof. by intros [block ->]. Qed.

Lemma baseMetadata_extension (P : Platform) (file : File)
    (detectedType : option FileTypeResult) (checksum rawHeader : jsstring) :
  prop (baseMetadata P file detectedType checksum rawHeader) "extension"
  = VStr (extensionOf (toLowerCase P) (file_name file)).
Proof. unfold prop, baseMetadata, object. by rewrite extend_lookup. Qed.

Lemma baseMetadata_no_jpeg_blocks (P : Platform) (file : File)
    (detectedType : option FileTypeResult) (checksum rawHeader : jsstring) :
  prop (baseMetadata P file detectedType checksum rawHeader) "jfif" = VUndefined
  /\ prop (baseMetadata P file detectedType checksum rawHeader) "encoding" = VUndefined.
Proof. unfold prop, baseMetadata, object. by rewrite !extend_lookup. Qed.

(** C10.  The image extractor walks the JPEG marker segments only when
    the declared MIME type is [image/jpeg] or the lower-cased extension is
    [jpg] or [jpeg]: then its record holds the blocks of the analysis, and
    otherwise [jfif] and [encoding] are [undefined].  A file whose bytes
    sniff as [image/jpeg] while its declared type and extension say
    otherwise is still an [image], without any JPEG block. *)
Theorem jpeg_structure_only_when_declared (P : Platform) (file : File)
    (buffer : list byte) (s : Store) :
  (forall base,
     jpeg_declared file base = true
     <-> file_type file = js "image/jpeg"
         \/ prop base "extension" = VStr (js "jpg")
         \/ prop base "extension" = VStr (js "jpeg"))
  /\ (forall base m s',
        extractEnhancedImageMetadata_try P file buffer base s = (Ok m, s') ->
        if jpeg_declared file base
        then exists info s1 s2,
               analyzeJPEGStructure buffer s1 = (Ok info, s2)
               /\ m !! "jfif" = Some (jfif_value (jfif info))
               /\ m !! "encoding" = Some (encoding_value (encoding info))
               /\ prop m "jfif" <> VUndefined
               /\ prop m "encoding" <> VUndefined
        else m !! "jfif" = Some VUndefined /\ m !! "encoding" = Some VUndefined)
  /\ (forall detected,
        file_arrayBuffer file = Ok buffer ->
        fileTypeFromBuffer P buffer = Ok (Some detected) ->
        mime detected = js "image/jpeg" ->
        file_type file <> js "image/jpeg" ->
        extensionOf (toLowerCase P) (file_name file) <> js "jpg" ->
        extensionOf (toLowerCase P) (file_name file) <> js "jpeg" ->
        exists r s',
          analyzeFileEnhanced P file s = (Ok r, s')
          /\ (errors r = None ->
              category r = image
              /\ prop (metadata r) "jfif" = VUndefined
              /\ prop (metadata r) "encoding" = VUndefined)).
Proof.
  split; [intros; apply jpeg_declared_spec |]. split.
  { intros base m s' Hrun.
    destruct (extractEnhancedImageMetadata_try_jpeg P file buffer base _ _ _ Hrun)
      as [_ Hm].
    specialize (Hm m eq_refl). destruct (jpeg_declared file base); [| done].
    destruct Hm as (info & s1 & s2 & Hinfo & Hjfif & Hencoding).
    exists info, s1, s2. split; [done |]. split; [done |]. split; [done |].
    apply analyzeJPEGStructure_blocks in Hinfo as [He Hj].
    unfold prop. rewrite Hjfif, Hencoding.
    split; [by apply jfif_value_defined | by apply encoding_value_defined]. }
  intros detected Hread Hsniff Hmime Htype Hjpg Hjpeg.
  destruct (analyzeFileEnhanced_run P file s) as (r & s' & Hrun & Hcases).
  exists r, s'. split; [done |]. intros Herrors.
  destruct Hcases as [[Hc Htry] | (e0 & s1 & _ & -> & _)]; [| discriminate].
  assert (determineFileCategory (toLowerCase P)
            (or_string (mime <$> Some detected) (file_type file)) (file_name file)
          = image) as Hcat.
  { simpl. by rewrite Hmime. }
  revert Htry. unfold analyzeFileEnhanced_try. unfold bind at 1, call. rewrite Hread.
  unfold bind at 1.
  destruct (calculateChecksum_safe P buffer (declared s)) as (checksum & sc & Hsum & _).
  rewrite Hsum. unfold bind at 1. rewrite Hsniff. cbv zeta. rewrite Hcat.
  set (base := baseMetadata P file (Some detected) checksum (extractRawHeader buffer 64)).
  assert (jpeg_declared file base = false) as Hdeclared.
  { apply not_true_iff_false. rewrite jpeg_declared_spec.
    unfold base. rewrite baseMetadata_extension.
    intros [? | [[= ?] | [= ?]]]; done. }
  unfold bind at 1. cbn [extractByCategory]. unfold bind at 1.
  destruct (try_catch_warn_total (extractEnhancedImageMetadata_try P file buffer base)
              "Failed to extract enhanced image metadata:" base sc)
    as (m & s2 & Hextract & Hthrown & Hreturned).
  fold (extractEnhancedImageMetadata P file buffer base) in Hextract.
  rewrite Hextract.
  assert (prop m "jfif" = VUndefined /\ prop m "encoding" = VUndefined) as Hblocks.
  { destruct (extractEnhancedImageMetadata_try P file buffer base sc)
      as [[m0|e] s3] eqn:Hbody.
    - destruct (Hreturned _ _ eq_refl) as [-> _].
      destruct (extractEnhancedImageMetadata_try_jpeg P file buffer base _ _ _ Hbody)
        as [_ Hm].
      specialize (Hm m0 eq_refl). rewrite Hdeclared in Hm. unfold prop.
      by destruct Hm as [-> ->].
    - rewrite (Hthrown _ _ eq_refl). apply baseMetadata_no_jpeg_blocks. }
  unfold bind at 1, createObjectURL.
  destruct (URL_createObjectURL P (minted s2)); [| discriminate].
  unfold validateDetectedType, bind, get_errors, get_warnings, ret, warnings_push.
  destruct (type_mismatch detected file);
    cbn [errors_arr warnings_arr]; intros [= <- <-]; by split.
Qed.

(** ** What the marker scan reports *)

Lemma marker_bytes (buffer : list byte) (offset marker low : Z) :
  getUint16 buffer offset = Ok marker ->
  Z.land marker 0xFF00 = 0xFF00 ->
  Z.land marker 0xFF = low ->
  byte_value <$> buffer !! Z.to_nat offset = Some 0xFF
  /\ byte_value <$> buffer !! Z.to_nat (offset + 1) = Some low.
Proof.
  intros (hi & lo & _ & -> & -> & ->)%getUint16_inv.
  pose proof (byte_value_range hi). pose proof (byte_value_range lo).
  rewrite land_high_byte, land_low_byte by lia.
  intros Hhigh Hlow. simpl. split; f_equal.
  - assert ((byte_value hi * 256 + byte_value lo) / 256 = byte_value hi) as Hq.
    { rewrite Z.add_comm, Z.div_add by lia. rewrite Z.div_small by lia. lia. }
    lia.
  - by rewrite Z.add_comm, Z_mod_plus_full, Z.mod_small in Hlow by lia.
Qed.

Lemma getUint8_bounds (buffer : list byte) (offset v : Z) :
  getUint8 buffer offset = Ok v ->
  0 <= offset /\ offset + 1 <= byteLength buffer /\ 0 <= v < 256.
Proof.
  unfold getUint8. destruct (_ && _) eqn:Hbounds; [| discriminate].
  apply andb_true_iff in Hbounds as [Hlow Hhigh].
  apply Z.leb_le in Hlow, Hhigh.
  destruct (buffer !! Z.to_nat offset) as [b|]; [| discriminate].
  intros [= <-]. pose proof (byte_value_range b). lia.
Qed.

Lemma getUint16_bounds (buffer : list byte) (offset v : Z) :
  getUint16 buffer offset = Ok v ->
  0 <= offset /\ offset + 2 <= byteLength buffer /\ 0 <= v < 65536.
Proof.
  intros Hread. pose proof (getUint16_range _ _ _ Hread). revert Hread.
  unfold getUint16. destruct (_ && _) eqn:Hbounds; [| discriminate].
  apply andb_true_iff in Hbounds as [Hlow Hhigh].
  apply Z.leb_le in Hlow, Hhigh. lia.
Qed.

(** One turn of the loop keeps every block empty or read from the buffer. *)
Lemma jpeg_segment_read_from (buffer : list byte) (offset : Z)
    (result : JpegAnalysisResult) (offset' : Z) (result' : JpegAnalysisResult) :
  2 <= offset ->
  read_from buffer result ->
  jpeg_segment buffer offset result = Ok (Continue offset' result') ->
  read_from buffer result'.
Proof.
  intros Hoffset [Hjfif Hencoding]. unfold jpeg_segment, read.
  destruct (getUint16 buffer offset) as [marker|] eqn:Hmarker; [| discriminate].
  destruct (negb (Z.land marker 0xFF00 =? 0xFF00)) eqn:Hff; [discriminate |].
  apply negb_false_iff, Z.eqb_eq in Hff.
  destruct (Z.land marker 0xFF =? 0xE0) eqn:Happ0;
    [| destruct (Z.land marker 0xFF =? 0xC0) eqn:Hsof0].
  - apply Z.eqb_eq in Happ0.
    destruct (getUint16 buffer (offset + 2)) as [len|] eqn:Hlen; [| discriminate].
    destruct (jsstring_eqb _ JFIF_identifier) eqn:Hid.
    + destruct (getUint8 buffer (offset + 2 + 7)) as [major|] eqn:H7; [| discriminate].
      destruct (getUint8 buffer (offset + 2 + 8)) as [minor|] eqn:H8; [| discriminate].
      destruct (getUint8 buffer (offset + 2 + 9)) as [units|] eqn:H9; [| discriminate].
      destruct (getUint16 buffer (offset + 2 + 10)) as [x|] eqn:H10; [| discriminate].
      destruct (getUint16 buffer (offset + 2 + 12)) as [y|] eqn:H12; [| discriminate].
      intros [= <- <-]. split; [| done]. right. eexists offset, _.
      split; [reflexivity |]. exists major, minor, units, x, y.
      replace (offset + 9) with (offset + 2 + 7) by lia.
      replace (offset + 10) with (offset + 2 + 8) by lia.
      replace (offset + 11) with (offset + 2 + 9) by lia.
      replace (offset + 12) with (offset + 2 + 10) by lia.
      replace (offset + 14) with (offset + 2 + 12) by lia.
      repeat split; try done.
      unfold jfif_header_at.
      destruct (marker_bytes _ _ _ _ Hmarker Hff Happ0) as [-> ->].
      rewrite !bool_decide_eq_true_2 by done. simpl.
      by replace (offset + 4) with (offset + 2 + 2) by lia;
         replace (offset + 9) with (offset + 2 + 7) by lia.
    + by intros [= <- <-].
  - apply Z.eqb_eq in Hsof0.
    destruct (getUint16 buffer (offset + 2)) as [len|] eqn:Hlen; [| discriminate].
    destruct (getUint8 buffer (offset + 2 + 2)) as [precision|] eqn:H2; [| discriminate].
    destruct (getUint8 buffer (offset + 2 + 7)) as [components|] eqn:H7; [| discriminate].
    intros [= <- <-]. split; [done |]. right. eexists offset, _.
    split; [reflexivity |]. exists precision, components.
    replace (offset + 4) with (offset + 2 + 2) by lia.
    replace (offset + 9) with (offset + 2 + 7) by lia.
    destruct (marker_bytes _ _ _ _ Hmarker Hff Hsof0) as [? ?].
    by repeat split.
  - destruct (getUint16 buffer (offset + 2)) as [len|] eqn:Hlen; [| discriminate].
    by intros [= <- <-].
Qed.

Lemma jpeg_scan_read_from (fuel : nat) (buffer : list byte) (offset : Z)
    (result : JpegAnalysisResult) :
  2 <= offset ->
  read_from buffer result ->
  read_from buffer (jpeg_scan fuel buffer offset result).1.
Proof.
  revert offset result. induction fuel as [|fuel IH]; intros offset result Hoffset Hr;
    simpl; [done |].
  destruct (offset <? byteLength buffer - 1); [| done].
  destruct (jpeg_segment buffer offset result) as [[|offset' result']|] eqn:Hseg;
    [done | | done].
  pose proof (jpeg_segment_read_from _ _ _ _ _ Hoffset Hr Hseg).
  apply jpeg_segment_inv in Hseg as [Hforward _]. apply IH; [lia | done].
Qed.

(** X1.  The JPEG analyzer reports only what it read: each block of its
    result is the empty object, or holds the values stored after a marker of
    the buffer -- for [jfif] an APP0 marker with the JFIF identifier, which
    takes a buffer of at least 18 bytes, for [encoding] an [FF C0] marker,
    which takes at least 12. *)
Theorem analyzeJPEGStructure_reports_what_it_read (buffer : list byte) (s : Store) :
  exists r s',
    analyzeJPEGStructure buffer s = (Ok r, s')
    /\ read_from buffer r
    /\ (jfif r <> Some empty_jfif -> 18 <= byteLength buffer)
    /\ (encoding r <> Some empty_encoding -> 12 <= byteLength buffer).
Proof.
  destruct (analyzeJPEGStructure_safe buffer s) as (r & s' & Hrun & _).
  exists r, s'. split; [done |].
  assert (read_from buffer r) as Hread.
  { revert Hrun. unfold analyzeJPEGStructure.
    assert (read_from buffer {| encoding := Some empty_encoding;
                                jfif := Some empty_jfif |}) as Hinit
      by (split; by left).
    destruct (getUint16 buffer 0) as [soi|e]; [| by intros [= <- <-]].
    destruct (negb (soi =? 0xFFD8)); [by intros [= <- <-] |].
    pose proof (jpeg_scan_read_from (length buffer) buffer 2 _ (Z.le_refl 2) Hinit) as H.
    destruct (jpeg_scan _ _ _ _) as [result [e|]]; by intros [= <- <-]. }
  split; [done |]. destruct Hread as [Hjfif Hencoding]. split.
  - intros Hne. destruct Hjfif as [? | (offset & block & _ & Hblock)]; [done |].
    destruct Hblock as (? & ? & ? & ? & y & Hoff & _ & _ & _ & _ & _ & Hy & _).
    apply getUint16_bounds in Hy. lia.
  - intros Hne. destruct Hencoding as [? | (offset & block & _ & Hblock)]; [done |].
    destruct Hblock as (? & c & Hoff & _ & _ & _ & Hc & _).
    apply getUint8_bounds in Hc. lia.
Qed.

(** The loop leaves after at most [n] turns when fewer than [2 n] bytes are
    left to scan. *)
Lemma jpeg_loop_total (buffer : list byte) (n : nat) :
  forall offset result,
    byteLength buffer - 1 - offset <= 2 * Z.of_nat n ->
    exists turns out, jpeg_loop buffer offset result turns out /\ (turns <= n)%nat.
Proof.
  induction n as [|n IH]; intros offset result Hleft.
  - exists 0%nat, (result, None). split; [| done].
    apply jpeg_loop_exit, Z.ltb_ge. lia.
  - destruct (offset <? byteLength buffer - 1) eqn:Hcond.
    + destruct (jpeg_segment buffer offset result) as [[|offset' result']|error] eqn:Hseg.
      * exists 1%nat, (result, None). split; [by apply jpeg_loop_break | lia].
      * pose proof (jpeg_segment_inv _ _ _ _ _ Hseg) as [Hforward _].
        destruct (IH offset' result') as (turns & out & Hloop & Hturns); [lia |].
        exists (S turns), out. split; [by eapply jpeg_loop_continue | lia].
      * exists 1%nat, (result, Some error). split; [by apply jpeg_loop_throw | lia].
    + exists 0%nat, (result, None). split; [by apply jpeg_loop_exit | lia].
Qed.

(** The bounded scan computes what the loop does as soon as its bound
    covers the turns the loop takes. *)
Lemma jpeg_loop_scan (buffer : list byte) offset result turns out :
  jpeg_loop buffer offset result turns out ->
  forall fuel, (turns <= fuel)%nat -> jpeg_scan fuel buffer offset result = out.
Proof.
  induction 1 as [offset result Hcond | offset result Hcond Hseg
                  | offset result error Hcond Hseg
                  | offset result offset' result' turns out Hcond Hseg Hloop IH];
    intros fuel Hfuel.
  - destruct fuel; cbn [jpeg_scan]; [done | by rewrite Hcond].
  - destruct fuel; [lia |]. cbn [jpeg_scan]. by rewrite Hcond, Hseg.
  - destruct fuel; [lia |]. cbn [jpeg_scan]. by rewrite Hcond, Hseg.
  - destruct fuel; [lia |]. cbn [jpeg_scan]. rewrite Hcond, Hseg. apply IH. lia.
Qed.

(** X2.  The marker loop terminates.  A turn that goes on moves the offset
    forward by at least two bytes, so the loop entered at offset 2 leaves
    after a number of turns that is at most half the buffer length; the
    bounded scan of the analyzer, and a scan with any bound of at least that
    many turns, returns what the loop returns. *)
Theorem jpeg_scan_terminates (buffer : list byte) (result : JpegAnalysisResult) :
  (forall offset result offset' result',
     jpeg_segment buffer offset result = Ok (Continue offset' result') ->
     offset + 2 <= offset')
  /\ exists turns out,
       jpeg_loop buffer 2 result turns out
       /\ (2 * turns <= length buffer)%nat
       /\ jpeg_scan (length buffer) buffer 2 result = out
       /\ forall fuel, (turns <= fuel)%nat -> jpeg_scan fuel buffer 2 result = out.
Proof.
  split.
  - intros offset result0 offset' result' Hseg.
    by apply jpeg_segment_inv in Hseg as [Hforward _].
  - destruct (jpeg_loop_total buffer (length buffer / 2) 2 result)
      as (turns & out & Hloop & Hturns).
    { unfold byteLength.
      pose proof (Nat.div_mod_eq (length buffer) 2) as Hdiv.
      pose proof (Nat.mod_upper_bound (length buffer) 2). lia. }
    pose proof (Nat.div_mod_eq (length buffer) 2) as Hdiv.
    exists turns, out. split; [done |]. split; [lia |].
    split; [apply (jpeg_loop_scan _ _ _ _ _ Hloop); lia |].
    apply (jpeg_loop_scan _ _ _ _ _ Hloop).
Qed.

(** ** Text statistics *)

Lemma split_length (separator : N) (s : jsstring) :
  length (split separator s) = S (count_occ N.eq_dec s separator).
Proof.
  induction s as [|c s IH]; [done |]. cbn [split count_occ].
  destruct (N.eqb_spec c separator) as [-> | Hne].
  - destruct (N.eq_dec separator separator); [| done]. simpl. by rewrite IH.
  - destruct (N.eq_dec c separator); [done |].
    destruct (split separator s); [discriminate | done].
Qed.

Lemma split_whitespace_words (s : jsstring) :
  (forall in_run,
     length (filter (fun word => (0 < length word)%nat) (split_whitespace in_run s))
     = word_starts true s)
  /\ length (filter (fun word => (0 < length word)%nat)
               (tail (split_whitespace false s)))
     = word_starts false s.
Proof.
  induction s as [|c s [IHa IHb]]; [by split; [intros [] |] |].
  cbn [split_whitespace word_starts]. destruct (is_whitespace c).
  - split; [intros [|] |]; cbn [tail]; rewrite ?filter_cons_False by (simpl; lia);
      apply IHa.
  - destruct (split_whitespace false s) as [|piece pieces] eqn:Hsplit.
    + split; [intros _ |]; simpl in *; lia.
    + cbn [tail] in *. split; [intros _ | done].
      rewrite filter_cons_True by (simpl; lia). simpl. by rewrite IHb.
Qed.

(** X3.  The text extractor counts one line more than the text has line
    feeds -- so at least one, and a final line feed opens a last, empty
    line -- and as many words as the text has places where a
    non-white-space character begins the text or follows white space; the
    character count is the number of UTF-16 code units of the decoded
    text.  An empty buffer has 1 line, 0 words and 0 characters. *)
Theorem textStats_counts (buffer : list byte) :
  let decoded := TextDecoder_decode buffer in
  lineCount (textStats buffer) = 1 + Z.of_nat (count_occ N.eq_dec decoded LF)
  /\ 1 <= lineCount (textStats buffer)
  /\ wordCount (textStats buffer) = Z.of_nat (word_starts true decoded)
  /\ characterCount (textStats buffer) = Z.of_nat (length decoded)
  /\ textStats [] = {| lineEndings := js "unknown"; bom := false;
                       wordCount := 0; lineCount := 1; characterCount := 0 |}.
Proof.
  intros decoded. unfold textStats. cbn [lineCount wordCount characterCount].
  fold decoded. rewrite split_length, (proj1 (split_whitespace_words decoded)).
  repeat split; try lia.
Qed.

Lemma hasBom_spec (buffer : list byte) :
  bom (textStats buffer) = true <-> exists rest, buffer = xef :: xbb :: xbf :: rest.
Proof.
  unfold textStats. cbn [bom]. split.
  - destruct buffer as [|a [|b [|c rest]]]; try discriminate.
    rewrite andb_true_iff. intros [_ Hevery]. revert Hevery.
    unfold every. cbn. rewrite !andb_true_iff, !bool_decide_eq_true.
    intros ([= Ha] & [= Hb] & [= Hc] & _).
    exists rest. f_equal; [| f_equal; [| f_equal]]; by apply byte_value_inj.
  - intros [rest ->]. apply andb_true_iff. split; [| reflexivity].
    apply Z.leb_le. unfold byteLength. simpl. lia.
Qed.

(** X4.  The text extractor reports a byte-order mark exactly when the
    buffer starts with [EF BB BF], and then the decoded text leaves those
    three bytes out: the counts are those of the text that follows the mark
    (a second mark would be kept as a character). *)
Theorem textStats_bom (buffer : list byte) :
  (bom (textStats buffer) = true <-> exists rest, buffer = xef :: xbb :: xbf :: rest)
  /\ (forall rest,
        buffer = xef :: xbb :: xbf :: rest ->
        TextDecoder_decode buffer
        = concat (code_units <$> utf8_decode utf8_initial rest)
        /\ characterCount (textStats buffer)
           = Z.of_nat (length (concat (code_units <$> utf8_decode utf8_initial rest)))).
Proof.
  split; [apply hasBom_spec |]. intros rest ->.
  assert (TextDecoder_decode (xef :: xbb :: xbf :: rest)
          = concat (code_units <$> utf8_decode utf8_initial rest)) as Hdecode
    by reflexivity.
  split; [done |]. unfold textStats. cbn [characterCount]. by rewrite Hdecode.
Qed.

Lemma not_bom_code_point (v : Z) (l : list Z) :
  v < 128 ->
  match v :: l with
  | 65279 :: rest => rest
  | cps => cps
  end = v :: l.
Proof.
  intros Hv. destruct v as [|p|p]; [done | | done].
  do 16 (destruct p as [p|p|]; try done).
Qed.

Lemma utf8_decode_ascii (buffer : list byte) :
  ascii_only buffer ->
  utf8_decode utf8_initial buffer = byte_value <$> buffer.
Proof.
  induction buffer as [|b buffer IH]; intros Hascii; [done |].
  cbn [utf8_decode fmap list_fmap].
  assert (byte_value b < 128) as Hb by (apply Hascii; left).
  pose proof (byte_value_range b).
  unfold utf8_step. cbn [bytes_needed utf8_initial]. change (0 =? 0) with true.
  cbv iota. unfold utf8_lead. rewrite (proj2 (Z.leb_le _ _)) by lia.
  cbn [app]. f_equal. apply IH. intros b' Hb'. apply Hascii. by right.
Qed.

(** X5.  ASCII text decodes to itself: when every byte of the buffer is
    below 128 the decoded text has one code unit per byte, with the byte's
    value, so the character count is the byte length. *)
Theorem textStats_ascii (buffer : list byte) :
  ascii_only buffer ->
  TextDecoder_decode buffer = (fun b => Z.to_N (byte_value b)) <$> buffer
  /\ characterCount (textStats buffer) = byteLength buffer.
Proof.
  intros Hascii.
  assert (TextDecoder_decode buffer = (fun b => Z.to_N (byte_value b)) <$> buffer)
    as Hdecode.
  { unfold TextDecoder_decode. rewrite utf8_decode_ascii by done.
    assert (match byte_value <$> buffer with
            | 65279 :: rest => rest
            | cps => cps
            end = byte_value <$> buffer) as ->.
    { destruct buffer as [|b buffer]; [done |]. cbn [fmap list_fmap].
      apply not_bom_code_point. apply Hascii. by left. }
    clear Hascii. induction buffer as [|b buffer IH]; [done |].
    cbn [fmap list_fmap concat]. rewrite IH.
    pose proof (byte_value_range b). unfold code_units.
    by rewrite (proj2 (Z.ltb_lt _ _)) by lia. }
  split; [done |]. unfold textStats. cbn [characterCount].
  by rewrite Hdecode, length_fmap.
Qed.

Lemma textStats_ascii_witness :
  characterCount (textStats text_example_lf) = byteLength text_example_lf.
Proof.
  apply (textStats_ascii text_example_lf).
  intros b Hb. apply list_elem_of_In in Hb. simpl in Hb.
  destruct Hb as [<- | [<- | [<- | [<- | [<- | []]]]]]; vm_compute; reflexivity.
Defined.

(** ** Checksum and raw header *)

Lemma toInt32_range (z : Z) : - 2 ^ 31 <= toInt32 z < 2 ^ 31.
Proof. unfold toInt32. pose proof (Z.mod_pos_bound (z + 2 ^ 31) (2 ^ 32)). lia. Qed.

Lemma toInt32_wraps (z : Z) : exists q, toInt32 z = z + q * 2 ^ 32.
Proof.
  exists (- ((z + 2 ^ 31) / 2 ^ 32)). unfold toInt32.
  pose proof (Z.div_mod (z + 2 ^ 31) (2 ^ 32)). lia.
Qed.

Lemma toInt32_shift (z q : Z) : toInt32 (z + q * 2 ^ 32) = toInt32 z.
Proof.
  unfold toInt32. replace (z + q * 2 ^ 32 + 2 ^ 31) with (z + 2 ^ 31 + q * 2 ^ 32) by lia.
  by rewrite Z_mod_plus_full.
Qed.

Lemma js_and_mask (z : Z) : js_and z 0xffffffff = toInt32 z.
Proof.
  unfold js_and. change (toInt32 0xffffffff) with (-1). apply Z.land_m1_r.
Qed.

(** One turn of the fallback loop multiplies by 31 and adds the byte,
    modulo [2^32]. *)
Lemma simple_hash_step (hash b : Z) :
  js_and (js_shl (toInt32 hash) 5 - toInt32 hash + b) 0xffffffff
  = toInt32 (31 * hash + b).
Proof.
  rewrite js_and_mask. unfold js_shl. change (5 mod 32) with 5.
  rewrite Z.shiftl_mul_pow2 by lia.
  destruct (toInt32_wraps hash) as [q1 H1].
  destruct (toInt32_wraps (toInt32 hash)) as [q0 H0].
  destruct (toInt32_wraps (toInt32 (toInt32 hash) * 2 ^ 5)) as [q2 H2].
  rewrite H2, H0, H1.
  replace ((hash + q1 * 2 ^ 32 + q0 * 2 ^ 32) * 2 ^ 5 + q2 * 2 ^ 32
           - (hash + q1 * 2 ^ 32) + b)
    with (31 * hash + b + (32 * q1 + 32 * q0 + q2 - q1) * 2 ^ 32) by lia.
  apply toInt32_shift.
Qed.

Lemma simple_hash_fold (bytes : list Z) (hash : Z) :
  foldl (fun hash b => js_and (js_shl hash 5 - hash + b) 0xffffffff) (toInt32 hash) bytes
  = toInt32 (foldl (fun hash b => 31 * hash + b) hash bytes).
Proof.
  revert hash. induction bytes as [|b bytes IH]; intros hash; [done |].
  cbn [foldl]. by rewrite simple_hash_step, IH.
Qed.

Lemma simple_hash_spec (bytes : list Z) :
  foldl (fun hash b => js_and (js_shl hash 5 - hash + b) 0xffffffff) 0 bytes
  = toInt32 (hash31 bytes).
Proof. apply (simple_hash_fold bytes 0). Qed.

Lemma digits_fuel_length (fuel : nat) (radix n : N) (acc : list N) (k : nat) :
  (n < radix * radix ^ N.of_nat k)%N ->
  (length (digits_fuel fuel radix n acc) <= S k + length acc)%nat.
Proof.
  revert n acc k. induction fuel as [|fuel IH]; intros n acc k Hn;
    cbn [digits_fuel]; [lia |].
  destruct (N.ltb_spec n radix) as [Hlt | Hge]; [cbn [length]; lia |].
  destruct k as [|k].
  - change (N.of_nat 0) with 0%N in Hn. rewrite N.pow_0_r in Hn. lia.
  - assert (n / radix < radix * radix ^ N.of_nat k)%N as Hdiv.
    { apply N.Div0.div_lt_upper_bound.
      replace (N.of_nat (S k)) with (N.succ (N.of_nat k)) in Hn by lia.
      by rewrite N.pow_succ_r' in Hn. }
    specialize (IH (n / radix)%N ((n mod radix)%N :: acc) k Hdiv).
    cbn [length] in IH. lia.
Qed.

Lemma padStart_length (targetLength : nat) (fill : N) (s : jsstring) :
  length (padStart targetLength fill s) = (targetLength `max` length s)%nat.
Proof. unfold padStart. rewrite length_app, length_replicate. lia. Qed.

Lemma hex2_length (upper : bool) (b : byte) : length (hex2 upper (byte_value b)) = 2%nat.
Proof. destruct upper; destruct b; reflexivity. Qed.

Lemma join_empty_length (pieces : list jsstring) :
  Forall (fun piece => length piece = 2%nat) pieces ->
  length (join [] pieces) = (2 * length pieces)%nat.
Proof.
  destruct pieces as [|x pieces]; [done |]. intros Hall.
  apply Forall_cons in Hall as [Hx Hall]. cbn [join].
  rewrite length_app, Hx. cbn [length].
  assert (length (concat ((fun y => [] ++ y) <$> pieces)) = (2 * length pieces)%nat)
    as ->; [| lia].
  induction Hall as [|y pieces Hy Hall IH]; [done |].
  cbn [fmap list_fmap concat length]. rewrite length_app. simpl in *. lia.
Qed.

(** X6.  The checksum routine never throws.  When the digest is
    available the checksum has two lower-case hexadecimal digits per digest
    byte and nothing is logged.  When the digest throws, one diagnostic is
    logged and the checksum is the absolute value of the polynomial hash of
    the bytes with multiplier 31, wrapped to a signed 32-bit integer, written
    as exactly eight hexadecimal digits. *)
Theorem calculateChecksum_cases (P : Platform) (buffer : list byte) (s : Store) :
  exists checksum s',
    calculateChecksum P buffer s = (Ok checksum, s')
    /\ arrays_kept s s'
    /\ (forall hashBuffer,
          crypto_subtle_digest_MD5 P buffer = Ok hashBuffer ->
          checksum = join [] (hex2 false <$> (byte_value <$> hashBuffer))
          /\ length checksum = (2 * length hashBuffer)%nat
          /\ s' = s)
    /\ (forall e,
          crypto_subtle_digest_MD5 P buffer = Throw e ->
          checksum = padStart 8 (char "0")
                       (int_toString 16 (Z.abs (toInt32 (hash31 (byte_value <$> buffer)))))
          /\ length checksum = 8%nat
          /\ console s' = console s ++ [js "MD5 not supported, using simple hash"]).
Proof.
  unfold calculateChecksum, try_catch, bind, call, ret, console_warn.
  destruct (crypto_subtle_digest_MD5 P buffer) as [hashBuffer|e0].
  - eexists _, _. split; [reflexivity |]. split; [apply arrays_kept_refl |].
    split; [| discriminate]. intros ? [= <-]. split; [done |]. split; [| done].
    rewrite join_empty_length, !length_fmap; [done |].
    apply Forall_fmap, Forall_fmap, Forall_forall. intros b _. apply hex2_length.
  - eexists _, _. split; [reflexivity |]. split; [by split |].
    split; [discriminate |]. intros e _. cbn [console].
    rewrite simple_hash_spec.
    split; [done |]. split; [| done].
    rewrite padStart_length.
    pose proof (toInt32_range (hash31 (byte_value <$> buffer))) as Hrange.
    set (h := Z.abs _) in *. assert (0 <= h <= 2 ^ 31) as Hh by (unfold h; lia).
    unfold int_toString. rewrite (proj2 (Z.ltb_ge _ _)) by lia.
    unfold nat_toString. rewrite length_fmap.
    pose proof (digits_fuel_length (S (N.to_nat (N.log2 (Z.to_N h)))) 16 (Z.to_N h) [] 7)
      as Hlen.
    assert (Z.to_N h < 16 * 16 ^ N.of_nat 7)%N as Hbound.
    { change (16 * 16 ^ N.of_nat 7)%N with 4294967296%N. lia. }
    specialize (Hlen Hbound). cbn [length] in Hlen. lia.
Qed.

Lemma join_space_length (pieces : list jsstring) :
  Forall (fun piece => length piece = 2%nat) pieces ->
  length (join (js " ") pieces) = (3 * length pieces - 1)%nat.
Proof.
  change (js " ") with [char " "].
  destruct pieces as [|x pieces]; [done |]. intros Hall.
  apply Forall_cons in Hall as [Hx Hall]. cbn [join].
  rewrite length_app, Hx. cbn [length].
  assert (length (concat ((fun y => [char " "] ++ y) <$> pieces))
          = (3 * length pieces)%nat) as ->; [| lia].
  induction Hall as [|y pieces Hy Hall IH]; [done |].
  cbn [fmap list_fmap concat length app] in *. rewrite length_app. lia.
Qed.

(** X7.  The raw header shows the first 64 bytes of the buffer and nothing
    else: it is unchanged when the buffer is cut after 64 bytes, empty for an
    empty buffer, and otherwise two hexadecimal digits per byte with single
    spaces between them, [3 n - 1] characters for [n] bytes shown. *)
Theorem extractRawHeader_first_64_bytes (buffer : list byte) :
  extractRawHeader buffer 64 = extractRawHeader (take 64 buffer) 64
  /\ extractRawHeader buffer 64
     = join (js " ") (hex2 true <$> (byte_value <$> take 64 buffer))
  /\ length (extractRawHeader buffer 64) = (3 * (length buffer `min` 64) - 1)%nat
  /\ extractRawHeader [] 64 = [].
Proof.
  unfold extractRawHeader, slice.
  change (Z.to_nat 64 - Z.to_nat 0)%nat with 64%nat. change (Z.to_nat 0) with 0%nat.
  rewrite !drop_0, take_take, Nat.min_id.
  split; [done |]. split; [done |]. split; [| done].
  rewrite join_space_length, !length_fmap, length_take; [lia |].
  apply Forall_fmap, Forall_fmap, Forall_forall. intros b _. apply hex2_length.
Qed.

(** ** Object URLs *)

Lemma mints_ret {A} (a : A) : mints (ret a) 0.
Proof. intros s o s' [= <- <-]. lia. Qed.

Lemma mints_throw {A} (e : Thrown) : mints (@throw A e) 0.
Proof. intros s o s' [= <- <-]. lia. Qed.

Lemma mints_call {A} (o : Outcome A) : mints (call o) 0.
Proof. intros s o' s' [= <- <-]. lia. Qed.

Lemma mints_console_warn (label : string) : mints (console_warn label) 0.
Proof. intros s o s' [= <- <-]. simpl. lia. Qed.

Lemma mints_createObjectURL (P : Platform) : mints (createObjectURL P) 1.
Proof. intros s o s' [= <- <-]. simpl. lia. Qed.

Lemma mints_weaken {A} (c : M A) (n n' : nat) : mints c n -> (n <= n')%nat -> mints c n'.
Proof. intros Hc Hn s o s' Hrun. specialize (Hc _ _ _ Hrun). lia. Qed.

Lemma mints_bind {A B} (c : M A) (k : A -> M B) (n1 n2 : nat) :
  mints c n1 -> (forall a, mints (k a) n2) -> mints (bind c k) (n1 + n2).
Proof.
  intros Hc Hk s o s'. unfold bind.
  destruct (c s) as [[a|e] s1] eqn:Hcs; specialize (Hc _ _ _ Hcs).
  - intros Hks. specialize (Hk a _ _ _ Hks). lia.
  - intros [= <- <-]. lia.
Qed.

Lemma mints_try_catch {A} (body : M A) (handler : Thrown -> M A) (n1 n2 : nat) :
  mints body n1 -> (forall e, mints (handler e) n2) ->
  mints (try_catch body handler) (n1 + n2).
Proof.
  intros Hbody Hhandler s o s'. unfold try_catch.
  destruct (body s) as [[a|e] s1] eqn:Hbs; specialize (Hbody _ _ _ Hbs).
  - intros [= <- <-]. lia.
  - intros Hh. specialize (Hhandler e _ _ _ Hh). lia.
Qed.

Lemma mints_mapM {A B} (f : A -> M B) (l : list A) :
  (forall x, mints (f x) 0) -> mints (mapM f l) 0.
Proof.
  intros Hf. induction l as [|x l IH]; simpl; [apply mints_ret |].
  apply (mints_bind _ _ 0 0); [apply Hf |]. intros y.
  apply (mints_bind _ _ 0 0); [apply IH |]. intros ys. apply mints_ret.
Qed.

Lemma mints_analyzeJPEGStructure (buffer : list byte) :
  mints (analyzeJPEGStructure buffer) 0.
Proof.
  unfold analyzeJPEGStructure.
  destruct (getUint16 buffer 0) as [soi|e].
  - destruct (negb (soi =? 0xFFD8)); [apply mints_ret |].
    destruct (jpeg_scan _ _ _ _) as [result [e|]]; [| apply mints_ret].
    apply (mints_bind _ _ 0 0); [apply mints_console_warn | intros; apply mints_ret].
  - apply (mints_bind _ _ 0 0); [apply mints_console_warn | intros; apply mints_ret].
Qed.

Lemma mints_warn_ret {A} (label : string) (a : A) : mints (console_warn label ;; ret a) 0.
Proof.
  apply (mints_bind _ _ 0 0); [apply mints_console_warn | intros; apply mints_ret].
Qed.

Lemma mints_opt_map (xs : option (list Value)) : mints (opt_map text_of xs) 0.
Proof.
  destruct xs as [xs|]; simpl; [| apply mints_ret].
  apply (mints_bind _ _ 0 0); [| intros; apply mints_ret].
  apply mints_mapM. intros c. destruct c; simpl; first [apply mints_ret | apply mints_throw].
Qed.

(** Steps that mint nothing, and sequences of them. *)
Ltac mint_none :=
  repeat match goal with
    | |- mints (ret _) 0 => apply mints_ret
    | |- mints (call _) 0 => apply mints_call
    | |- mints (throw _) 0 => apply mints_throw
    | |- mints (opt_map text_of _) 0 => apply mints_opt_map
    | |- mints (analyzeJPEGStructure _) 0 => apply mints_analyzeJPEGStructure
    | |- mints (bind _ _) 0 => apply (mints_bind _ _ 0 0); [| intros ?]
    | |- mints (match ?x with _ => _ end) 0 => destruct x
    end.

Lemma mints_image (P : Platform) (file : File) (buffer : list byte)
    (base : gmap string Value) :
  mints (extractEnhancedImageMetadata P file buffer base) 1.
Proof.
  apply (mints_try_catch _ _ 1 0); [| intros; apply mints_warn_ret].
  unfold extractEnhancedImageMetadata_try.
  apply (mints_bind _ _ 0 1); [mint_none | intros img].
  apply (mints_bind _ _ 1 0).
  - apply (mints_bind _ _ 1 0); [apply mints_createObjectURL | intros; apply mints_ret].
  - intros [width height]. cbv zeta. mint_none.
Qed.

Lemma mints_audio (P : Platform) (file : File) (buffer : list byte)
    (base : gmap string Value) :
  mints (extractEnhancedAudioMetadata P file buffer base) 1.
Proof.
  apply (mints_try_catch _ _ 1 0); [| intros; apply mints_warn_ret].
  unfold extractEnhancedAudioMetadata_try.
  apply (mints_bind _ _ 0 1); [mint_none | intros metadata]. cbv zeta.
  apply (mints_bind _ _ 1 0).
  - destruct (music_metadata.picture _) as [[|picture pictures]|];
      try (apply (mints_weaken _ 0); [apply mints_ret | lia]).
    apply (mints_bind _ _ 1 0); [apply mints_createObjectURL | intros; apply mints_ret].
  - intros [art pictureInfo]. mint_none.
Qed.

Lemma mints_video (P : Platform) (file : File) (base : gmap string Value) :
  mints (extractEnhancedVideoMetadata P file base) 1.
Proof.
  apply (mints_try_catch _ _ 1 0); [| intros; apply mints_warn_ret].
  unfold extractEnhancedVideoMetadata_try.
  apply (mints_bind _ _ 0 1); [mint_none | intros video].
  apply (mints_bind _ _ 1 0); [| intros; apply mints_ret].
  apply (mints_bind _ _ 1 0); [apply mints_createObjectURL | intros; apply mints_ret].
Qed.

Lemma mints_document (P : Platform) (file : File) (buffer : list byte)
    (base : gmap string Value) :
  mints (extractAdvancedDocumentMetadata P file buffer base) 0.
Proof.
  apply (mints_try_catch _ _ 0 0); [| intros; apply mints_warn_ret].
  unfold extractAdvancedDocumentMetadata_try.
  destruct (_ || _); mint_none.
Qed.

Lemma mints_text (file : File) (buffer : list byte) (base : gmap string Value) :
  mints (extractTextMetadata file buffer base) 0.
Proof.
  apply (mints_try_catch _ _ 0 0); [| intros; apply mints_warn_ret].
  unfold extractTextMetadata_try. cbv zeta. apply mints_ret.
Qed.

Lemma mints_checksum (P : Platform) (buffer : list byte) :
  mints (calculateChecksum P buffer) 0.
Proof.
  apply (mints_try_catch _ _ 0 0).
  - apply (mints_bind _ _ 0 0); [apply mints_call | intros; cbv zeta; apply mints_ret].
  - intros. apply (mints_bind _ _ 0 0); [apply mints_console_warn |].
    intros. cbv zeta. apply mints_ret.
Qed.

(** What the [switch] hands back, by category: a preview URL for media
    files (the last URL minted) and for them only, a thumbnail for audio
    files only, the base record itself for archives and other files, and no
    URL at all for files that are not media. *)
Lemma extractByCategory_handles (P : Platform) (file : File) (buffer : list byte)
    (base : gmap string Value) (category : Category) s m p t s' :
  extractByCategory P file buffer base category s = (Ok (m, p, t), s') ->
  (minted s <= minted s' <= minted s + 2)%nat
  /\ (is_Some p <-> is_media category = true)
  /\ (forall url, p = Some url ->
        URL_createObjectURL P (minted s' - 1) = Ok url /\ (minted s < minted s')%nat)
  /\ (is_Some t -> category = audio)
  /\ (is_media category = false -> minted s' = minted s)
  /\ (category = archive \/ category = other -> m = base /\ s' = s).
Proof.
  assert (forall url : jsstring, is_Some (Some url) <-> true = true) as Hsome
    by (intros; split; [done | by eexists]).
  assert (is_Some (@None jsstring) <-> false = true) as Hnone
    by (split; [by intros [? [=]] | discriminate]).
  destruct category; cbn [extractByCategory is_media]; unfold bind.
  - destruct (extractEnhancedImageMetadata P file buffer base s) as [[m0|e] s1] eqn:Hex;
      [| discriminate].
    pose proof (mints_image P file buffer base _ _ _ Hex).
    unfold createObjectURL, ret.
    destruct (URL_createObjectURL P (minted s1)) as [url|] eqn:Hurl; [| discriminate].
    intros [= <- <- <- <-]. cbn [minted].
    replace (S (minted s1) - 1)%nat with (minted s1) by lia.
    split; [lia |]. split; [apply Hsome |].
    split; [intros ? [= <-]; split; [done | lia] |].
    split; [by intros [? [=]] |]. split; [discriminate |]. by intros [[=] | [=]].
  - destruct (extractEnhancedVideoMetadata P file base s) as [[m0|e] s1] eqn:Hex;
      [| discriminate].
    pose proof (mints_video P file base _ _ _ Hex).
    unfold createObjectURL, ret.
    destruct (URL_createObjectURL P (minted s1)) as [url|] eqn:Hurl; [| discriminate].
    intros [= <- <- <- <-]. cbn [minted].
    replace (S (minted s1) - 1)%nat with (minted s1) by lia.
    split; [lia |]. split; [apply Hsome |].
    split; [intros ? [= <-]; split; [done | lia] |].
    split; [by intros [? [=]] |]. split; [discriminate |]. by intros [[=] | [=]].
  - destruct (extractEnhancedAudioMetadata P file buffer base s) as [[a|e] s1] eqn:Hex;
      [| discriminate].
    pose proof (mints_audio P file buffer base _ _ _ Hex).
    unfold createObjectURL, ret.
    destruct (URL_createObjectURL P (minted s1)) as [url|] eqn:Hurl; [| discriminate].
    intros [= <- <- <- <-]. cbn [minted].
    replace (S (minted s1) - 1)%nat with (minted s1) by lia.
    split; [lia |]. split; [apply Hsome |].
    split; [intros ? [= <-]; split; [done | lia] |].
    split; [done |]. split; [discriminate |]. by intros [[=] | [=]].
  - destruct (extractAdvancedDocumentMetadata P file buffer base s)
      as [[m0|e] s1] eqn:Hex; [| discriminate].
    pose proof (mints_document P file buffer base _ _ _ Hex).
    intros [= <- <- <- <-].
    split; [lia |]. split; [apply Hnone |]. split; [discriminate |].
    split; [by intros [? [=]] |]. split; [lia |]. by intros [[=] | [=]].
  - intros [= <- <- <- <-].
    split; [lia |]. split; [apply Hnone |]. split; [discriminate |].
    split; [by intros [? [=]] |]. by split.
  - destruct (extractTextMetadata file buffer base s) as [[m0|e] s1] eqn:Hex;
      [| discriminate].
    pose proof (mints_text file buffer base _ _ _ Hex).
    intros [= <- <- <- <-].
    split; [lia |]. split; [apply Hnone |]. split; [discriminate |].
    split; [by intros [? [=]] |]. split; [lia |]. by intros [[=] | [=]].
  - intros [= <- <- <- <-].
    split; [lia |]. split; [apply Hnone |]. split; [discriminate |].
    split; [by intros [? [=]] |]. by split.
Qed.

Lemma mints_extractByCategory (P : Platform) (file : File) (buffer : list byte)
    (base : gmap string Value) (category : Category) :
  mints (extractByCategory P file buffer base category) 2.
Proof.
  destruct category; cbn [extractByCategory].
  - apply (mints_bind _ _ 1 1); [apply mints_image | intros m].
    apply (mints_bind _ _ 1 0); [apply mints_createObjectURL | intros; apply mints_ret].
  - apply (mints_bind _ _ 1 1); [apply mints_video | intros m].
    apply (mints_bind _ _ 1 0); [apply mints_createObjectURL | intros; apply mints_ret].
  - apply (mints_bind _ _ 1 1); [apply mints_audio | intros a]. cbv zeta.
    apply (mints_bind _ _ 1 0); [apply mints_createObjectURL | intros; apply mints_ret].
  - apply (mints_weaken _ 0); [| lia].
    apply (mints_bind _ _ 0 0); [apply mints_document | intros; apply mints_ret].
  - apply (mints_weaken _ 0); [apply mints_ret | lia].
  - apply (mints_weaken _ 0); [| lia].
    apply (mints_bind _ _ 0 0); [apply mints_text | intros; apply mints_ret].
  - apply (mints_weaken _ 0); [apply mints_ret | lia].
Qed.

Lemma mints_validateDetectedType (detectedType : option FileTypeResult) (file : File) :
  mints (validateDetectedType detectedType file) 0.
Proof.
  unfold validateDetectedType.
  destruct detectedType as [detected|]; [| apply mints_ret].
  destruct (type_mismatch detected file); [| apply mints_ret].
  intros s o s' [= <- <-]. simpl. lia.
Qed.

Lemma mints_analyzeFileEnhanced_try (P : Platform) (file : File) :
  mints (analyzeFileEnhanced_try P file) 2.
Proof.
  unfold analyzeFileEnhanced_try.
  apply (mints_bind _ _ 0 2); [apply mints_call | intros buffer].
  apply (mints_bind _ _ 0 2); [apply mints_checksum | intros checksum]. cbv zeta.
  apply (mints_bind _ _ 0 2); [apply mints_call | intros detectedType].
  apply (mints_bind _ _ 2 0); [apply mints_extractByCategory | intros [[m p] t]].
  apply (mints_bind _ _ 0 0); [apply mints_validateDetectedType | intros _].
  apply (mints_bind _ _ 0 0); [intros s o s' [= <- <-]; lia | intros errors].
  apply (mints_bind _ _ 0 0); [intros s o s' [= <- <-]; lia | intros warnings].
  apply mints_ret.
Qed.

(** The [try] block, when it returns: the result is what the [switch]
    produced for the category of the file. *)
Lemma analyzeFileEnhanced_try_dispatch (P : Platform) (file : File) s0 r s1 :
  analyzeFileEnhanced_try P file s0 = (Ok r, s1) ->
  exists buffer checksum sc detectedType s3,
    file_arrayBuffer file = Ok buffer
    /\ calculateChecksum P buffer s0 = (Ok checksum, sc)
    /\ fileTypeFromBuffer P buffer = Ok detectedType
    /\ category r = determineFileCategory (toLowerCase P)
                      (or_string (mime <$> detectedType) (file_type file)) (file_name file)
    /\ extractByCategory P file buffer
         (baseMetadata P file detectedType checksum (extractRawHeader buffer 64))
         (category r) sc
       = (Ok (metadata r, preview r, thumbnail r), s3)
    /\ minted sc = minted s0
    /\ minted s1 = minted s3.
Proof.
  unfold analyzeFileEnhanced_try. unfold bind at 1, call.
  destruct (file_arrayBuffer file) as [buffer|e]; [| discriminate].
  unfold bind at 1.
  destruct (calculateChecksum P buffer s0) as [[checksum|e] sc] eqn:Hsum; [| discriminate].
  pose proof (mints_checksum P buffer _ _ _ Hsum) as Hminted.
  unfold bind at 1.
  destruct (fileTypeFromBuffer P buffer) as [detectedType|e] eqn:Hsniff; [| discriminate].
  cbv zeta. unfold bind at 1.
  destruct (extractByCategory _ _ _ _ _ sc) as [[[[m p] t]|e] s3] eqn:Hex; [| discriminate].
  unfold validateDetectedType, bind, get_errors, get_warnings, ret, warnings_push.
  destruct detectedType as [detected|]; [destruct (type_mismatch detected file) |];
    cbn [errors_arr warnings_arr]; intros [= <- <-];
    cbn [metadata preview thumbnail category];
    exists buffer, checksum, sc; eexists _, s3;
    (split; [done |]); (split; [done |]); (split; [exact Hsniff |]);
    (split; [done |]); (split; [exact Hex |]); (split; [lia | done]).
Qed.

Lemma mints_analyzeFileEnhanced (P : Platform) (file : File) :
  mints (analyzeFileEnhanced P file) 2.
Proof.
  unfold analyzeFileEnhanced.
  apply (mints_bind _ _ 0 2); [intros s o s' [= <- <-]; simpl; lia | intros _].
  apply (mints_try_catch _ _ 2 0); [apply mints_analyzeFileEnhanced_try | intros e].
  apply (mints_bind _ _ 0 0); [intros s o s' [= <- <-]; simpl; lia | intros _].
  apply (mints_bind _ _ 0 0); [intros s o s' [= <- <-]; lia | intros errors].
  apply mints_ret.
Qed.

(** X8.  One analysis calls [URL.createObjectURL] at most twice.  A result
    without errors has a preview exactly when its category is image, audio
    or video, and the preview is the last URL that was minted; it has a
    thumbnail only when its category is audio; and for every other category
    no URL is minted at all.  A result with errors has neither a preview
    nor a thumbnail. *)
Theorem analysis_handles (P : Platform) (file : File) (s : Store) :
  exists r s',
    analyzeFileEnhanced P file s = (Ok r, s')
    /\ (minted s <= minted s' <= minted s + 2)%nat
    /\ (errors r = None ->
        (is_Some (preview r) <-> is_media (category r) = true)
        /\ (forall url, preview r = Some url ->
                        URL_createObjectURL P (minted s' - 1) = Ok url)
        /\ (is_Some (thumbnail r) -> category r = audio)
        /\ (is_media (category r) = false -> minted s' = minted s))
    /\ (errors r <> None -> preview r = None /\ thumbnail r = None).
Proof.
  destruct (analyzeFileEnhanced_run P file s) as (r & s' & Hrun & Hcases).
  exists r, s'. split; [done |].
  split; [by apply (mints_analyzeFileEnhanced P file _ _ _ Hrun) |].
  destruct Hcases as [[Hc Htry] | (e & s1 & _ & -> & _)].
  - split; [intros _ |].
    + apply analyzeFileEnhanced_try_dispatch in Htry
        as (buffer & checksum & sc & detectedType & s3 & _ & _ & _ & _ & Hex & Hsc & Hs3).
      apply extractByCategory_handles in Hex as (_ & Hp & Hurl & Ht & Hnone & _).
      simpl in Hsc. rewrite Hs3. split; [done |].
      split; [intros url Hpreview; by apply Hurl |]. split; [done |].
      intros Hmedia. rewrite (Hnone Hmedia). done.
    + by destruct Hc as (? & ? & ? & ? & _ & _ & _ & _ & _ & -> & _).
  - split; [discriminate | done].
Qed.

(** X9.  Archives and files of no known category get no extractor: when
    the analysis completes, their metadata is exactly the base record, they
    have neither preview nor thumbnail, and nothing is logged or minted after
    the checksum was computed. *)
Theorem archive_and_other_get_base_record (P : Platform) (file : File) (s : Store) :
  exists r s',
    analyzeFileEnhanced P file s = (Ok r, s')
    /\ (errors r = None ->
        category r = archive \/ category r = other ->
        exists buffer checksum sc detectedType,
          file_arrayBuffer file = Ok buffer
          /\ calculateChecksum P buffer (declared s) = (Ok checksum, sc)
          /\ fileTypeFromBuffer P buffer = Ok detectedType
          /\ metadata r
             = baseMetadata P file detectedType checksum (extractRawHeader buffer 64)
          /\ preview r = None /\ thumbnail r = None
          /\ console s' = console sc /\ minted s' = minted s).
Proof.
  destruct (analyzeFileEnhanced_run P file s) as (r & s' & Hrun & Hcases).
  exists r, s'. split; [done |]. intros Herrors Hcat.
  destruct Hcases as [[_ Htry] | (e & s1 & _ & -> & _)]; [| discriminate].
  pose proof Htry as Hdispatch.
  apply analyzeFileEnhanced_try_dispatch in Hdispatch
    as (buffer & checksum & sc & detectedType & s3 & Hread & Hsum & Hsniff & Hcategory
        & Hex & Hsc & Hs3).
  exists buffer, checksum, sc, detectedType.
  split; [done |]. split; [done |]. split; [done |].
  assert (metadata r = baseMetadata P file detectedType checksum (extractRawHeader buffer 64)
          /\ preview r = None /\ thumbnail r = None /\ s3 = sc) as (Hm & Hp & Ht & ->).
  { revert Hex. destruct Hcat as [-> | ->]; cbn [extractByCategory];
      by intros [= -> -> -> ->]. }
  split; [done |]. split; [done |]. split; [done |].
  simpl in Hsc. split; [| lia].
  revert Htry. unfold analyzeFileEnhanced_try. unfold bind at 1, call. rewrite Hread.
  unfold bind at 1. rewrite Hsum. unfold bind at 1. rewrite Hsniff. cbv zeta.
  rewrite <- Hcategory. unfold bind at 1.
  assert (extractByCategory P file buffer
            (baseMetadata P file detectedType checksum (extractRawHeader buffer 64))
            (category r) sc
          = (Ok (baseMetadata P file detectedType checksum (extractRawHeader buffer 64),
                 None, None), sc)) as ->
    by (destruct Hcat as [-> | ->]; reflexivity).
  unfold validateDetectedType, bind, get_errors, get_warnings, ret, warnings_push.
  destruct detectedType as [detected|]; [destruct (type_mismatch detected file) |];
    cbn [errors_arr warnings_arr]; by intros [= _ <-].
Qed.

(** ** Which extractor adds which field

    [pageCount] and [keywords] are fields of the document extractor alone. *)

Lemma image_try_no_pdf_field (P : Platform) (file : File) (buffer : list byte)
    (base : gmap string Value) (key : string) :
  key = "pageCount"%string \/ key = "keywords"%string ->
  base !! key = None ->
  framed (extractEnhancedImageMetadata_try P file buffer base)
         (fun m => m !! key = None).
Proof.
  intros Hkey Hbase. unfold extractEnhancedImageMetadata_try.
  frame_bind. frame_bind. destruct a0 as [width height]. cbv zeta.
  frame_bind. frame_bind. apply framed_ret. rewrite extend_lookup. by destruct Hkey as [-> | ->].
Qed.

Lemma audio_try_no_pdf_field (P : Platform) (file : File) (buffer : list byte)
    (base : gmap string Value) (key : string) :
  key = "pageCount"%string \/ key = "keywords"%string ->
  base !! key = None ->
  framed (extractEnhancedAudioMetadata_try P file buffer base)
         (fun a => audio_metadata a !! key = None).
Proof.
  intros Hkey Hbase. unfold extractEnhancedAudioMetadata_try.
  frame_bind. cbv zeta. frame_bind. destruct a0 as [art pictureInfo].
  frame_bind. frame_bind.
  apply framed_ret. cbn [audio_metadata]. rewrite extend_lookup. by destruct Hkey as [-> | ->].
Qed.

Lemma video_try_no_pdf_field (P : Platform) (file : File) (base : gmap string Value) (key : string) :
  key = "pageCount"%string \/ key = "keywords"%string ->
  base !! key = None ->
  framed (extractEnhancedVideoMetadata_try P file base)
         (fun m => m !! key = None).
Proof.
  intros Hkey Hbase. unfold extractEnhancedVideoMetadata_try.
  frame_bind.
  eapply (framed_bind _ _ (fun m => m !! key = None));
    [| intros m Hm; by apply framed_ret].
  frame_bind. apply framed_ret.
  destruct (video_event P file); [| done].
  rewrite extend_lookup. by destruct Hkey as [-> | ->].
Qed.

Lemma text_try_no_pdf_field (file : File) (buffer : list byte)
    (base : gmap string Value) (key : string) :
  key = "pageCount"%string \/ key = "keywords"%string ->
  base !! key = None ->
  framed (extractTextMetadata_try file buffer base) (fun m => m !! key = None).
Proof.
  intros Hkey Hbase. unfold extractTextMetadata_try. cbv zeta.
  apply framed_ret. rewrite extend_lookup. by destruct Hkey as [-> | ->].
Qed.

(** What the document extractor returns: the base record, or the base
    record extended with what the getters of a loaded PDF returned. *)
Lemma extractAdvancedDocumentMetadata_inv (P : Platform) (file : File)
    (buffer : list byte) (base : gmap string Value) s m s' :
  extractAdvancedDocumentMetadata P file buffer base s = (Ok m, s') ->
  m = base
  \/ (file_type file = js "application/pdf" \/ prop base "extension" = VStr (js "pdf"))
     /\ s' = s
     /\ exists pdfDoc pageCount keywords,
          PDFDocument_load P buffer = Ok pdfDoc
          /\ pdf_getters_return pdfDoc = true
          /\ pdf_lib.getPageCount pdfDoc = Ok pageCount
          /\ pdf_lib.getKeywords pdfDoc = Ok keywords
          /\ m !! "pageCount" = Some (VNum pageCount)
          /\ m !! "keywords"
             = Some match keywords with
                    | Some (c :: s) =>
                        VArr ((fun k => VStr (trim k)) <$> split (char ",") (c :: s))
                    | _ => VUndefined
                    end.
Proof.
  unfold extractAdvancedDocumentMetadata, extractAdvancedDocumentMetadata_try, try_catch.
  destruct (_ || _) eqn:Hpdf; [| intros [= <- _]; by left].
  apply orb_true_iff in Hpdf. rewrite jsstring_eqb_eq, is_string_spec in Hpdf.
  unfold bind, call, ret.
  destruct (PDFDocument_load P buffer) as [pdfDoc|e]; [| intros [= <- _]; by left].
  unfold pdf_getters_return.
  destruct pdfDoc as [pageCount title author subject creator producer creationDate
                        modificationDate keywords].
  cbn [pdf_lib.getPageCount pdf_lib.getTitle pdf_lib.getAuthor pdf_lib.getSubject
       pdf_lib.getCreator pdf_lib.getProducer pdf_lib.getCreationDate
       pdf_lib.getModificationDate pdf_lib.getKeywords].
  destruct pageCount as [pageCount|e]; [| intros [= <- _]; by left].
  destruct title as [title|e]; [| intros [= <- _]; by left].
  destruct author as [author|e]; [| intros [= <- _]; by left].
  destruct subject as [subject|e]; [| intros [= <- _]; by left].
  destruct creator as [creator|e]; [| intros [= <- _]; by left].
  destruct producer as [producer|e]; [| intros [= <- _]; by left].
  destruct creationDate as [creationDate|e]; [| intros [= <- _]; by left].
  destruct modificationDate as [modificationDate|e]; [| intros [= <- _]; by left].
  destruct keywords as [keywords|e]; [| intros [= <- _]; by left].
  intros Heq. right. split; [done |]. split; [congruence |].
  eexists _, pageCount, keywords. split; [reflexivity |].
  split; [reflexivity |]. split; [reflexivity |]. split; [reflexivity |].
  match type of Heq with
  | (Ok ?record, _) = _ => assert (m = record) as -> by congruence
  end.
  by rewrite !extend_lookup.
Qed.

(** A declared PDF that loads and whose getters return is never answered
    with the base record. *)
Lemma extractAdvancedDocumentMetadata_run (P : Platform) (file : File)
    (buffer : list byte) (base : gmap string Value) s pdfDoc :
  file_type file = js "application/pdf" \/ prop base "extension" = VStr (js "pdf") ->
  PDFDocument_load P buffer = Ok pdfDoc ->
  pdf_getters_return pdfDoc = true ->
  exists m pageCount,
    extractAdvancedDocumentMetadata P file buffer base s = (Ok m, s)
    /\ pdf_lib.getPageCount pdfDoc = Ok pageCount
    /\ m !! "pageCount" = Some (VNum pageCount).
Proof.
  intros Hpdf Hload.
  unfold extractAdvancedDocumentMetadata, extractAdvancedDocumentMetadata_try, try_catch.
  rewrite <- jsstring_eqb_eq, <- is_string_spec, <- orb_true_iff in Hpdf. rewrite Hpdf.
  unfold bind, call, ret. rewrite Hload.
  unfold pdf_getters_return.
  destruct pdfDoc as [pageCount title author subject creator producer creationDate
                        modificationDate keywords].
  cbn [pdf_lib.getPageCount pdf_lib.getTitle pdf_lib.getAuthor pdf_lib.getSubject
       pdf_lib.getCreator pdf_lib.getProducer pdf_lib.getCreationDate
       pdf_lib.getModificationDate pdf_lib.getKeywords].
  destruct pageCount as [pageCount|e]; [| discriminate].
  destruct title as [title|e]; [| discriminate].
  destruct author as [author|e]; [| discriminate].
  destruct subject as [subject|e]; [| discriminate].
  destruct creator as [creator|e]; [| discriminate].
  destruct producer as [producer|e]; [| discriminate].
  destruct creationDate as [creationDate|e]; [| discriminate].
  destruct modificationDate as [modificationDate|e]; [| discriminate].
  destruct keywords as [keywords|e]; [| discriminate].
  intros _. eexists _, pageCount. split; [reflexivity |]. split; [reflexivity |].
  by rewrite extend_lookup.
Qed.

Lemma baseMetadata_no_pageCount (P : Platform) (file : File)
    (detectedType : option FileTypeResult) (checksum rawHeader : jsstring) :
  baseMetadata P file detectedType checksum rawHeader !! "pageCount" = None.
Proof. unfold baseMetadata, object. by rewrite extend_lookup. Qed.

(** The record the [switch] leaves in [metadata] is the one the extractor
    of the category returned, started in the store of the [switch]. *)
Lemma extractByCategory_metadata (P : Platform) (file : File) (buffer : list byte)
    (base : gmap string Value) (category : Category) s m p t s' :
  extractByCategory P file buffer base category s = (Ok (m, p, t), s') ->
  match category with
  | image => exists s1, extractEnhancedImageMetadata P file buffer base s = (Ok m, s1)
  | video => exists s1, extractEnhancedVideoMetadata P file base s = (Ok m, s1)
  | audio =>
      exists a s1,
        extractEnhancedAudioMetadata P file buffer base s = (Ok a, s1)
        /\ m = audio_metadata a
        /\ t = match albumArt a with
               | Some (c :: url) => Some (c :: url)
               | _ => None
               end
  | document => extractAdvancedDocumentMetadata P file buffer base s = (Ok m, s')
  | text => extractTextMetadata file buffer base s = (Ok m, s')
  | _ => m = base
  end.
Proof.
  destruct category; cbn [extractByCategory]; unfold bind.
  - destruct (extractEnhancedImageMetadata P file buffer base s) as [[m0|e] s1];
      [| discriminate].
    unfold createObjectURL, ret.
    destruct (URL_createObjectURL P (minted s1)); [| discriminate].
    intros [= <- _ _ _]. by exists s1.
  - destruct (extractEnhancedVideoMetadata P file base s) as [[m0|e] s1];
      [| discriminate].
    unfold createObjectURL, ret.
    destruct (URL_createObjectURL P (minted s1)); [| discriminate].
    intros [= <- _ _ _]. by exists s1.
  - destruct (extractEnhancedAudioMetadata P file buffer base s) as [[a|e] s1];
      [| discriminate].
    unfold createObjectURL, ret.
    destruct (URL_createObjectURL P (minted s1)); [| discriminate].
    intros [= <- _ <- _]. by exists a, s1.
  - destruct (extractAdvancedDocumentMetadata P file buffer base s) as [[m0|e] s1];
      [| discriminate].
    by intros [= <- _ _ <-].
  - by intros [= <- _ _ _].
  - destruct (extractTextMetadata file buffer base s) as [[m0|e] s1]; [| discriminate].
    by intros [= <- _ _ <-].
  - by intros [= <- _ _ _].
Qed.

Lemma extractByCategory_pdf_field (P : Platform) (file : File) (buffer : list byte)
    (base : gmap string Value) (category : Category) (key : string) s m p t s' :
  key = "pageCount"%string \/ key = "keywords"%string ->
  base !! key = None ->
  extractByCategory P file buffer base category s = (Ok (m, p, t), s') ->
  is_Some (m !! key) ->
  category = document
  /\ extractAdvancedDocumentMetadata P file buffer base s = (Ok m, s').
Proof.
  intros Hkey Hbase Hex [v Hv]. apply extractByCategory_metadata in Hex.
  assert (forall label, safe (console_warn label ;; ret base)
                             (fun m : gmap string Value => m !! key = None))
    as Hhandler by (intros label; by apply safe_warn_ret).
  destruct category.
  - destruct Hex as [s1 Hex].
    apply (safe_framed _ (fun m => m !! key = None)) in Hex as [_ Hnone].
    + specialize (Hnone m eq_refl). congruence.
    + apply safe_try_catch; [by apply image_try_no_pdf_field | intros e; apply Hhandler].
  - destruct Hex as [s1 Hex].
    apply (safe_framed _ (fun m => m !! key = None)) in Hex as [_ Hnone].
    + specialize (Hnone m eq_refl). congruence.
    + apply safe_try_catch; [by apply video_try_no_pdf_field | intros e; apply Hhandler].
  - destruct Hex as (a & s1 & Hex & -> & _).
    apply (safe_framed _ (fun a => audio_metadata a !! key = None)) in Hex as [_ Hnone].
    + specialize (Hnone a eq_refl). congruence.
    + apply safe_try_catch; [by apply audio_try_no_pdf_field |].
      intros e. by apply safe_warn_ret.
  - done.
  - congruence.
  - apply (safe_framed _ (fun m => m !! key = None)) in Hex as [_ Hnone].
    + specialize (Hnone m eq_refl). congruence.
    + apply safe_try_catch; [by apply text_try_no_pdf_field | intros e; apply Hhandler].
  - congruence.
Qed.

Lemma determineFileCategory_document (toLowerCase : jsstring -> jsstring)
    (mimeType filename : jsstring) :
  determineFileCategory toLowerCase mimeType filename = document ->
  includes documentExts (extensionOf toLowerCase filename) = true.
Proof.
  unfold determineFileCategory.
  repeat (destruct (startsWith _ mimeType); [discriminate |]).
  cbv zeta. fold documentExts.
  destruct (includes documentExts _); [done |].
  repeat (destruct (includes _ _); [discriminate |]). discriminate.
Qed.

(** A completed analysis of a document ran the document extractor on the
    buffer read from the file, with the base record of that file. *)
Lemma analyzeFileEnhanced_try_document (P : Platform) (file : File) s0 r s1 :
  analyzeFileEnhanced_try P file s0 = (Ok r, s1) ->
  category r = document ->
  exists buffer base sc s3,
    file_arrayBuffer file = Ok buffer
    /\ prop base "extension" = VStr (extensionOf (toLowerCase P) (file_name file))
    /\ base !! "pageCount" = None
    /\ base !! "keywords" = None
    /\ extractAdvancedDocumentMetadata P file buffer base sc = (Ok (metadata r), s3)
    /\ includes documentExts (extensionOf (toLowerCase P) (file_name file)) = true.
Proof.
  intros Htry Hdoc.
  apply analyzeFileEnhanced_try_dispatch in Htry
    as (buffer & checksum & sc & detectedType & s3 & Hread & _ & _ & Hcategory
        & Hex & _ & _).
  rewrite Hdoc in Hex, Hcategory. symmetry in Hcategory.
  apply determineFileCategory_document in Hcategory.
  apply extractByCategory_metadata in Hex.
  eexists buffer, _, sc, s3. split; [done |].
  split; [apply baseMetadata_extension |].
  split; [apply baseMetadata_no_pageCount |].
  split; [| split; [exact Hex | done]].
  unfold baseMetadata, object. by rewrite extend_lookup.
Qed.

Lemma fallbackMetadata_no_pdf_field (P : Platform) (file : File) (key : string) :
  key = "pageCount"%string \/ key = "keywords"%string ->
  fallbackMetadata P file !! key = None.
Proof.
  intros Hkey. unfold fallbackMetadata, object. rewrite extend_lookup.
  by destruct Hkey as [-> | ->].
Qed.

Lemma baseMetadata_no_pdf_field (P : Platform) (file : File)
    (detectedType : option FileTypeResult) (checksum rawHeader : jsstring)
    (key : string) :
  key = "pageCount"%string \/ key = "keywords"%string ->
  baseMetadata P file detectedType checksum rawHeader !! key = None.
Proof.
  intros Hkey. unfold baseMetadata, object. rewrite extend_lookup.
  by destruct Hkey as [-> | ->].
Qed.

(** A PDF-only field in a result means that the analysis completed with
    category [document] and that the document extractor produced the
    record. *)
Lemma analyzeFileEnhanced_pdf_field (P : Platform) (file : File) s r s' (key : string) :
  key = "pageCount"%string \/ key = "keywords"%string ->
  analyzeFileEnhanced P file s = (Ok r, s') ->
  is_Some (metadata r !! key) ->
  errors r = None
  /\ category r = document
  /\ includes documentExts (extensionOf (toLowerCase P) (file_name file)) = true
  /\ exists buffer base sc s3,
       file_arrayBuffer file = Ok buffer
       /\ prop base "extension" = VStr (extensionOf (toLowerCase P) (file_name file))
       /\ base !! key = None
       /\ extractAdvancedDocumentMetadata P file buffer base sc = (Ok (metadata r), s3).
Proof.
  intros Hkey Hrun Hsome.
  destruct (analyzeFileEnhanced_run P file s) as (r0 & s0 & Hrun' & Hcases).
  rewrite Hrun in Hrun'. injection Hrun' as <- <-.
  destruct Hcases as [[Hc Htry] | (e & s1 & _ & Hr & _)].
  - pose proof Htry as Hdispatch.
    apply analyzeFileEnhanced_try_dispatch in Hdispatch
      as (buffer & checksum & sc & detectedType & s3 & Hread & _ & _ & Hcategory
          & Hex & _ & _).
    eapply extractByCategory_pdf_field in Hex as [Hdoc Hex];
      [| exact Hkey | by apply baseMetadata_no_pdf_field | exact Hsome].
    split; [by destruct Hc as (? & ? & ? & ? & _ & _ & _ & _ & _ & -> & _) |].
    split; [done |].
    rewrite Hdoc in Hcategory. symmetry in Hcategory.
    apply determineFileCategory_document in Hcategory.
    split; [done |].
    eexists buffer, _, sc, s3. split; [done |].
    split; [apply baseMetadata_extension |].
    split; [by apply baseMetadata_no_pdf_field | exact Hex].
  - subst r. cbn [metadata fallback_result] in Hsome.
    rewrite fallbackMetadata_no_pdf_field in Hsome by done. by destruct Hsome.
Qed.

(** X10.  A result carries a page count only when the analysis completed,
    the file was classified as a document -- so its extension is a document
    extension -- and the file is declared [application/pdf] or has the
    extension [pdf]; the count is then the one the PDF library reports for
    the buffer read from the file.  Conversely such a document whose buffer
    loads and whose getters all return gets its page count.  What the
    sniffer detected plays no part in either direction. *)
Theorem pageCount_only_for_declared_pdf_documents (P : Platform) (file : File)
    (s : Store) :
  exists r s',
    analyzeFileEnhanced P file s = (Ok r, s')
    /\ (forall v,
          metadata r !! "pageCount" = Some v ->
          errors r = None
          /\ category r = document
          /\ includes documentExts (extensionOf (toLowerCase P) (file_name file)) = true
          /\ pdf_declared P file
          /\ exists buffer pdfDoc pageCount,
               file_arrayBuffer file = Ok buffer
               /\ PDFDocument_load P buffer = Ok pdfDoc
               /\ pdf_getters_return pdfDoc = true
               /\ pdf_lib.getPageCount pdfDoc = Ok pageCount
               /\ v = VNum pageCount)
    /\ (forall buffer pdfDoc,
          errors r = None ->
          category r = document ->
          pdf_declared P file ->
          file_arrayBuffer file = Ok buffer ->
          PDFDocument_load P buffer = Ok pdfDoc ->
          pdf_getters_return pdfDoc = true ->
          exists pageCount,
            pdf_lib.getPageCount pdfDoc = Ok pageCount
            /\ metadata r !! "pageCount" = Some (VNum pageCount)).
Proof.
  destruct (analyzeFileEnhanced_run P file s) as (r & s' & Hrun & Hcases).
  exists r, s'. split; [done |]. split.
  - intros v Hv.
    destruct (analyzeFileEnhanced_pdf_field P file s r s' "pageCount")
      as (Herrors & Hdoc & Hext & buffer & base & sc & s3 & Hread & Hbase & Hnone & Hex);
      [by left | done | by eexists |].
    split; [done |]. split; [done |]. split; [done |].
    apply extractAdvancedDocumentMetadata_inv in Hex
      as [Hm | (Hpdf & _ & pdfDoc & pageCount & keywords & Hload & Hget & Hcount & _
                & Hlookup & _)].
    + rewrite Hm in Hv. congruence.
    + rewrite Hbase in Hpdf.
      split; [destruct Hpdf as [? | [= ?]]; [by left | by right] |].
      exists buffer, pdfDoc, pageCount. rewrite Hlookup in Hv. by injection Hv as <-.
  - intros buffer pdfDoc Herrors Hdoc Hpdf Hread Hload Hget.
    destruct Hcases as [[_ Htry] | (e & s1 & _ & -> & _)]; [| discriminate].
    apply analyzeFileEnhanced_try_document in Htry
      as (buffer' & base & sc & s3 & Hread' & Hbase & _ & _ & Hex & _); [| done].
    rewrite Hread in Hread'. injection Hread' as <-.
    destruct (extractAdvancedDocumentMetadata_run P file buffer base sc pdfDoc)
      as (m & pageCount & Hrun' & Hcount & Hlookup); [| done | done |].
    + rewrite Hbase. destruct Hpdf as [? | ->]; [by left | by right].
    + rewrite Hex in Hrun'. injection Hrun' as <- _. by exists pageCount.
Qed.

(** ** Keywords of a PDF *)

Lemma trimStart_head (s : jsstring) (c : N) :
  head (trimStart s) = Some c -> is_whitespace c = false.
Proof.
  induction s as [|d s IH]; [done |]. cbn [trimStart].
  destruct (is_whitespace d) eqn:Hd; [done |]. by intros [= <-].
Qed.

Lemma trimStart_suffix (s : jsstring) : exists pre, s = pre ++ trimStart s.
Proof.
  induction s as [|d s [pre IH]]; [by exists [] |]. cbn [trimStart].
  destruct (is_whitespace d); [| by exists []].
  exists (d :: pre). by rewrite <- app_comm_cons, <- IH.
Qed.

Lemma last_rev {A} (l : list A) : last (rev l) = head l.
Proof. destruct l as [|x l]; [done |]. cbn [rev]. by rewrite last_snoc. Qed.

Lemma head_rev {A} (l : list A) : head (rev l) = last l.
Proof. by rewrite <- (rev_involutive l) at 2; rewrite last_rev. Qed.

Lemma trim_infix (s : jsstring) : exists pre post, s = pre ++ trim s ++ post.
Proof.
  unfold trim. destruct (trimStart_suffix s) as [pre Hpre].
  destruct (trimStart_suffix (rev (trimStart s))) as [post Hpost].
  exists pre, (rev post).
  rewrite <- rev_app_distr, <- Hpost, rev_involutive. exact Hpre.
Qed.

Lemma trim_trimmed (s : jsstring) : trimmed (trim s).
Proof.
  unfold trim. split; intros c Hc.
  - destruct (trimStart_suffix (rev (trimStart s))) as [post Hpost].
    apply (f_equal (@rev N)) in Hpost. rewrite rev_involutive, rev_app_distr in Hpost.
    apply (trimStart_head s c). rewrite Hpost.
    destruct (rev (trimStart (rev (trimStart s)))); [done | exact Hc].
  - rewrite last_rev in Hc. by apply trimStart_head in Hc.
Qed.

Lemma split_pieces (separator : N) (s : jsstring) (piece : jsstring) :
  piece ∈ split separator s -> separator ∉ piece.
Proof.
  revert piece. induction s as [|c s IH]; intros piece; cbn [split].
  - intros ->%list_elem_of_singleton. apply not_elem_of_nil.
  - destruct (N.eqb_spec c separator) as [-> | Hne].
    + intros [-> | Hin]%elem_of_cons; [apply not_elem_of_nil | by apply IH].
    + destruct (split separator s) as [|first pieces] eqn:Hsplit.
      * intros ->%list_elem_of_singleton. by intros [-> | []%not_elem_of_nil]%elem_of_cons.
      * intros [-> | Hin]%elem_of_cons.
        -- intros [-> | Hin]%elem_of_cons; [done |].
           by apply (IH first); [left |].
        -- apply IH. by right.
Qed.

(** X11.  The keywords of a result are those of the loaded PDF: no list at
    all when the document has no keywords or an empty keyword string,
    otherwise one keyword per comma-separated piece -- one more than there are
    commas -- each free of commas and with no white space at either end. *)
Theorem pdf_keywords_are_trimmed_pieces (P : Platform) (file : File) (s : Store) :
  exists r s',
    analyzeFileEnhanced P file s = (Ok r, s')
    /\ forall v,
         metadata r !! "keywords" = Some v ->
         exists buffer pdfDoc keywords,
           file_arrayBuffer file = Ok buffer
           /\ PDFDocument_load P buffer = Ok pdfDoc
           /\ pdf_lib.getKeywords pdfDoc = Ok keywords
           /\ match keywords with
              | None | Some [] => v = VUndefined
              | Some keywords =>
                  exists items,
                    v = VArr (VStr <$> items)
                    /\ length items = S (count_occ N.eq_dec keywords (char ","))
                    /\ Forall (fun k => trimmed k /\ char "," ∉ k) items
              end.
Proof.
  destruct (analyzeFileEnhanced_run P file s) as (r & s' & Hrun & _).
  exists r, s'. split; [done |]. intros v Hv.
  destruct (analyzeFileEnhanced_pdf_field P file s r s' "keywords")
    as (_ & _ & _ & buffer & base & sc & s3 & Hread & _ & Hnone & Hex);
    [by right | done | by eexists |].
  apply extractAdvancedDocumentMetadata_inv in Hex
    as [Hm | (_ & _ & pdfDoc & pageCount & keywords & Hload & _ & _ & Hkeywords
              & _ & Hlookup)].
  { rewrite Hm in Hv. congruence. }
  exists buffer, pdfDoc, keywords. split; [done |]. split; [done |]. split; [done |].
  rewrite Hlookup in Hv. injection Hv as <-.
  destruct keywords as [[|c keywords]|]; [done | | done].
  exists (trim <$> split (char ",") (c :: keywords)).
  split; [by rewrite <- list_fmap_compose |].
  split; [by rewrite length_fmap, split_length |].
  apply Forall_fmap, Forall_forall. intros piece Hpiece. cbn [compose].
  split; [apply trim_trimmed |].
  apply split_pieces in Hpiece. intros Hin. apply Hpiece.
  destruct (trim_infix piece) as (pre & post & ->).
  rewrite !elem_of_app. tauto.
Qed.

(** ** Album art *)

Lemma text_of_run (c : Value) (s : Store) :
  has_text c = true -> exists v, text_of c s = (Ok v, s).
Proof. destruct c; simpl; first [discriminate | by eexists]. Qed.

Lemma mapM_text_of_run (xs : list Value) (s : Store) :
  forallb has_text xs = true -> exists vs, mapM text_of xs s = (Ok vs, s).
Proof.
  induction xs as [|x xs IH]; cbn [forallb mapM]; [by eexists |].
  intros [Hx Hxs]%andb_true_iff.
  destruct (text_of_run x s Hx) as [v Hv]. destruct (IH Hxs) as [vs Hvs].
  exists (v :: vs). unfold bind. by rewrite Hv, Hvs.
Qed.

Lemma opt_map_run (xs : option (list Value)) (s : Store) :
  texts_readable xs = true -> exists v, opt_map text_of xs s = (Ok v, s).
Proof.
  destruct xs as [xs|]; cbn [texts_readable opt_map]; [| by eexists].
  intros Hxs. destruct (mapM_text_of_run xs s Hxs) as [vs Hvs].
  exists (VArr vs). unfold bind. by rewrite Hvs.
Qed.

(** An album-art URL in the result of the audio extractor is the URL minted
    first, for tags that embed at least one picture. *)
Lemma extractEnhancedAudioMetadata_albumArt (P : Platform) (file : File)
    (buffer : list byte) (base : gmap string Value) s a s' url :
  extractEnhancedAudioMetadata P file buffer base s = (Ok a, s') ->
  albumArt a = Some url ->
  URL_createObjectURL P (minted s) = Ok url
  /\ exists metadata picture pictures,
       parseBuffer P buffer (file_type file) (file_size file) = Ok metadata
       /\ music_metadata.picture (music_metadata.common metadata)
          = Some (picture :: pictures)
       /\ audio_metadata a !! "pictureInfo"
          = Some (VArr (picture_info <$> picture :: pictures)).
Proof.
  unfold extractEnhancedAudioMetadata, try_catch.
  destruct (extractEnhancedAudioMetadata_try P file buffer base s) as [[a0|e] s1] eqn:Htry;
    [| intros [= <- _]; discriminate].
  intros [= <- <-] Hart. revert Htry. unfold extractEnhancedAudioMetadata_try.
  unfold bind at 1, call.
  destruct (parseBuffer P buffer (file_type file) (file_size file)) as [metadata|e];
    [| discriminate].
  cbv zeta. unfold bind at 1.
  destruct (music_metadata.picture (music_metadata.common metadata))
    as [[|picture pictures]|] eqn:Hpic.
  - unfold ret at 1. cbv beta iota. unfold bind at 1.
    destruct (opt_map text_of _ s) as [[comment|e] s2]; [| discriminate].
    unfold bind at 1.
    destruct (opt_map text_of _ s2) as [[lyrics|e] s3]; [| discriminate].
    intros Heq. exfalso.
    match type of Heq with
    | ret ?record _ = _ => assert (a0 = record) as -> by (unfold ret in Heq; congruence)
    end.
    discriminate.
  - unfold bind at 1, createObjectURL at 1.
    destruct (URL_createObjectURL P (minted s)) as [art|e]; [| discriminate].
    unfold ret at 1. cbv beta iota. unfold bind at 1.
    destruct (opt_map text_of _ _) as [[comment|e] s2]; [| discriminate].
    unfold bind at 1.
    destruct (opt_map text_of _ s2) as [[lyrics|e] s3]; [| discriminate].
    intros Heq.
    match type of Heq with
    | ret ?record _ = _ => assert (a0 = record) as -> by (unfold ret in Heq; congruence)
    end.
    cbn [albumArt audio_metadata] in *. injection Hart as ->.
    split; [done |]. exists metadata, picture, pictures.
    split; [done |]. split; [done |]. by rewrite extend_lookup.
  - unfold ret at 1. cbv beta iota. unfold bind at 1.
    destruct (opt_map text_of _ s) as [[comment|e] s2]; [| discriminate].
    unfold bind at 1.
    destruct (opt_map text_of _ s2) as [[lyrics|e] s3]; [| discriminate].
    intros Heq. exfalso.
    match type of Heq with
    | ret ?record _ = _ => assert (a0 = record) as -> by (unfold ret in Heq; congruence)
    end.
    discriminate.
Qed.

(** Tags with a picture and readable comments and lyrics: the extractor
    returns the URL it minted, or no album art when minting threw. *)
Lemma extractEnhancedAudioMetadata_run (P : Platform) (file : File)
    (buffer : list byte) (base : gmap string Value) s metadata picture pictures :
  parseBuffer P buffer (file_type file) (file_size file) = Ok metadata ->
  music_metadata.picture (music_metadata.common metadata) = Some (picture :: pictures) ->
  texts_readable (music_metadata.comment (music_metadata.common metadata)) = true ->
  texts_readable (music_metadata.lyrics (music_metadata.common metadata)) = true ->
  exists a s',
    extractEnhancedAudioMetadata P file buffer base s = (Ok a, s')
    /\ albumArt a = match URL_createObjectURL P (minted s) with
                    | Ok url => Some url
                    | Throw _ => None
                    end.
Proof.
  intros Hparse Hpic Hcomment Hlyrics.
  unfold extractEnhancedAudioMetadata, try_catch, extractEnhancedAudioMetadata_try.
  unfold bind at 1, call. rewrite Hparse. cbv zeta. rewrite Hpic.
  unfold bind at 1. unfold bind at 1, createObjectURL at 1.
  destruct (URL_createObjectURL P (minted s)) as [url|e].
  - unfold ret at 1. cbv beta iota. unfold bind at 1.
    match goal with
    | |- context [opt_map text_of ?xs ?s0] =>
        destruct (opt_map_run xs s0 Hcomment) as [comment ->]
    end.
    unfold bind at 1.
    match goal with
    | |- context [opt_map text_of ?xs ?s0] =>
        destruct (opt_map_run xs s0 Hlyrics) as [lyrics ->]
    end.
    unfold ret. eexists _, _. split; [reflexivity | done].
  - unfold bind, console_warn, ret. eexists _, _. split; [reflexivity | done].
Qed.

(** X12.  A result has a thumbnail only when the analysis completed with
    category [audio] and the tags parsed from the file's buffer embed at
    least one picture.  The thumbnail is then the first URL minted, never the
    empty string, and [pictureInfo] describes every embedded picture in
    order.  Conversely, an audio result whose tags embed a picture and whose
    comments and lyrics are readable has the first minted URL as thumbnail
    unless minting threw or gave the empty string. *)
Theorem thumbnail_is_embedded_album_art (P : Platform) (file : File) (s : Store) :
  exists r s',
    analyzeFileEnhanced P file s = (Ok r, s')
    /\ (forall url,
          thumbnail r = Some url ->
          errors r = None
          /\ category r = audio
          /\ url <> []
          /\ URL_createObjectURL P (minted s) = Ok url
          /\ exists buffer tags picture pictures,
               file_arrayBuffer file = Ok buffer
               /\ parseBuffer P buffer (file_type file) (file_size file) = Ok tags
               /\ music_metadata.picture (music_metadata.common tags)
                  = Some (picture :: pictures)
               /\ metadata r !! "pictureInfo"
                  = Some (VArr (picture_info <$> picture :: pictures)))
    /\ (forall buffer tags picture pictures,
          errors r = None ->
          category r = audio ->
          file_arrayBuffer file = Ok buffer ->
          parseBuffer P buffer (file_type file) (file_size file) = Ok tags ->
          music_metadata.picture (music_metadata.common tags)
          = Some (picture :: pictures) ->
          texts_readable (music_metadata.comment (music_metadata.common tags)) = true ->
          texts_readable (music_metadata.lyrics (music_metadata.common tags)) = true ->
          thumbnail r = usable_url (URL_createObjectURL P (minted s))).
Proof.
  destruct (analyzeFileEnhanced_run P file s) as (r & s' & Hrun & Hcases).
  exists r, s'. split; [done |].
  destruct Hcases as [[Hc Htry] | (e & s1 & _ & -> & _)];
    [| split; [discriminate | intros; discriminate]].
  assert (errors r = None) as Herrors
    by (by destruct Hc as (? & ? & ? & ? & _ & _ & _ & _ & _ & -> & _)).
  apply analyzeFileEnhanced_try_dispatch in Htry
    as (buffer & checksum & sc & detectedType & s3 & Hread & _ & _ & _ & Hex & Hsc & _).
  cbn [declared minted] in Hsc.
  split.
  - intros url Hurl.
    pose proof (extractByCategory_handles _ _ _ _ _ _ _ _ _ _ Hex)
      as (_ & _ & _ & Haudio & _).
    specialize (Haudio (ex_intro _ url Hurl)). rewrite Haudio in Hex.
    apply extractByCategory_metadata in Hex as (a & s2 & Hex & Hm & Ht).
    rewrite Hurl in Ht.
    destruct (albumArt a) as [[|c art]|] eqn:Hart; [done | | done].
    injection Ht as ->.
    apply (extractEnhancedAudioMetadata_albumArt _ _ _ _ _ _ _ _ Hex) in Hart
      as (Hminted & tags & picture & pictures & Hparse & Hpic & Hinfo).
    rewrite Hsc in Hminted. rewrite <- Hm in Hinfo.
    split; [done |]. split; [done |]. split; [done |]. split; [done |].
    by exists buffer, tags, picture, pictures.
  - intros buffer' tags picture pictures _ Haudio Hread' Hparse Hpic Hcomment Hlyrics.
    rewrite Hread in Hread'. injection Hread' as <-.
    rewrite Haudio in Hex.
    apply extractByCategory_metadata in Hex as (a & s2 & Hex & _ & ->).
    destruct (extractEnhancedAudioMetadata_run P file buffer
                (baseMetadata P file detectedType checksum (extractRawHeader buffer 64))
                sc tags picture pictures Hparse Hpic Hcomment Hlyrics)
      as (a' & s2' & Hrun' & Hart).
    rewrite Hex in Hrun'. injection Hrun' as <- _.
    rewrite Hart, Hsc. unfold usable_url.
    by destruct (URL_createObjectURL P (minted s)) as [[|c url]|e].
Qed.

(** ** The extension of a file name *)

Lemma split_no_separator (separator : N) (s : jsstring) :
  separator ∉ s -> split separator s = [s].
Proof.
  induction s as [|c s IH]; [done |]. intros [Hne Hs]%not_elem_of_cons. cbn [split].
  destruct (N.eqb_spec c separator) as [-> | _]; [done |]. by rewrite IH.
Qed.

Lemma split_last_piece (separator : N) (before after : jsstring) :
  separator ∉ after ->
  last (split separator (before ++ separator :: after)) = Some after.
Proof.
  intros Hafter. induction before as [|c before IH]; cbn [app split].
  - rewrite N.eqb_refl, split_no_separator by done. done.
  - pose proof (split_length separator (before ++ separator :: after)) as Hlen.
    rewrite count_occ_app in Hlen. cbn [count_occ] in Hlen.
    destruct (N.eq_dec separator separator); [| done].
    destruct (split separator (before ++ separator :: after)) as [|piece [|piece' pieces]];
      [done | cbn [length] in Hlen; lia |].
    by destruct (c =? separator)%N.
Qed.

(** X13.  The extension of a name is the lower-cased text after its last
    dot, and a name without any dot is as a whole its own extension. *)
Theorem extensionOf_last_segment (toLowerCase : jsstring -> jsstring)
    (stem suffix : jsstring) :
  char "." ∉ suffix ->
  extensionOf toLowerCase (stem ++ char "." :: suffix) = toLowerCase suffix
  /\ extensionOf toLowerCase suffix = toLowerCase suffix.
Proof.
  intros Hsuffix. unfold extensionOf, pop.
  rewrite split_last_piece, split_no_separator by done. cbn [last fmap option_fmap option_map].
  split; by destruct (toLowerCase suffix).
Qed.

Lemma extensionOf_last_segment_witness :
  extensionOf ascii_toLowerCase (js "holiday.photo" ++ char "." :: js "JPG")
  = ascii_toLowerCase (js "JPG")
  /\ extensionOf ascii_toLowerCase (js "JPG") = ascii_toLowerCase (js "JPG").
Proof.
  apply (extensionOf_last_segment ascii_toLowerCase (js "holiday.photo") (js "JPG")).
  intros Hin. apply list_elem_of_In in Hin. vm_compute in Hin.
  destruct Hin as [Hin | [Hin | [Hin | []]]]; discriminate.
Defined.

(** ** The application *)

Lemma processFile_run (P : Platform) (file : File) (s : Store) :
  exists r s',
    analyzeFileEnhanced P file s = (Ok r, s')
    /\ processFile P file s = (Ok {| item_file := file; analysisResult := r |}, s').
Proof.
  destruct (analyzeFileEnhanced_run P file s) as (r & s' & Hrun & _).
  exists r, s'. split; [done |]. unfold processFile, try_catch, bind. by rewrite Hrun.
Qed.

Lemma handleFilesSelect_loop_run (P : Platform) (files_length : nat)
    (selectedFile_seen : option nat) (newFiles : list File) :
  forall i st s,
    exists items s',
      handleFilesSelect_loop P files_length selectedFile_seen i newFiles st s
      = (Ok tt,
         {| files := files st ++ items;
            selectedFile :=
              if bool_decide (selectedFile_seen = None) && (i =? 0)%nat
                 && (0 <? length newFiles)%nat
              then Some files_length else selectedFile st |},
         s')
      /\ item_file <$> items = newFiles
      /\ Forall (analysed P) items.
Proof.
  induction newFiles as [|file rest IH]; intros i st s.
  - exists [], s. cbn [handleFilesSelect_loop length]. rewrite app_nil_r, andb_false_r.
    by destruct st.
  - cbn [handleFilesSelect_loop length].
    destruct (processFile_run P file s) as (r & s1 & Hrun & ->).
    match goal with
    | |- context [handleFilesSelect_loop _ _ _ (S i) rest ?st2 s1] =>
        destruct (IH (S i) st2 s1) as (items & s' & -> & Hitems & Hanalysed)
    end.
    exists ({| item_file := file; analysisResult := r |} :: items), s'.
    split; [| split; [by rewrite fmap_cons, Hitems |
                      constructor; [by exists s, s1 | done]]].
    rewrite andb_false_r, andb_true_r. cbn [andb].
    destruct (bool_decide (selectedFile_seen = None) && (i =? 0)%nat);
      cbn [files selectedFile]; by rewrite <- app_assoc.
Qed.

Lemma filter_index_all {A} (l : list A) (k index : nat) :
  (index < k)%nat ->
  (filter (fun ix => ix.1 <> index) (imap (fun i => pair (k + i)%nat) l)).*2 = l.
Proof.
  revert k. induction l as [|x l IH]; intros k Hk; [done |].
  rewrite imap_cons, filter_cons_True by (cbn; lia).
  rewrite fmap_cons. cbn [snd]. f_equal.
  rewrite <- (IH (S k)) at 2 by lia. f_equal. f_equal.
  apply imap_ext. intros i y _. cbn. f_equal. lia.
Qed.

Lemma filter_index_delete {A} (l : list A) (k index : nat) :
  (filter (fun ix => ix.1 <> (k + index)%nat) (imap (fun i => pair (k + i)%nat) l)).*2
  = delete index l.
Proof.
  revert k index. induction l as [|x l IH]; intros k index; [done |].
  rewrite imap_cons. destruct index as [|index].
  - rewrite filter_cons_False by (cbn; lia). change (delete 0 (x :: l)) with l.
    etrans; [| apply (filter_index_all l (S k) (k + 0)); lia].
    f_equal. f_equal. apply imap_ext. intros i y _. cbn. f_equal. lia.
  - rewrite filter_cons_True by (cbn; lia). rewrite fmap_cons. cbn [snd].
    change (delete (S index) (x :: l)) with (x :: delete index l).
    f_equal. replace (k + S index)%nat with (S k + index)%nat by lia.
    etrans; [| apply (IH (S k) index)].
    f_equal. f_equal. apply imap_ext. intros i y _. cbn. f_equal. lia.
Qed.

Lemma handleRemoveFile_files (selectedFile_seen : option nat) (index : nat)
    (st : AppState) :
  files (handleRemoveFile selectedFile_seen index st).1 = delete index (files st).
Proof.
  unfold handleRemoveFile. cbn [fst files].
  rewrite <- (filter_index_delete (files st) 0 index). f_equal.
Qed.

(** X14.  The application's own fallback for a failed analysis is never
    used: [processFile] returns the file with exactly what
    [analyzeFileEnhanced] returned for it and logs nothing of its own. *)
Theorem processFile_returns_the_analysis (P : Platform) (file : File) (s : Store) :
  exists r s',
    analyzeFileEnhanced P file s = (Ok r, s')
    /\ processFile P file s = (Ok {| item_file := file; analysisResult := r |}, s').
Proof. apply processFile_run. Qed.

(** X15.  Selecting files appends one analysed item per file, in the order
    of the selection, and never takes the handler's [catch].  When the
    handler saw the current list length and selection, a valid selection
    stays as it is, and with nothing selected the first new file becomes the
    shown item; the selection is valid afterwards. *)
Theorem handleFilesSelect_appends_and_selects (P : Platform) (files_length : nat)
    (selectedFile_seen : option nat) (newFiles : list File) (st : AppState)
    (s : Store) :
  files_length = length (files st) ->
  selectedFile_seen = selectedFile st ->
  selection_valid st ->
  exists items st' s',
    handleFilesSelect P files_length selectedFile_seen newFiles st s = (st', s')
    /\ handleFilesSelect_loop P files_length selectedFile_seen 0 newFiles st s
       = (Ok tt, st', s')
    /\ files st' = files st ++ items
    /\ item_file <$> items = newFiles
    /\ Forall (analysed P) items
    /\ selection_valid st'
    /\ (is_Some (selectedFile st) -> selectedFile st' = selectedFile st)
    /\ (selectedFile st = None -> selectedFileItem st' = head items).
Proof.
  intros -> -> Hvalid. unfold handleFilesSelect.
  destruct (handleFilesSelect_loop_run P (length (files st)) (selectedFile st)
              newFiles 0 st s) as (items & s' & -> & Hitems & Hanalysed).
  eexists items, _, s'. split; [reflexivity |]. split; [reflexivity |].
  cbn [files selectedFile]. split; [done |]. split; [done |]. split; [done |].
  assert (length items = length newFiles) as Hlen by (by rewrite <- Hitems, length_fmap).
  unfold selection_valid, selectedFileItem in *. cbn [files selectedFile].
  destruct (selectedFile st) as [selected|] eqn:Hselected.
  - rewrite bool_decide_eq_false_2 by done. cbn [andb].
    split; [rewrite length_app; lia |]. split; [done | discriminate].
  - rewrite bool_decide_eq_true_2 by done. cbn [andb Nat.eqb].
    destruct newFiles as [|file rest]; destruct items as [|item items]; try discriminate.
    + cbn [length Nat.ltb Nat.leb]. split; [done |]. split; [by intros [? [=]] | done].
    + cbn [length Nat.ltb Nat.leb]. split; [rewrite length_app; cbn; lia |].
      split; [by intros [? [=]] |]. intros _. cbn [mbind option_bind head].
      by rewrite lookup_app_r, Nat.sub_diag.
Qed.

Lemma handleFilesSelect_appends_and_selects_witness :
  exists items st' s',
    handleFilesSelect (sample_platform true) 0 None [sample_mp3]
      {| files := []; selectedFile := None |} fresh_store = (st', s')
    /\ handleFilesSelect_loop (sample_platform true) 0 None 0 [sample_mp3]
         {| files := []; selectedFile := None |} fresh_store
       = (Ok tt, st', s')
    /\ files st' = [] ++ items
    /\ item_file <$> items = [sample_mp3]
    /\ Forall (analysed (sample_platform true)) items
    /\ selection_valid st'
    /\ (is_Some (@None nat) -> selectedFile st' = None)
    /\ (@None nat = None -> selectedFileItem st' = head items).
Proof.
  apply (handleFilesSelect_appends_and_selects (sample_platform true) 0 None
           [sample_mp3] {| files := []; selectedFile := None |} fresh_store);
    [reflexivity | reflexivity | exact I].
Defined.

(** What the handler of a removal does by itself: it deletes the item at
    the index, revokes the URLs of that item, and moves the selection with
    the items. *)
Lemma handleRemoveFile_update (selectedFile_seen : option nat)
    (index : nat) (st : AppState) :
  selectedFile_seen = selectedFile st ->
  selection_valid st ->
  let st' := (handleRemoveFile selectedFile_seen index st).1 in
  let revoked := (handleRemoveFile selectedFile_seen index st).2 in
  files st' = delete index (files st)
  /\ selection_valid st'
  /\ (forall fileItem, files st !! index = Some fileItem ->
        revoked = revoke_item fileItem
        /\ length (files st') = (length (files st) - 1)%nat)
  /\ (forall selected, selectedFile st = Some selected -> selected <> index ->
        selectedFileItem st' = selectedFileItem st)
  /\ (selectedFile st = Some index ->
        selectedFileItem st'
        = match files st !! S index with
          | Some next => Some next
          | None => if (index =? 0)%nat then None else files st !! (index - 1)%nat
          end)
  /\ (selectedFile st = None -> selectedFile st' = None)
  /\ ((length (files st) <= index)%nat -> st' = st /\ revoked = []).
Proof.
  intros -> Hvalid st' revoked.
  assert (files st' = delete index (files st)) as Hfiles
    by apply handleRemoveFile_files.
  assert (selectedFile st'
          = match selectedFile st with
            | Some selected =>
                if (selected =? index)%nat then
                  if (0 <? length (files st'))%nat
                  then Some (Nat.min index (length (files st') - 1))
                  else None
                else if (index <? selected)%nat then Some (selected - 1)%nat
                else selectedFile st
            | None => None
            end) as Hselected.
  { unfold st', handleRemoveFile. cbn [fst files selectedFile].
    by destruct (selectedFile st). }
  assert (revoked = match files st !! index with
                    | Some fileItem => revoke_item fileItem
                    | None => []
                    end) as Hrevoked by reflexivity.
  clearbody st' revoked. destruct st' as [files' selected'], st as [files0 selected0].
  unfold selection_valid, selectedFileItem in *. cbn [files selectedFile] in *.
  subst files' selected' revoked.
  split; [done |].
  destruct (files0 !! index) as [fileItem|] eqn:Hindex.
  - pose proof (lookup_lt_Some _ _ _ Hindex) as Hlt.
    pose proof (length_delete files0 index ltac:(by eexists)) as Hlen.
    split.
    { destruct selected0 as [selected|]; [| done].
      destruct (Nat.eqb_spec selected index) as [-> | Hne].
      - destruct (Nat.ltb_spec 0 (length (delete index files0))); [lia | done].
      - destruct (Nat.ltb_spec index selected); lia. }
    split; [by intros ? [= <-] |].
    split.
    { intros selected -> Hne. rewrite (proj2 (Nat.eqb_neq selected index)) by done.
      destruct (Nat.ltb_spec index selected); cbn [mbind option_bind].
      - rewrite list_lookup_delete_ge by lia.
        by replace (S (selected - 1)) with selected by lia.
      - by rewrite list_lookup_delete_lt by lia. }
    split.
    { intros ->. rewrite Nat.eqb_refl.
      destruct (Nat.ltb_spec 0 (length (delete index files0))) as [Hpos | Hzero];
        cbn [mbind option_bind].
      - destruct (files0 !! S index) as [next|] eqn:Hnext.
        + pose proof (lookup_lt_Some _ _ _ Hnext).
          rewrite Nat.min_l by lia. by rewrite list_lookup_delete_ge by lia.
        + apply lookup_ge_None in Hnext.
          rewrite Nat.min_r by lia. rewrite list_lookup_delete_lt by lia.
          destruct (Nat.eqb_spec index 0); [lia |]. f_equal. lia.
      - rewrite (proj2 (lookup_ge_None files0 (S index))) by lia.
        destruct (Nat.eqb_spec index 0); [done | lia]. }
    split; [by intros -> | lia].
  - apply lookup_ge_None in Hindex.
    assert (delete index files0 = files0) as ->.
    { rewrite delete_take_drop, take_ge, drop_ge by lia. apply app_nil_r. }
    assert (match selected0 with
            | Some selected =>
                if (selected =? index)%nat then
                  if (0 <? length files0)%nat
                  then Some (Nat.min index (length files0 - 1))
                  else None
                else if (index <? selected)%nat then Some (selected - 1)%nat
                else selected0
            | None => None
            end = selected0) as ->.
    { destruct selected0 as [selected|]; [| done].
      destruct (Nat.eqb_spec selected index) as [-> | Hne]; [lia |].
      by destruct (Nat.ltb_spec index selected); [lia |]. }
    split; [done |]. split; [discriminate |]. split; [done |].
    split; [intros ->; lia |]. by split.
Qed.

(** X16.  Removing a file deletes the item at that index alone and keeps
    the selection valid.  A selection on another file keeps showing the same
    item; a selection on the removed file moves to the item that followed it,
    to the one before it when it was the last, and to nothing when the list
    becomes empty; removing at an index beyond the list leaves the state as
    it is.  The handler revokes the preview and thumbnail URLs of the removed
    item, and the cleanup of the effect on the list, which the removal
    triggers, then revokes those of every file of the previous list, the
    files that stay included. *)
Theorem handleRemoveFile_keeps_selection (selectedFile_seen : option nat)
    (index : nat) (st : AppState) :
  selectedFile_seen = selectedFile st ->
  selection_valid st ->
  let st' := (removeFile selectedFile_seen index st).1 in
  let revoked := (removeFile selectedFile_seen index st).2 in
  files st' = delete index (files st)
  /\ selection_valid st'
  /\ (forall selected, selectedFile st = Some selected -> selected <> index ->
        selectedFileItem st' = selectedFileItem st)
  /\ (selectedFile st = Some index ->
        selectedFileItem st'
        = match files st !! S index with
          | Some next => Some next
          | None => if (index =? 0)%nat then None else files st !! (index - 1)%nat
          end)
  /\ (selectedFile st = None -> selectedFile st' = None)
  /\ ((length (files st) <= index)%nat -> st' = st)
  /\ revoked
     = from_option revoke_item [] (files st !! index) ++ (files st ≫= revoke_item)
  /\ (forall fileItem url,
        fileItem ∈ files st -> url ∈ revoke_item fileItem -> url ∈ revoked).
Proof.
  intros Hseen Hvalid st' revoked.
  pose proof (handleRemoveFile_update selectedFile_seen index st Hseen Hvalid)
    as (Hfiles & Hvalid' & Hitem & Hother & Hsame & Hnone & Hbeyond).
  assert (st' = (handleRemoveFile selectedFile_seen index st).1) as ->
    by (unfold st', removeFile; by destruct (handleRemoveFile _ _ _)).
  assert (revoked
          = (handleRemoveFile selectedFile_seen index st).2
            ++ (files st ≫= revoke_item)) as ->
    by (unfold revoked, removeFile; by destruct (handleRemoveFile _ _ _)).
  split; [done |]. split; [done |]. split; [done |]. split; [done |].
  split; [done |]. split; [intros Hge; by apply Hbeyond |].
  split.
  - reflexivity.
  - intros fileItem url Hin Hurl. apply elem_of_app. right.
    apply list_elem_of_bind. by exists fileItem.
Qed.

Lemma handleRemoveFile_keeps_selection_witness :
  selection_valid sample_state
  /\ files (removeFile (Some 1%nat) 0 sample_state).1
     = delete 0%nat (files sample_state)
  /\ selection_valid (removeFile (Some 1%nat) 0 sample_state).1.
Proof.
  assert (selection_valid sample_state) as Hvalid by (cbv; lia).
  split; [exact Hvalid |].
  destruct (handleRemoveFile_keeps_selection (Some 1%nat) 0 sample_state eq_refl Hvalid)
    as (Hfiles & Hselection & _).
  split; [exact Hfiles | exact Hselection].
Defined.

(** ** The console *)

Lemma logs_nothing {A} (c : M A) :
  (forall s o s', c s = (o, s') -> console s' = console s) -> logs c 0.
Proof.
  intros Hc s o s' Hrun. exists []. rewrite app_nil_r. by split; [eauto | split].
Qed.

Lemma logs_ret {A} (a : A) : logs (ret a) 0.
Proof. apply logs_nothing. by intros s o s' [= _ <-]. Qed.

Lemma logs_throw {A} (e : Thrown) : logs (@throw A e) 0.
Proof. apply logs_nothing. by intros s o s' [= _ <-]. Qed.

Lemma logs_call {A} (o : Outcome A) : logs (call o) 0.
Proof. apply logs_nothing. by intros s o' s' [= _ <-]. Qed.

Lemma logs_createObjectURL (P : Platform) : logs (createObjectURL P) 0.
Proof. apply logs_nothing. by intros s o s' [= _ <-]. Qed.

Lemma logs_console_warn (label : string) :
  js label ∈ warn_labels -> logs (console_warn label) 1.
Proof.
  intros Hlabel s o s' [= _ <-]. exists [js label]. cbn [console length].
  split; [done |]. split; [lia |]. by constructor.
Qed.

Lemma logs_weaken {A} (c : M A) (n n' : nat) : logs c n -> (n <= n')%nat -> logs c n'.
Proof.
  intros Hc Hn s o s' Hrun. destruct (Hc _ _ _ Hrun) as (logged & ? & ? & ?).
  exists logged. split; [done |]. split; [lia | done].
Qed.

Lemma logs_seq (s1 s2 s3 : Store) (n1 n2 : nat) :
  (exists logged, console s2 = console s1 ++ logged /\ (length logged <= n1)%nat
                  /\ Forall (fun line => line ∈ warn_labels) logged) ->
  (exists logged, console s3 = console s2 ++ logged /\ (length logged <= n2)%nat
                  /\ Forall (fun line => line ∈ warn_labels) logged) ->
  exists logged, console s3 = console s1 ++ logged /\ (length logged <= n1 + n2)%nat
                 /\ Forall (fun line => line ∈ warn_labels) logged.
Proof.
  intros (l1 & H1 & Hn1 & Hl1) (l2 & H2 & Hn2 & Hl2). exists (l1 ++ l2).
  split; [by rewrite H2, H1, app_assoc |].
  split; [rewrite length_app; lia | by apply Forall_app].
Qed.

Lemma logs_bind {A B} (c : M A) (k : A -> M B) (n1 n2 : nat) :
  logs c n1 -> (forall a, logs (k a) n2) -> logs (bind c k) (n1 + n2).
Proof.
  intros Hc Hk s o s'. unfold bind.
  destruct (c s) as [[a|e] s1] eqn:Hcs; specialize (Hc _ _ _ Hcs).
  - intros Hks. by apply (logs_seq s s1 s'); [| apply (Hk a _ _ _ Hks)].
  - intros [= <- <-]. destruct Hc as (logged & ? & ? & ?).
    exists logged. split; [done |]. split; [lia | done].
Qed.

Lemma logs_try_catch {A} (body : M A) (handler : Thrown -> M A) (n1 n2 : nat) :
  logs body n1 -> (forall e, logs (handler e) n2) ->
  logs (try_catch body handler) (n1 + n2).
Proof.
  intros Hbody Hhandler s o s'. unfold try_catch.
  destruct (body s) as [[a|e] s1] eqn:Hbs; specialize (Hbody _ _ _ Hbs).
  - intros [= <- <-]. destruct Hbody as (logged & ? & ? & ?).
    exists logged. split; [done |]. split; [lia | done].
  - intros Hh. by apply (logs_seq s s1 s'); [| apply (Hhandler e _ _ _ Hh)].
Qed.

Lemma logs_warn_ret {A} (label : string) (a : A) :
  js label ∈ warn_labels -> logs (console_warn label ;; ret a) 1.
Proof.
  intros Hlabel.
  apply (logs_bind _ _ 1 0); [by apply logs_console_warn | intros; apply logs_ret].
Qed.

Lemma logs_mapM {A B} (f : A -> M B) (l : list A) :
  (forall x, logs (f x) 0) -> logs (mapM f l) 0.
Proof.
  intros Hf. induction l as [|x l IH]; simpl; [apply logs_ret |].
  apply (logs_bind _ _ 0 0); [apply Hf |]. intros y.
  apply (logs_bind _ _ 0 0); [apply IH |]. intros ys. apply logs_ret.
Qed.

Lemma logs_opt_map (xs : option (list Value)) : logs (opt_map text_of xs) 0.
Proof.
  destruct xs as [xs|]; simpl; [| apply logs_ret].
  apply (logs_bind _ _ 0 0); [| intros; apply logs_ret].
  apply logs_mapM. intros c. destruct c; simpl; first [apply logs_ret | apply logs_throw].
Qed.

Lemma warn_label (label : string) :
  bool_decide (js label ∈ warn_labels) = true -> js label ∈ warn_labels.
Proof. apply bool_decide_eq_true. Qed.

Lemma logs_analyzeJPEGStructure (buffer : list byte) :
  logs (analyzeJPEGStructure buffer) 1.
Proof.
  unfold analyzeJPEGStructure.
  destruct (getUint16 buffer 0) as [soi|e].
  - destruct (negb (soi =? 0xFFD8));
      [apply (logs_weaken _ 0); [apply logs_ret | lia] |].
    destruct (jpeg_scan _ _ _ _) as [result [e|]];
      [| apply (logs_weaken _ 0); [apply logs_ret | lia]].
    apply logs_warn_ret, warn_label. by vm_compute.
  - apply logs_warn_ret, warn_label. by vm_compute.
Qed.

(** Steps that log nothing, and sequences of them. *)
Ltac log_none :=
  repeat match goal with
    | |- logs (ret _) 0 => apply logs_ret
    | |- logs (call _) 0 => apply logs_call
    | |- logs (throw _) 0 => apply logs_throw
    | |- logs (createObjectURL _) 0 => apply logs_createObjectURL
    | |- logs (opt_map text_of _) 0 => apply logs_opt_map
    | |- logs (bind _ _) 0 => apply (logs_bind _ _ 0 0); [| intros ?]
    | |- logs (match ?x with _ => _ end) 0 => destruct x
    end.

(** The image extractor's [try] logs nothing before it throws: only the
    JPEG analysis logs, and nothing after it can throw. *)
Lemma extractEnhancedImageMetadata_try_throws (P : Platform) (file : File)
    (buffer : list byte) (base : gmap string Value) s e s' :
  extractEnhancedImageMetadata_try P file buffer base s = (Throw e, s') ->
  console s' = console s.
Proof.
  unfold extractEnhancedImageMetadata_try. unfold bind at 1, call.
  destruct (new_Image P) as [img|e0]; [| by intros [= _ <-]].
  unfold bind at 1. unfold bind at 1, createObjectURL at 1.
  destruct (URL_createObjectURL P (minted s)) as [src|e0]; [| by intros [= _ <-]].
  unfold ret at 1.
  destruct (match image_event P file with
            | onload width height => (width, height)
            | onerror => (0, 0)
            end) as [width height].
  cbv zeta. unfold bind at 1, call.
  destruct (parseExif P buffer) as [exifData|e0]; [| by intros [= _ <-]].
  unfold bind at 1.
  destruct (jpeg_declared file base).
  - match goal with
    | |- context [analyzeJPEGStructure buffer ?s0] =>
        destruct (analyzeJPEGStructure_safe buffer s0) as (jpegInfo & s1 & -> & _)
    end.
    discriminate.
  - discriminate.
Qed.

Lemma logs_image (P : Platform) (file : File) (buffer : list byte)
    (base : gmap string Value) :
  logs (extractEnhancedImageMetadata P file buffer base) 1.
Proof.
  assert (logs (extractEnhancedImageMetadata_try P file buffer base) 1) as Hbody.
  { unfold extractEnhancedImageMetadata_try.
    apply (logs_bind _ _ 0 1); [log_none | intros img].
    apply (logs_bind _ _ 0 1); [log_none | intros [width height]]. cbv zeta.
    apply (logs_bind _ _ 0 1); [log_none | intros exifData].
    apply (logs_bind _ _ 1 0); [| intros; apply logs_ret].
    destruct (jpeg_declared file base); [apply logs_analyzeJPEGStructure |].
    apply (logs_weaken _ 0); [apply logs_ret | lia]. }
  intros s o s'. unfold extractEnhancedImageMetadata, try_catch.
  destruct (extractEnhancedImageMetadata_try P file buffer base s) as [[m|e] s1] eqn:Htry.
  - intros [= <- <-]. by apply (Hbody _ _ _ Htry).
  - apply extractEnhancedImageMetadata_try_throws in Htry. intros Hhandler.
    apply (logs_warn_ret "Failed to extract enhanced image metadata:" base) in Hhandler
      as (logged & Hlogged & Hlen & Hall); [| apply warn_label; by vm_compute].
    exists logged. by rewrite <- Htry.
Qed.

Lemma logs_audio (P : Platform) (file : File) (buffer : list byte)
    (base : gmap string Value) :
  logs (extractEnhancedAudioMetadata P file buffer base) 1.
Proof.
  apply (logs_try_catch _ _ 0 1);
    [| intros; apply logs_warn_ret, warn_label; by vm_compute].
  unfold extractEnhancedAudioMetadata_try.
  apply (logs_bind _ _ 0 0); [log_none | intros metadata]. cbv zeta.
  apply (logs_bind _ _ 0 0); [log_none | intros [art pictureInfo]]. log_none.
Qed.

Lemma logs_video (P : Platform) (file : File) (base : gmap string Value) :
  logs (extractEnhancedVideoMetadata P file base) 1.
Proof.
  apply (logs_try_catch _ _ 0 1);
    [| intros; apply logs_warn_ret, warn_label; by vm_compute].
  unfold extractEnhancedVideoMetadata_try. log_none.
Qed.

Lemma logs_document (P : Platform) (file : File) (buffer : list byte)
    (base : gmap string Value) :
  logs (extractAdvancedDocumentMetadata P file buffer base) 1.
Proof.
  apply (logs_try_catch _ _ 0 1);
    [| intros; apply logs_warn_ret, warn_label; by vm_compute].
  unfold extractAdvancedDocumentMetadata_try.
  destruct (_ || _); log_none.
Qed.

Lemma logs_text (file : File) (buffer : list byte) (base : gmap string Value) :
  logs (extractTextMetadata file buffer base) 1.
Proof.
  apply (logs_try_catch _ _ 0 1);
    [| intros; apply logs_warn_ret, warn_label; by vm_compute].
  unfold extractTextMetadata_try. cbv zeta. apply logs_ret.
Qed.

Lemma logs_checksum (P : Platform) (buffer : list byte) :
  logs (calculateChecksum P buffer) 1.
Proof.
  apply (logs_try_catch _ _ 0 1).
  - apply (logs_bind _ _ 0 0); [apply logs_call | intros; cbv zeta; apply logs_ret].
  - intros. apply (logs_bind _ _ 1 0);
      [apply logs_console_warn, warn_label; by vm_compute |].
    intros. cbv zeta. apply logs_ret.
Qed.

Lemma logs_extractByCategory (P : Platform) (file : File) (buffer : list byte)
    (base : gmap string Value) (category : Category) :
  logs (extractByCategory P file buffer base category)
       (match category with
        | archive | other => 0
        | _ => 1
        end).
Proof.
  destruct category; cbn [extractByCategory].
  - apply (logs_bind _ _ 1 0); [apply logs_image | intros; log_none].
  - apply (logs_bind _ _ 1 0); [apply logs_video | intros; log_none].
  - apply (logs_bind _ _ 1 0); [apply logs_audio | intros; cbv zeta; log_none].
  - apply (logs_bind _ _ 1 0); [apply logs_document | intros; log_none].
  - apply logs_ret.
  - apply (logs_bind _ _ 1 0); [apply logs_text | intros; log_none].
  - apply logs_ret.
Qed.

Lemma logs_validateDetectedType (detectedType : option FileTypeResult) (file : File) :
  logs (validateDetectedType detectedType file) 0.
Proof.
  apply logs_nothing. unfold validateDetectedType, warnings_push, ret.
  intros s o s'. destruct detectedType as [detected|];
    [destruct (type_mismatch detected file) |]; by intros [= _ <-].
Qed.

Lemma logs_analyzeFileEnhanced_try (P : Platform) (file : File) :
  logs (analyzeFileEnhanced_try P file) 2.
Proof.
  unfold analyzeFileEnhanced_try.
  apply (logs_bind _ _ 0 2); [apply logs_call | intros buffer].
  apply (logs_bind _ _ 1 1); [apply logs_checksum | intros checksum]. cbv zeta.
  apply (logs_bind _ _ 0 1); [apply logs_call | intros detectedType].
  apply (logs_bind _ _ 1 0).
  - eapply logs_weaken; [apply logs_extractByCategory |].
    destruct (determineFileCategory _ _ _); lia.
  - intros [[m p] t].
    apply (logs_bind _ _ 0 0); [apply logs_validateDetectedType | intros _].
    apply (logs_bind _ _ 0 0);
      [apply logs_nothing; by intros s o s' [= _ <-] | intros errors].
    apply (logs_bind _ _ 0 0);
      [apply logs_nothing; by intros s o s' [= _ <-] | intros warnings].
    apply logs_ret.
Qed.

Lemma logs_analyzeFileEnhanced (P : Platform) (file : File) :
  logs (analyzeFileEnhanced P file) 2.
Proof.
  unfold analyzeFileEnhanced.
  apply (logs_bind _ _ 0 2);
    [apply logs_nothing; by intros s o s' [= _ <-] | intros _].
  apply (logs_try_catch _ _ 2 0); [apply logs_analyzeFileEnhanced_try | intros e].
  apply (logs_bind _ _ 0 0);
    [apply logs_nothing; by intros s o s' [= _ <-] | intros _].
  apply (logs_bind _ _ 0 0);
    [apply logs_nothing; by intros s o s' [= _ <-] | intros errors].
  apply logs_ret.
Qed.

(** What a completed analysis logged is what the checksum and the extractor
    of its category logged. *)
Lemma analyzeFileEnhanced_try_console (P : Platform) (file : File) s0 r s1 :
  analyzeFileEnhanced_try P file s0 = (Ok r, s1) ->
  exists buffer checksum sc base s3,
    calculateChecksum P buffer s0 = (Ok checksum, sc)
    /\ extractByCategory P file buffer base (category r) sc
       = (Ok (metadata r, preview r, thumbnail r), s3)
    /\ console s1 = console s3.
Proof.
  unfold analyzeFileEnhanced_try. unfold bind at 1, call.
  destruct (file_arrayBuffer file) as [buffer|e]; [| discriminate].
  unfold bind at 1.
  destruct (calculateChecksum P buffer s0) as [[checksum|e] sc] eqn:Hsum; [| discriminate].
  unfold bind at 1.
  destruct (fileTypeFromBuffer P buffer) as [detectedType|e]; [| discriminate].
  cbv zeta. unfold bind at 1.
  destruct (extractByCategory _ _ _ _ _ sc) as [[[[m p] t]|e] s3] eqn:Hex; [| discriminate].
  unfold validateDetectedType, bind, get_errors, get_warnings, ret, warnings_push.
  destruct detectedType as [detected|]; [destruct (type_mismatch detected file) |];
    cbn [errors_arr warnings_arr]; intros [= <- <-];
    cbn [metadata preview thumbnail category];
    exists buffer, checksum, sc; eexists _, s3; by (split; [done |]).
Qed.

(** X17.  An analysis only ever appends to the console, and at most two
    lines, each one of the module's seven warnings: at most one from the
    checksum and at most one from the extractor of the category.  A completed
    analysis of an archive or of a file of no known category logged at most
    the checksum warning. *)
Theorem analysis_logs_few_warnings (P : Platform) (file : File) (s : Store) :
  exists r s' logged,
    analyzeFileEnhanced P file s = (Ok r, s')
    /\ console s' = console s ++ logged
    /\ Forall (fun line => line ∈ warn_labels) logged
    /\ (length logged <= 2)%nat
    /\ (errors r = None -> category r = archive \/ category r = other ->
        (length logged <= 1)%nat).
Proof.
  destruct (analyzeFileEnhanced_run P file s) as (r & s' & Hrun & Hcases).
  destruct (logs_analyzeFileEnhanced P file _ _ _ Hrun) as (logged & Hlogged & Hlen & Hall).
  exists r, s', logged. split; [done |]. split; [done |]. split; [done |].
  split; [done |]. intros Herrors Hcategory.
  destruct Hcases as [[_ Htry] | (e & s1 & _ & -> & _)]; [| discriminate].
  apply analyzeFileEnhanced_try_console in Htry
    as (buffer & checksum & sc & base & s3 & Hsum & Hex & Hconsole).
  apply logs_checksum in Hsum as (l1 & Hl1 & Hn1 & _).
  apply logs_extractByCategory in Hex as (l2 & Hl2 & Hn2 & _).
  cbn [declared console] in Hl1.
  rewrite Hconsole, Hl2, Hl1, <- app_assoc in Hlogged.
  apply app_inv_head in Hlogged. rewrite <- Hlogged, length_app.
  destruct Hcategory as [Hc | Hc]; rewrite Hc in Hn2; lia.
Qed.

(** ** The older classifier *)

Lemma includes_forallb (l : list jsstring) (f : jsstring -> bool) (x : jsstring) :
  includes l x = true -> forallb f l = true -> f x = true.
Proof.
  unfold includes. intros (y & Hy & Heq)%existsb_exists Hall.
  apply jsstring_eqb_eq in Heq as ->.
  rewrite forallb_forall in Hall. by apply Hall.
Qed.

Lemma includes_app (l1 l2 : list jsstring) (x : jsstring) :
  includes (l1 ++ l2) x = includes l1 x || includes l2 x.
Proof. apply existsb_app. Qed.

(** Without a media MIME type, an extension the older classifier does not
    know is [other] to it. *)
Lemma getFileTypeCategory_unknown (mimeType extension : jsstring) :
  startsWith (js "image/") mimeType = false ->
  startsWith (js "video/") mimeType = false ->
  startsWith (js "audio/") mimeType = false ->
  includes known_extensions extension = false ->
  getFileTypeCategory mimeType extension = other.
Proof.
  intros Himage Hvideo Haudio. unfold getFileTypeCategory.
  rewrite Himage, Hvideo, Haudio. cbv zeta.
  change known_extensions with
    ((js <$> ["pdf"; "doc"; "docx"; "txt"; "rtf"; "odt"]%string)
     ++ (js <$> ["jpg"; "jpeg"; "png"; "gif"; "bmp"; "webp"; "svg"]%string)
     ++ (js <$> ["mp4"; "avi"; "mov"; "wmv"; "flv"; "webm"; "mkv"]%string)
     ++ (js <$> ["mp3"; "wav"; "flac"; "aac"; "ogg"; "m4a"]%string)).
  rewrite !includes_app, !orb_false_iff. by intros (-> & -> & -> & ->).
Qed.

(** X18.  The enhanced classifier refines the older one: for a MIME type
    that is not [text/...], whatever the older classifier does not call
    [other] gets the same category from the enhanced one. *)
Theorem determineFileCategory_refines_getFileTypeCategory
    (toLowerCase : jsstring -> jsstring) (mimeType filename : jsstring) :
  startsWith (js "text/") mimeType = false ->
  getFileTypeCategory mimeType (extensionOf toLowerCase filename) <> other ->
  determineFileCategory toLowerCase mimeType filename
  = getFileTypeCategory mimeType (extensionOf toLowerCase filename).
Proof.
  intros Htext Hknown.
  destruct (startsWith (js "image/") mimeType) eqn:Himage;
    [unfold determineFileCategory, getFileTypeCategory; by rewrite Himage |].
  destruct (startsWith (js "video/") mimeType) eqn:Hvideo;
    [unfold determineFileCategory, getFileTypeCategory; by rewrite Himage, Hvideo |].
  destruct (startsWith (js "audio/") mimeType) eqn:Haudio;
    [unfold determineFileCategory, getFileTypeCategory;
     by rewrite Himage, Hvideo, Haudio |].
  destruct (includes known_extensions (extensionOf toLowerCase filename)) eqn:Hext;
    [| by rewrite getFileTypeCategory_unknown in Hknown].
  clear Hknown. unfold determineFileCategory, getFileTypeCategory.
  rewrite Himage, Hvideo, Haudio, Htext. cbv zeta.
  revert Hext. generalize (extensionOf toLowerCase filename) as extension.
  intros extension Hext.
  pattern extension.
  match goal with
  | |- ?agree extension =>
      assert (forallb (fun x => bool_decide (agree x)) known_extensions = true) as Hall
        by (vm_compute; reflexivity)
  end.
  apply (includes_forallb _ _ _ Hext), bool_decide_eq_true in Hall. exact Hall.
Qed.

Lemma determineFileCategory_refines_getFileTypeCategory_witness :
  determineFileCategory ascii_toLowerCase (js "application/pdf") (js "Report.PDF")
  = getFileTypeCategory (js "application/pdf")
      (extensionOf ascii_toLowerCase (js "Report.PDF")).
Proof.
  apply (determineFileCategory_refines_getFileTypeCategory ascii_toLowerCase
           (js "application/pdf") (js "Report.PDF")).
  - vm_compute. reflexivity.
  - vm_compute. discriminate.
Defined.

(** ** Statistics *)

Lemma count_category_tally (acc : list (Category * nat)) (c c' : Category) :
  tally (count_category acc c) c'
  = (tally acc c' + if decide (c = c') then 1 else 0)%nat.
Proof.
  unfold tally. induction acc as [|[key count] acc IH]; cbn [count_category find fst snd].
  - destruct (decide (c = c')) as [-> | Hne].
    + by rewrite bool_decide_eq_true_2.
    + by rewrite bool_decide_eq_false_2.
  - destruct (decide (key = c)) as [-> | Hkey]; cbn [find fst snd].
    + destruct (decide (c = c')) as [-> | Hne].
      * by rewrite bool_decide_eq_true_2.
      * rewrite bool_decide_eq_false_2 by done. lia.
    + destruct (bool_decide (key = c')) eqn:Hc'; [| exact IH].
      apply bool_decide_eq_true in Hc' as ->.
      destruct (decide (c = c')); [congruence | lia].
Qed.

Lemma count_category_keys (acc : list (Category * nat)) (c : Category) :
  (count_category acc c).*1 = if decide (c ∈ acc.*1) then acc.*1 else acc.*1 ++ [c].
Proof.
  induction acc as [|[key count] acc IH]; cbn [count_category fmap list_fmap fst].
  - destruct (decide (c ∈ [])) as [Hin | _]; [by apply elem_of_nil in Hin | done].
  - destruct (decide (key = c)) as [-> | Hkey]; cbn [fmap list_fmap fst].
    + rewrite decide_True by left. done.
    + change (list_fmap _ _ fst ?l) with (l.*1). rewrite IH.
      destruct (decide (c ∈ acc.*1)) as [Hin | Hnotin].
      * rewrite decide_True by (by right). done.
      * rewrite decide_False; [done |]. by intros [-> | ?]%elem_of_cons.
Qed.

Lemma count_category_positive (acc : list (Category * nat)) (c : Category) :
  Forall (fun kv => (0 < kv.2)%nat) acc ->
  Forall (fun kv => (0 < kv.2)%nat) (count_category acc c).
Proof.
  induction 1 as [|[key count] acc Hcount Hacc IH]; cbn [count_category].
  - constructor; [cbn; lia | done].
  - destruct (decide (key = c)); constructor; cbn in *; try lia; done.
Qed.

Lemma count_category_sum (acc : list (Category * nat)) (c : Category) :
  sum_list (count_category acc c).*2 = S (sum_list acc.*2).
Proof.
  induction acc as [|[key count] acc IH]; [done |]. cbn [count_category].
  destruct (decide (key = c)); rewrite !fmap_cons; simpl.
  - lia.
  - rewrite IH. lia.
Qed.

Lemma tally_entry (acc : list (Category * nat)) (c : Category) (n : nat) :
  NoDup acc.*1 -> ((c, n) ∈ acc <-> tally acc c = n /\ c ∈ acc.*1).
Proof.
  unfold tally. induction acc as [|[key count] acc IH]; cbn [find fst snd fmap list_fmap].
  - intros _. split; [by intros ?%elem_of_nil | by intros [_ ?%elem_of_nil]].
  - change (list_fmap _ _ fst ?l) with (l.*1).
    intros [Hkey Hnodup]%NoDup_cons. specialize (IH Hnodup).
    destruct (bool_decide (key = c)) eqn:Hc.
    + apply bool_decide_eq_true in Hc as ->. cbn [snd]. split.
      * intros [[= ->] | Hin]%elem_of_cons; [split; [done | left] |].
        destruct Hkey. apply list_elem_of_fmap. by exists (c, n).
      * intros [-> _]. left.
    + apply bool_decide_eq_false in Hc. rewrite elem_of_cons, IH, elem_of_cons.
      split.
      * intros [[= -> ->] | [? ?]]; [done | by split; [| right]].
      * intros [? [-> | ?]]; [done | by right].
Qed.

Lemma categories_invariant (files : list FileItem) (acc : list (Category * nat)) :
  NoDup acc.*1 ->
  Forall (fun kv => (0 < kv.2)%nat) acc ->
  let result :=
    foldl (fun acc item => count_category acc (category (analysisResult item))) acc files in
  NoDup result.*1
  /\ Forall (fun kv => (0 < kv.2)%nat) result
  /\ (forall c, tally result c = (tally acc c + files_of c files)%nat)
  /\ sum_list result.*2 = (sum_list acc.*2 + length files)%nat.
Proof.
  revert acc. induction files as [|item files IH]; intros acc Hnodup Hpositive; cbn [foldl].
  - unfold files_of. cbn. split; [done |]. split; [done |]. split; [intros; lia | lia].
  - destruct (IH (count_category acc (category (analysisResult item))))
      as (Hn & Hp & Ht & Hs).
    + rewrite count_category_keys. destruct (decide _) as [|Hnotin]; [done |].
      apply NoDup_app. split; [done |]. split; [| apply NoDup_singleton].
      intros x Hx ->%list_elem_of_singleton. done.
    + by apply count_category_positive.
    + split; [done |]. split; [done |]. split.
      * intros c. rewrite Ht, count_category_tally. unfold files_of.
        destruct (decide (category (analysisResult item) = c)) as [Hc | Hc].
        -- rewrite filter_cons_True by done. cbn [length]. lia.
        -- rewrite filter_cons_False by done. lia.
      * rewrite Hs, count_category_sum. cbn [length]. lia.
Qed.

(** X19.  The category statistic lists each category once, exactly when
    some listed file has it, with the number of such files as its count; the
    counts add up to the number of files. *)
Theorem categories_count_every_file_once (files : list FileItem) :
  NoDup (categories files).*1
  /\ (forall c n, (c, n) ∈ categories files <-> n = files_of c files /\ (0 < n)%nat)
  /\ sum_list (categories files).*2 = length files.
Proof.
  destruct (categories_invariant files [] (NoDup_nil_2) (Forall_nil_2 _))
    as (Hnodup & Hpositive & Htally & Hsum).
  fold (categories files) in *. split; [done |]. split; [| exact Hsum].
  intros c n. rewrite tally_entry by done. rewrite Htally. cbn.
  split.
  - intros [<- Hin]. split; [done |].
    apply list_elem_of_fmap in Hin as ([c' n'] & -> & Hin).
    pose proof Hin as Hentry. apply tally_entry in Hentry as [Hn' _]; [| done].
    rewrite Forall_forall in Hpositive. specialize (Hpositive _ Hin).
    rewrite Htally in Hn'. cbn in *. lia.
  - intros [-> Hpos]. split; [done |].
    destruct (decide (c ∈ (categories files).*1)) as [Hin | Hnotin]; [done |].
    exfalso. specialize (Htally c). unfold tally in Htally at 1.
    destruct (find _ (categories files)) as [[c' n']|] eqn:Hfind.
    + apply find_some in Hfind as [Hin Hc]. apply bool_decide_eq_true in Hc. cbn in Hc.
      subst c'. apply Hnotin. apply list_elem_of_fmap. exists (c, n').
      split; [done |]. by apply list_elem_of_In.
    + cbn in Htally. lia.
Qed.
